(** * Werewolf game: phase resolution engine

    A shallow embedding of the resolution core of the Werewolf game
    (models.py, role_assigner.py, game_engine.py) together with the
    properties of night resolution, vote tally, hunter retaliation,
    role assignment and the win evaluator.

    Python objects that the engine mutates in place (the players of
    [GameEngine.players], the [GameState]) are kept in one explicit engine
    state that every operation threads; an operation either finishes or
    raises, and in both cases the state it leaves behind is recorded. *)

From Stdlib Require Import ZArith List Bool String Lia Permutation.
Import ListNotations.
Open Scope Z_scope.

(** ** models.py: enumerations *)

Module RoleType.
Inductive t : Type := WEREWOLF | VILLAGER | SEER | WITCH | HUNTER.

Definition eqb (a b : t) : bool :=
  match a, b with
  | WEREWOLF, WEREWOLF | VILLAGER, VILLAGER | SEER, SEER
  | WITCH, WITCH | HUNTER, HUNTER => true
  | _, _ => false
  end.
End RoleType.

Module CampType.
Inductive t : Type := WEREWOLF | VILLAGER.
End CampType.

Module PhaseType.
Inductive t : Type := NIGHT | DAY | VOTE.
End PhaseType.

Module ActionType.
Inductive t : Type := KILL | CHECK | SAVE | POISON | SHOOT | VOTE.

Definition eqb (a b : t) : bool :=
  match a, b with
  | KILL, KILL | CHECK, CHECK | SAVE, SAVE
  | POISON, POISON | SHOOT, SHOOT | VOTE, VOTE => true
  | _, _ => false
  end.
End ActionType.

(** ** models.py: records

    [Player.name] (always the id rendered after a fixed prefix),
    [Player.role_revealed], [GameState.knife_target] and
    [ActionRecord.timestamp] are never read by the resolution code and are
    left out. Ids are Python ints, hence [Z]. *)

Record Player : Type := mkPlayer {
  id : Z;
  role : option RoleType.t;
  alive : bool;
  is_ai : bool;
  has_antidote : bool;
  has_poison : bool;
  used_antidote_night : option Z;
  used_poison_night : option Z
}.

Record ActionRecord : Type := mkActionRecord {
  action_type : ActionType.t;
  player_id : Z;
  target_id : option Z;
  ar_phase : string;
  round : Z
}.

Record NightActions : Type := mkNightActions {
  werewolf_kill : option Z;
  seer_check : option Z;
  witch_save : option Z;
  witch_poison : option Z;
  hunter_shoot : option Z
}.

Record GameState : Type := mkGameState {
  current_round : Z;
  phase : PhaseType.t;
  alive_players : list Z;
  dead_players : list Z;
  history : list ActionRecord;
  night_actions : option NightActions;
  seer_results : list (Z * string);
  witch_saved : list Z;
  witch_poisoned : list Z;
  voted_player : option Z;
  game_over : bool;
  winner : option CampType.t
}.

(** [Player(id=i, is_ai=...)]: every other field takes its default. *)
Definition new_player (i : Z) (ai : bool) : Player :=
  mkPlayer i None true ai true true None None.

(** [NightActions()] *)
Definition new_night_actions : NightActions :=
  mkNightActions None None None None None.

(** [GameState()] *)
Definition new_game_state : GameState :=
  mkGameState 1 PhaseType.NIGHT [] [] [] None [] [] [] None false None.

(** Field assignments. *)
Definition set_alive (b : bool) (p : Player) : Player :=
  mkPlayer (id p) (role p) b (is_ai p) (has_antidote p) (has_poison p)
           (used_antidote_night p) (used_poison_night p).

Definition set_role (r : RoleType.t) (p : Player) : Player :=
  mkPlayer (id p) (Some r) (alive p) (is_ai p) (has_antidote p) (has_poison p)
           (used_antidote_night p) (used_poison_night p).

Definition use_antidote (n : Z) (p : Player) : Player :=
  mkPlayer (id p) (role p) (alive p) (is_ai p) false (has_poison p)
           (Some n) (used_poison_night p).

Definition use_poison (n : Z) (p : Player) : Player :=
  mkPlayer (id p) (role p) (alive p) (is_ai p) (has_antidote p) false
           (used_antidote_night p) (Some n).

Definition set_current_round (v : Z) (g : GameState) : GameState :=
  mkGameState v (phase g) (alive_players g) (dead_players g) (history g)
    (night_actions g) (seer_results g) (witch_saved g) (witch_poisoned g)
    (voted_player g) (game_over g) (winner g).

Definition set_phase (v : PhaseType.t) (g : GameState) : GameState :=
  mkGameState (current_round g) v (alive_players g) (dead_players g) (history g)
    (night_actions g) (seer_results g) (witch_saved g) (witch_poisoned g)
    (voted_player g) (game_over g) (winner g).

Definition set_alive_players (v : list Z) (g : GameState) : GameState :=
  mkGameState (current_round g) (phase g) v (dead_players g) (history g)
    (night_actions g) (seer_results g) (witch_saved g) (witch_poisoned g)
    (voted_player g) (game_over g) (winner g).

Definition set_dead_players (v : list Z) (g : GameState) : GameState :=
  mkGameState (current_round g) (phase g) (alive_players g) v (history g)
    (night_actions g) (seer_results g) (witch_saved g) (witch_poisoned g)
    (voted_player g) (game_over g) (winner g).

Definition set_history (v : list ActionRecord) (g : GameState) : GameState :=
  mkGameState (current_round g) (phase g) (alive_players g) (dead_players g) v
    (night_actions g) (seer_results g) (witch_saved g) (witch_poisoned g)
    (voted_player g) (game_over g) (winner g).

Definition set_night_actions (v : option NightActions) (g : GameState) : GameState :=
  mkGameState (current_round g) (phase g) (alive_players g) (dead_players g)
    (history g) v (seer_results g) (witch_saved g) (witch_poisoned g)
    (voted_player g) (game_over g) (winner g).

Definition set_seer_results (v : list (Z * string)) (g : GameState) : GameState :=
  mkGameState (current_round g) (phase g) (alive_players g) (dead_players g)
    (history g) (night_actions g) v (witch_saved g) (witch_poisoned g)
    (voted_player g) (game_over g) (winner g).

Definition set_witch_saved (v : list Z) (g : GameState) : GameState :=
  mkGameState (current_round g) (phase g) (alive_players g) (dead_players g)
    (history g) (night_actions g) (seer_results g) v (witch_poisoned g)
    (voted_player g) (game_over g) (winner g).

Definition set_witch_poisoned (v : list Z) (g : GameState) : GameState :=
  mkGameState (current_round g) (phase g) (alive_players g) (dead_players g)
    (history g) (night_actions g) (seer_results g) (witch_saved g) v
    (voted_player g) (game_over g) (winner g).

Definition set_voted_player (v : option Z) (g : GameState) : GameState :=
  mkGameState (current_round g) (phase g) (alive_players g) (dead_players g)
    (history g) (night_actions g) (seer_results g) (witch_saved g)
    (witch_poisoned g) v (game_over g) (winner g).

Definition set_game_over (v : bool) (g : GameState) : GameState :=
  mkGameState (current_round g) (phase g) (alive_players g) (dead_players g)
    (history g) (night_actions g) (seer_results g) (witch_saved g)
    (witch_poisoned g) (voted_player g) v (winner g).

Definition set_winner (v : option CampType.t) (g : GameState) : GameState :=
  mkGameState (current_round g) (phase g) (alive_players g) (dead_players g)
    (history g) (night_actions g) (seer_results g) (witch_saved g)
    (witch_poisoned g) (voted_player g) (game_over g) v.

(** ** Python helpers *)

(** Truth value of an [Optional[int]]: [None] and [0] are both false. *)
Definition truthy (o : option Z) : bool :=
  match o with
  | None => false
  | Some z => negb (z =? 0)
  end.

(** [o is not None] *)
Definition is_not_None {A : Type} (o : option A) : bool :=
  match o with
  | Some _ => true
  | None => false
  end.

(** [a == b] on [Optional[int]]. *)
Definition opt_eqb (a b : option Z) : bool :=
  match a, b with
  | None, None => true
  | Some x, Some y => x =? y
  | _, _ => false
  end.

(** [p.role == r] where [p.role] may still be [None]. *)
Definition role_is (r : RoleType.t) (p : Player) : bool :=
  match role p with
  | Some r' => RoleType.eqb r' r
  | None => false
  end.

(** [len(l)] as a Python int. *)
Definition len {A : Type} (l : list A) : Z := Z.of_nat (List.length l).

(** ** models.py: GameState.check_winner *)

Definition check_winner (g : GameState) (players : list Player) : option CampType.t :=
  match winner g with
  | Some w => Some w
  | None =>
      let alive_players := filter alive players in
      let alive_werewolf_count := len (filter (role_is RoleType.WEREWOLF) alive_players) in
      if alive_werewolf_count =? 0 then Some CampType.VILLAGER
      else
        let alive_good_count := len alive_players - alive_werewolf_count in
        if alive_good_count <=? alive_werewolf_count then Some CampType.WEREWOLF
        else None
  end.

(** ** The engine state, exceptions and the engine monad *)

Inductive Exn : Type :=
| StopIteration   (* [next(...)] over an exhausted generator *)
| ValueError      (* [list.remove] of an absent element, empty [randint] range *)
| IndexError      (* list index out of range, [random.choice] of an empty list *)
| AttributeError  (* [.value] of a role that is still [None] *)
| EOFError        (* [input()] at the end of the console input *)
| ActorError      (* an awaited decision of an AI player raised *)
| SystemExit.

(** What an awaited call on an AI player gives back: a value, or it raises. *)
Inductive reply (A : Type) : Type :=
| Answer (a : A)
| Fails.
Arguments Answer {A} a.
Arguments Fails {A}.

(** The dict returned by [AIPlayer.choose_witch_action]. *)
Record WitchAction : Type := mkWitchAction {
  wa_save : bool;
  wa_poison : option Z
}.

(** Fields of [GameEngine], and the two cursors into the outside world:
    [clock] counts the external draws and calls made so far (it selects the
    next random draw and the next answer of an AI player), [stdin] holds the
    console lines still to be read, each already passed through [int()]
    ([None] when [int()] raises ValueError). *)
Record GameEngine : Type := mkGameEngine {
  enable_ai_mode : bool;
  spectator_mode : bool;
  players : list Player;
  game_state : GameState;
  ai_players : list Z;
  num_players : Z;
  human_player_id : option Z;
  clock : nat;
  stdin : list (option Z)
}.

Definition set_players (v : list Player) (e : GameEngine) : GameEngine :=
  mkGameEngine (enable_ai_mode e) (spectator_mode e) v (game_state e)
    (ai_players e) (num_players e) (human_player_id e) (clock e) (stdin e).

Definition set_game_state (v : GameState) (e : GameEngine) : GameEngine :=
  mkGameEngine (enable_ai_mode e) (spectator_mode e) (players e) v
    (ai_players e) (num_players e) (human_player_id e) (clock e) (stdin e).

Definition set_ai_players (v : list Z) (e : GameEngine) : GameEngine :=
  mkGameEngine (enable_ai_mode e) (spectator_mode e) (players e) (game_state e)
    v (num_players e) (human_player_id e) (clock e) (stdin e).

Definition set_human_player_id (v : option Z) (e : GameEngine) : GameEngine :=
  mkGameEngine (enable_ai_mode e) (spectator_mode e) (players e) (game_state e)
    (ai_players e) (num_players e) v (clock e) (stdin e).

Definition set_clock (v : nat) (e : GameEngine) : GameEngine :=
  mkGameEngine (enable_ai_mode e) (spectator_mode e) (players e) (game_state e)
    (ai_players e) (num_players e) (human_player_id e) v (stdin e).

Definition set_stdin (v : list (option Z)) (e : GameEngine) : GameEngine :=
  mkGameEngine (enable_ai_mode e) (spectator_mode e) (players e) (game_state e)
    (ai_players e) (num_players e) (human_player_id e) (clock e) v.

(** [GameEngine(enable_ai_mode, spectator_mode)] started on a console. *)
Definition new_engine (ai spectator : bool) (console : list (option Z)) : GameEngine :=
  mkGameEngine ai spectator [] new_game_state [] 9 None 0 console.

Inductive outcome (A : Type) : Type :=
| Done (a : A) (e : GameEngine)
| Raised (x : Exn) (e : GameEngine).
Arguments Done {A} a e.
Arguments Raised {A} x e.

Definition M (A : Type) : Type := GameEngine -> outcome A.

Definition ret {A : Type} (a : A) : M A := fun e => Done a e.

Definition bind {A B : Type} (c : M A) (k : A -> M B) : M B :=
  fun e => match c e with
           | Done a e' => k a e'
           | Raised x e' => Raised x e'
           end.

Definition raise {A : Type} (x : Exn) : M A := fun e => Raised x e.

(** [try: c except Exception: h]. [SystemExit] is not an [Exception]. *)
Definition try_except {A : Type} (c : M A) (h : M A) : M A :=
  fun e => match c e with
           | Done a e' => Done a e'
           | Raised SystemExit e' => Raised SystemExit e'
           | Raised _ e' => h e'
           end.

Definition get : M GameEngine := fun e => Done e e.

Definition modify (f : GameEngine -> GameEngine) : M unit := fun e => Done tt (f e).

Definition modify_state (f : GameState -> GameState) : M unit :=
  modify (fun e => set_game_state (f (game_state e)) e).

Notation "x <- c ;; k" := (bind c (fun x => k))
  (at level 61, c at next level, right associativity).
Notation "c ;;; k" := (bind c (fun _ => k))
  (at level 61, right associativity).

(** The state an outcome leaves behind, finished or not. *)
Definition final {A : Type} (o : outcome A) : GameEngine :=
  match o with
  | Done _ e => e
  | Raised _ e => e
  end.

(** [for x in l: body(x)] *)
Fixpoint for_each {A : Type} (l : list A) (body : A -> M unit) : M unit :=
  match l with
  | [] => ret tt
  | x :: rest => body x ;;; for_each rest body
  end.

(** ** Lists and dicts as Python has them *)

(** [x in l] for a list of ints. *)
Definition mem (x : Z) (l : list Z) : bool := existsb (Z.eqb x) l.

(** [l.remove(x)]: drops the first occurrence, [None] stands for ValueError. *)
Fixpoint list_remove (x : Z) (l : list Z) : option (list Z) :=
  match l with
  | [] => None
  | y :: rest =>
      if y =? x then Some rest
      else match list_remove x rest with
           | Some rest' => Some (y :: rest')
           | None => None
           end
  end.

(** A dict as an association list in insertion order. [d[k] = v] keeps the
    position of a key that is already present. *)
Fixpoint dict_set {K V : Type} (eqb : K -> K -> bool) (k : K) (v : V)
  (d : list (K * V)) : list (K * V) :=
  match d with
  | [] => [(k, v)]
  | (k', v') :: rest =>
      if eqb k' k then (k, v) :: rest else (k', v') :: dict_set eqb k v rest
  end.

(** [d.get(k, default)] *)
Fixpoint dict_get {K V : Type} (eqb : K -> K -> bool) (k : K) (default : V)
  (d : list (K * V)) : V :=
  match d with
  | [] => default
  | (k', v') :: rest => if eqb k' k then v' else dict_get eqb k default rest
  end.

(** [next((p for p in players if p.id == target), None)] *)
Definition find_player (target : option Z) (ps : list Player) : option Player :=
  find (fun p => opt_eqb (Some (id p)) target) ps.

(** Mutation of the first object of the list that satisfies [sel]: the effect
    of [obj = next(p for p in players if sel(p)); obj.field = ...]. *)
Fixpoint update_first (sel : Player -> bool) (f : Player -> Player)
  (ps : list Player) : list Player :=
  match ps with
  | [] => []
  | p :: rest => if sel p then f p :: rest else p :: update_first sel f rest
  end.

(** ** The outside world

    Everything the engine asks of its collaborators: the [random] module,
    and the decision methods of the AI players (ai_player.py, reached
    through the network). Each is indexed by the clock value of the call, so
    that two calls may answer differently; the AI methods also receive the id
    of the asking player and what the engine passes them. *)

Record Env : Type := mkEnv {
  rand : nat -> nat;
  shuffle : nat -> list RoleType.t -> list RoleType.t;
  choose_werewolf_target : nat -> Z -> list Player -> GameState -> reply (option Z);
  choose_seer_target : nat -> Z -> list Player -> GameState -> reply (option Z);
  choose_witch_action :
    nat -> Z -> list Player -> GameState -> option Z -> bool -> bool -> reply WitchAction;
  choose_vote_target : nat -> Z -> list Player -> GameState -> reply (option Z);
  choose_hunter_target : nat -> Z -> list Player -> GameState -> reply (option Z);
  generate_speech : nat -> Z -> list Player -> GameState -> reply unit;
  openai_initialize : nat -> reply unit
}.

(** The contract of [random.shuffle]: it rearranges, nothing more. *)
Definition shuffle_rearranges (env : Env) : Prop :=
  forall n l, Permutation l (shuffle env n l).

Section Engine.

Variable env : Env.

Definition tick : M nat :=
  fun e => Done (clock e) (set_clock (S (clock e)) e).

(** [random.choice(l)] *)
Definition random_choice {A : Type} (l : list A) : M A :=
  match l with
  | [] => raise IndexError
  | d :: _ => n <- tick ;; ret (nth (Nat.modulo (rand env n) (List.length l)) l d)
  end.

(** [random.randint(a, b)] *)
Definition randint (a b : Z) : M Z :=
  if b <? a then raise ValueError
  else n <- tick ;; ret (a + Z.of_nat (rand env n) mod (b - a + 1)).

(** [await ai_player.method(...)] *)
Definition await {A : Type} (call : nat -> reply A) : M A :=
  n <- tick ;;
  match call n with
  | Answer a => ret a
  | Fails => raise ActorError
  end.

(** [int(input(...))]: [Some None] is a line on which [int()] raises ValueError,
    which both callers catch to ask again. *)
Definition input : M (option Z) :=
  fun e => match stdin e with
           | [] => Raised EOFError e
           | line :: rest => Done line (set_stdin rest e)
           end.

(** [while True: target_id = int(input()); if valid(target_id): break],
    by recursion on the lines that are left. *)
Fixpoint first_valid (valid : Z -> bool) (lines : list (option Z))
  : option Z * list (option Z) :=
  match lines with
  | [] => (None, [])
  | Some z :: rest => if valid z then (Some z, rest) else first_valid valid rest
  | None :: rest => first_valid valid rest
  end.

Definition input_until (valid : Z -> bool) : M Z :=
  fun e => match first_valid valid (stdin e) with
           | (Some z, rest) => Done z (set_stdin rest e)
           | (None, rest) => Raised EOFError (set_stdin rest e)
           end.

(** ** role_assigner.py *)

(** [RoleAssigner.create_players(num_players, spectator_mode)] *)
Definition create_players (num_players : Z) (spectator_mode : bool)
  : M (list Player * option Z) :=
  human_player_id <-
    (if negb spectator_mode
     then h <- randint 0 (num_players - 1) ;; ret (Some h)
     else ret None) ;;
  ret (map (fun i : nat =>
              let i := Z.of_nat i in
              new_player i (spectator_mode || negb (opt_eqb (Some i) human_player_id)))
           (seq 0 (Z.to_nat num_players)),
       human_player_id).

(** The fixed distribution of [assign_roles], in the order of the dict. *)
Definition role_distribution : list (RoleType.t * nat) :=
  [(RoleType.SEER, 1%nat); (RoleType.WITCH, 1%nat); (RoleType.HUNTER, 1%nat);
   (RoleType.VILLAGER, 3%nat); (RoleType.WEREWOLF, 3%nat)].

(** [for role, count in role_distribution.items(): role_list.extend([role] * count)] *)
Definition build_role_list (d : list (RoleType.t * nat)) : list RoleType.t :=
  flat_map (fun rc => repeat (fst rc) (snd rc)) d.

(** [for i, player in enumerate(players): player.role = role_list[i]].
    The list returned holds the players as the loop leaves them, also when
    [role_list[i]] raises. *)
Fixpoint assign_from (role_list : list RoleType.t) (i : nat) (players : list Player)
  : list Player * option Exn :=
  match players with
  | [] => ([], None)
  | player :: rest =>
      match nth_error role_list i with
      | None => (player :: rest, Some IndexError)
      | Some assigned_role =>
          let (rest', x) := assign_from role_list (S i) rest in
          (set_role assigned_role player :: rest', x)
      end
  end.

(** [RoleAssigner.assign_roles(players)]. The engine passes its own
    [self.players]: the objects mutated are the ones it holds. *)
Definition assign_roles (players : list Player) : M (list Player) :=
  n <- tick ;;
  let role_list := shuffle env n (build_role_list role_distribution) in
  let (updated_players, x) := assign_from role_list 0 players in
  modify (set_players updated_players) ;;;
  match x with
  | None => ret updated_players
  | Some x => raise x
  end.

(** ** game_engine.py: setup *)

(** [d[k] = ...] seen on the keys of the dict only. *)
Definition keys_add (k : Z) (keys : list Z) : list Z :=
  if mem k keys then keys else keys ++ [k].

(** [_initialize_ai_players]: [self.ai_players] is kept by its keys; the
    objects behind them are the AI players of [Env]. *)
Definition _initialize_ai_players : M unit :=
  e <- get ;;
  for_each (players e)
    (fun player =>
       if is_ai player
       then modify (fun e => set_ai_players (keys_add (id player) (ai_players e)) e)
       else ret tt).

(** [initialize_game] *)
Definition initialize_game : M bool :=
  try_except
    (e <- get ;;
     created <- create_players (num_players e) (spectator_mode e) ;;
     modify (fun e => set_human_player_id (snd created) (set_players (fst created) e)) ;;;
     assigned <- assign_roles (fst created) ;;
     modify (set_players assigned) ;;;
     modify (set_game_state (set_alive_players (map id assigned) new_game_state)) ;;;
     (if enable_ai_mode e then _initialize_ai_players else ret tt) ;;;
     (if enable_ai_mode e
      then try_except (await (openai_initialize env)) (raise SystemExit)
      else ret tt) ;;;
     ret true)
    (ret false).

(** ** game_engine.py: the night *)

Definition set_werewolf_kill (v : option Z) (n : NightActions) : NightActions :=
  mkNightActions v (seer_check n) (witch_save n) (witch_poison n) (hunter_shoot n).

Definition set_seer_check (v : option Z) (n : NightActions) : NightActions :=
  mkNightActions (werewolf_kill n) v (witch_save n) (witch_poison n) (hunter_shoot n).

Definition set_witch_save (v : option Z) (n : NightActions) : NightActions :=
  mkNightActions (werewolf_kill n) (seer_check n) v (witch_poison n) (hunter_shoot n).

Definition set_witch_poison (v : option Z) (n : NightActions) : NightActions :=
  mkNightActions (werewolf_kill n) (seer_check n) (witch_save n) v (hunter_shoot n).

Definition is_alive_role (r : RoleType.t) (p : Player) : bool :=
  alive p && role_is r p.

(** [target = random.choice(candidates); target_id = target.id] *)
Definition random_target (candidates : list Player) : M (option Z) :=
  target <- random_choice candidates ;; ret (Some (id target)).

(** The decision block shared, statement for statement, by the werewolf and
    the seer: ask the AI player inside [try], fall back on a random candidate
    when it answers [None] or raises, and draw at random when there is no AI
    player. *)
Definition decide_or_random (asker : Z)
  (ask : nat -> Z -> list Player -> GameState -> reply (option Z))
  (candidates : list Player) : M (option Z) :=
  e <- get ;;
  if enable_ai_mode e && mem asker (ai_players e)
  then
    try_except
      (target_id <- await (fun n => ask n asker (players e) (game_state e)) ;;
       match target_id with
       | None => random_target candidates
       | Some _ => ret target_id
       end)
      (random_target candidates)
  else random_target candidates.

(** [_process_werewolf_action] *)
Definition _process_werewolf_action (night : NightActions) : M NightActions :=
  e <- get ;;
  match filter (is_alive_role RoleType.WEREWOLF) (players e) with
  | [] => ret night
  | first_wolf :: _ =>
      let potential_targets :=
        filter (fun p => alive p && negb (role_is RoleType.WEREWOLF p)) (players e) in
      match potential_targets with
      | [] => ret night
      | _ :: _ =>
          target_id <- decide_or_random (id first_wolf)
                         (choose_werewolf_target env) potential_targets ;;
          match target_id with
          | Some _ => ret (set_werewolf_kill target_id night)
          | None => ret night
          end
      end
  end.

(** The two results a check can record. *)
Definition seer_says (target : Player) : string :=
  if role_is RoleType.WEREWOLF target then "狼人"%string else "好人"%string.

(** [_process_seer_action] *)
Definition _process_seer_action (night : NightActions) : M NightActions :=
  e <- get ;;
  match filter (is_alive_role RoleType.SEER) (players e) with
  | [] => ret night
  | seer :: _ =>
      let unknown_players :=
        filter (fun p => alive p && negb (id p =? id seer)) (players e) in
      match unknown_players with
      | [] => ret night
      | _ :: _ =>
          target_id <- decide_or_random (id seer)
                         (choose_seer_target env) unknown_players ;;
          match target_id with
          | Some t =>
              match find_player target_id (players e) with
              | Some target =>
                  modify_state (fun g =>
                    set_seer_results
                      (dict_set Z.eqb t (seer_says target) (seer_results g)) g)
              | None => ret tt
              end ;;;
              ret (set_seer_check target_id night)
          | None => ret night
          end
      end
  end.

(** [l.append(x)] where [x] is an [Optional[int]] known to hold an int. *)
Definition append_id (l : list Z) (x : option Z) : list Z :=
  match x with
  | Some z => l ++ [z]
  | None => l
  end.

(** The witch saves: the four assignments of both branches of
    [_process_witch_action]; [night_no] is what [used_antidote_night] gets. *)
Definition witch_uses_antidote (night_no : Z) (night : NightActions) : M NightActions :=
  modify_state (fun g =>
    set_witch_saved (append_id (witch_saved g) (werewolf_kill night)) g) ;;;
  modify (fun e =>
    set_players (update_first (is_alive_role RoleType.WITCH)
                              (use_antidote night_no) (players e)) e) ;;;
  ret (set_witch_save (werewolf_kill night) night).

(** [_process_witch_action] *)
Definition _process_witch_action (night : NightActions) : M NightActions :=
  e <- get ;;
  match filter (is_alive_role RoleType.WITCH) (players e) with
  | [] => ret night
  | witch :: _ =>
      let can_save :=
        has_antidote witch && is_not_None (werewolf_kill night) in
      let can_poison := has_poison witch in
      if enable_ai_mode e && mem (id witch) (ai_players e)
      then
        witch_action <-
          await (fun n => choose_witch_action env n (id witch) (players e)
                            (game_state e) (werewolf_kill night) can_save can_poison) ;;
        if wa_save witch_action && can_save
        then witch_uses_antidote (current_round (game_state e)) night
        else if truthy (wa_poison witch_action) && can_poison
        then
          let target_id := wa_poison witch_action in
          modify_state (fun g =>
            set_witch_poisoned (append_id (witch_poisoned g) target_id) g) ;;;
          modify (fun e =>
            set_players (update_first (is_alive_role RoleType.WITCH)
                           (use_poison (current_round (game_state e))) (players e)) e) ;;;
          ret (set_witch_poison target_id night)
        else ret night
      else
        if (current_round (game_state e) =? 1) && can_save
           && truthy (werewolf_kill night)
        then witch_uses_antidote 1 night
        else ret night
  end.

(** The [deaths] list of [_resolve_night_actions]: both tests are truth
    tests of an [Optional[int]]. *)
Definition night_deaths (night : NightActions) : list Z :=
  (if truthy (werewolf_kill night)
      && negb (opt_eqb (werewolf_kill night) (witch_save night))
   then append_id [] (werewolf_kill night) else [])
  ++ (if truthy (witch_poison night)
      then append_id [] (witch_poison night) else []).

(** [player = next(p for p in self.players if p.id == player_id)] *)
Definition next_player (target : option Z) : M Player :=
  e <- get ;;
  match find_player target (players e) with
  | Some p => ret p
  | None => raise StopIteration
  end.

(** [player.alive = False], on the object [next_player] returned. *)
Definition alive_false (player : Player) : M unit :=
  modify (fun e =>
    set_players (update_first (fun p => id p =? id player) (set_alive false)
                              (players e)) e).

(** [self.game_state.alive_players.remove(player_id)] *)
Definition alive_players_remove (player_id : Z) : M unit :=
  e <- get ;;
  match list_remove player_id (alive_players (game_state e)) with
  | Some l => modify_state (set_alive_players l)
  | None => raise ValueError
  end.

(** [self.game_state.dead_players.append(player_id)] *)
Definition dead_players_append (player_id : Z) : M unit :=
  modify_state (fun g => set_dead_players (dead_players g ++ [player_id]) g).

(** [self.game_state.history.append(ActionRecord(...))], actor 0 being the
    system. *)
Definition history_append (kind : ActionType.t) (target : Z) (label : string) : M unit :=
  modify_state (fun g =>
    set_history
      (history g ++ [mkActionRecord kind 0 (Some target) label (current_round g)]) g).

(** [_resolve_night_actions] *)
Definition _resolve_night_actions (night : NightActions) : M unit :=
  for_each (night_deaths night)
    (fun player_id =>
       player <- next_player (Some player_id) ;;
       alive_false player ;;;
       alive_players_remove player_id ;;;
       dead_players_append player_id ;;;
       history_append ActionType.KILL player_id "夜晚").

(** [_process_night_phase] *)
Definition _process_night_phase : M unit :=
  modify_state (set_phase PhaseType.NIGHT) ;;;
  night <- _process_werewolf_action new_night_actions ;;
  night <- _process_seer_action night ;;
  night <- _process_witch_action night ;;
  modify_state (set_night_actions (Some night)) ;;;
  _resolve_night_actions night.

(** ** game_engine.py: day, vote and the hunter *)

(** [not self.spectator_mode and player_id == self.human_player_id] *)
Definition is_human_turn (e : GameEngine) (player_id : Z) : bool :=
  negb (spectator_mode e) && opt_eqb (Some player_id) (human_player_id e).

(** [player.is_ai and self.enable_ai_mode and player.id in self.ai_players] *)
Definition has_ai_player (e : GameEngine) (player : Player) : bool :=
  is_ai player && enable_ai_mode e && mem (id player) (ai_players e).

(** [_process_day_phase]: speeches are printed, never stored. *)
Definition _process_day_phase : M unit :=
  modify_state (set_phase PhaseType.DAY) ;;;
  e <- get ;;
  for_each (filter alive (players e))
    (fun player =>
       if has_ai_player e player
       then await (fun n => generate_speech env n (id player) (players e) (game_state e))
       else if is_human_turn e (id player)
       then input ;;; ret tt
       else ret tt).

(** The human branch of [_process_hunter_shoot]. Its [try] also covers the
    kill itself, so a ValueError of [remove] is caught like one of [int()]
    and the next line is read. *)
Fixpoint hunter_reads (shootable : list Z) (lines : list (option Z)) : M unit :=
  match lines with
  | [] => modify (set_stdin []) ;;; raise EOFError
  | None :: rest => hunter_reads shootable rest
  | Some target_id :: rest =>
      if mem target_id shootable
      then
        modify (set_stdin rest) ;;;
        target <- next_player (Some target_id) ;;
        alive_false target ;;;
        e <- get ;;
        match list_remove target_id (alive_players (game_state e)) with
        | Some l =>
            modify_state (set_alive_players l) ;;;
            dead_players_append target_id
        | None => hunter_reads shootable rest
        end
      else hunter_reads shootable rest
  end.

(** [_process_hunter_shoot] *)
Definition _process_hunter_shoot (hunter : Player) : M unit :=
  e <- get ;;
  if is_human_turn e (id hunter)
  then hunter_reads (map id (filter alive (players e))) (stdin e)
  else
    target_id <-
      (if enable_ai_mode e && mem (id hunter) (ai_players e)
       then await (fun n => choose_hunter_target env n (id hunter) (players e) (game_state e))
       else random_target (filter alive (players e))) ;;
    target <- next_player target_id ;;
    alive_false target ;;;
    alive_players_remove (id target) ;;;
    dead_players_append (id target).

(** One turn of the voting loop: [votes[voter.id] = target_id]. *)
Definition cast_vote (alive_now : list Player) (votes : list (Z * option Z))
  (voter : Player) : M (list (Z * option Z)) :=
  e <- get ;;
  let others := filter (fun z => negb (z =? id voter)) (map id alive_now) in
  target_id <-
    (if has_ai_player e voter
     then await (fun n => choose_vote_target env n (id voter) (players e) (game_state e))
     else if is_human_turn e (id voter)
     then t <- input_until (fun z => mem z others) ;; ret (Some t)
     else t <- random_choice others ;; ret (Some t)) ;;
  ret (dict_set Z.eqb (id voter) target_id votes).

(** [for voter in alive_players: ...] *)
Fixpoint collect_votes (alive_now voters : list Player) (votes : list (Z * option Z))
  : M (list (Z * option Z)) :=
  match voters with
  | [] => ret votes
  | voter :: rest =>
      votes' <- cast_vote alive_now votes voter ;;
      collect_votes alive_now rest votes'
  end.

(** [for target_id in votes.values():
       vote_counts[target_id] = vote_counts.get(target_id, 0) + 1] *)
Definition count_votes (votes : list (Z * option Z)) : list (option Z * Z) :=
  fold_left (fun vote_counts target_id =>
               dict_set opt_eqb target_id
                 (dict_get opt_eqb target_id 0 vote_counts + 1) vote_counts)
            (map snd votes) [].

(** [max(l)] of a list that is not empty. *)
Definition list_max (first : Z) (rest : list Z) : Z := fold_left Z.max rest first.

(** [[pid for pid, count in vote_counts.items() if count == max_votes]] *)
Definition top_voted (vote_counts : list (option Z * Z)) : list (option Z) :=
  match vote_counts with
  | [] => []
  | (_, c) :: rest =>
      let max_votes := list_max c (map snd rest) in
      map fst (filter (fun pc => snd pc =? max_votes) vote_counts)
  end.

(** [player.role.value], evaluated for printing. *)
Definition role_value (player : Player) : M unit :=
  match role player with
  | Some _ => ret tt
  | None => raise AttributeError
  end.

(** [_process_vote_phase] *)
Definition _process_vote_phase : M unit :=
  modify_state (set_phase PhaseType.VOTE) ;;;
  e <- get ;;
  let alive_now := filter alive (players e) in
  votes <- collect_votes alive_now alive_now [] ;;
  match top_voted (count_votes votes) with
  | [eliminated_id] =>
      player <- next_player eliminated_id ;;
      alive_false player ;;;
      alive_players_remove (id player) ;;;
      dead_players_append (id player) ;;;
      modify_state (set_voted_player eliminated_id) ;;;
      role_value player ;;;
      history_append ActionType.VOTE (id player) "投票" ;;;
      if role_is RoleType.HUNTER player
      then _process_hunter_shoot (set_alive false player)
      else ret tt
  | _ => ret tt
  end.

(** ** game_engine.py: the main loop *)

(** [_display_game_result] prints every [player.role.value]. *)
Definition _display_game_result : M unit :=
  e <- get ;;
  for_each (players e) role_value.

(** [winner = check_winner(players); if winner: store it, break];
    answers whether the loop is left. *)
Definition check_and_store : M bool :=
  e <- get ;;
  match check_winner (game_state e) (players e) with
  | Some w =>
      modify_state (fun g => set_game_over true (set_winner (Some w) g)) ;;;
      ret true
  | None => ret false
  end.

(** The [while not self.game_state.game_over] loop, [fuel] bounding the
    number of rounds; [false] when the fuel ran out before the loop ended. *)
Fixpoint game_rounds (fuel : nat) : M bool :=
  match fuel with
  | O => e <- get ;; ret (game_over (game_state e))
  | S fuel' =>
      e <- get ;;
      if game_over (game_state e) then ret true
      else
        stop <- check_and_store ;;
        if stop then ret true
        else
          _process_night_phase ;;;
          stop <- check_and_store ;;
          if stop then ret true
          else
            _process_day_phase ;;;
            _process_vote_phase ;;;
            modify_state (fun g => set_current_round (current_round g + 1) g) ;;;
            game_rounds fuel'
  end.

(** [run_game_loop]: [None] when the fuel ran out, else the winner returned. *)
Definition run_game_loop (fuel : nat) : M (option (option CampType.t)) :=
  ended <- game_rounds fuel ;;
  if ended
  then _display_game_result ;;;
       e <- get ;; ret (Some (winner (game_state e)))
  else ret None.

End Engine.

(** ** Vocabulary of the properties *)

(** Living werewolves and living players of the other camp, counted
    directly on the player list. *)
Definition alive_werewolves (ps : list Player) : Z :=
  len (filter (fun p => alive p && role_is RoleType.WEREWOLF p) ps).

Definition alive_good (ps : list Player) : Z :=
  len (filter (fun p => alive p && negb (role_is RoleType.WEREWOLF p)) ps).

(** The player registered under an id is alive / is dead. *)
Definition living (e : GameEngine) (z : Z) : Prop :=
  exists p, In p (players e) /\ id p = z /\ alive p = true.

Definition deceased (e : GameEngine) (z : Z) : Prop :=
  exists p, In p (players e) /\ id p = z /\ alive p = false.

(** The registry is well formed: ids are unique, [alive_players] lists the
    ids of the players flagged alive (in registry order) and [dead_players]
    is an arrangement of the ids of the players flagged dead. *)
Definition consistent (e : GameEngine) : Prop :=
  NoDup (map id (players e))
  /\ alive_players (game_state e) = map id (filter alive (players e))
  /\ Permutation (dead_players (game_state e))
                 (map id (filter (fun p => negb (alive p)) (players e))).

(** The alive/dead partition as the specification words it. *)
Definition partitioned (e : GameEngine) : Prop :=
  (forall z, In z (alive_players (game_state e)) ->
             In z (dead_players (game_state e)) -> False)
  /\ (forall z, In z (map id (players e)) <->
                In z (alive_players (game_state e))
                \/ In z (dead_players (game_state e)))
  /\ len (alive_players (game_state e)) + len (dead_players (game_state e))
     = len (players e)
  /\ NoDup (alive_players (game_state e))
  /\ NoDup (dead_players (game_state e))
  /\ (forall p, In p (players e) ->
        (alive p = true <-> In (id p) (alive_players (game_state e)))
        /\ (alive p = false <-> In (id p) (dead_players (game_state e)))).

(** [l] once [z] has been removed from it. *)
Definition without (z : Z) (l : list Z) : list Z :=
  match list_remove z l with
  | Some l' => l'
  | None => l
  end.

(** The registry once the player registered under [z] is flagged dead. *)
Definition flag_dead (z : Z) (ps : list Player) : list Player :=
  update_first (fun p => id p =? z) (set_alive false) ps.

(** The state after the player with id [z] died: flag down, id moved from
    the alive list to the end of the dead list. *)
Definition dies (z : Z) (e : GameEngine) : GameEngine :=
  set_game_state
    (set_dead_players (dead_players (game_state e) ++ [z])
       (set_alive_players (without z (alive_players (game_state e)))
          (game_state e)))
    (set_players (flag_dead z (players e)) e).

(** The record appended for a death of kind [kind]. *)
Definition record_of (kind : ActionType.t) (label : string) (z : Z) (e : GameEngine)
  : ActionRecord :=
  mkActionRecord kind 0 (Some z) label (current_round (game_state e)).

Definition recorded (r : ActionRecord) (e : GameEngine) : GameEngine :=
  set_game_state (set_history (history (game_state e) ++ [r]) (game_state e)) e.

(** Number of records of one kind in a history. *)
Definition count_kind (kind : ActionType.t) (h : list ActionRecord) : nat :=
  List.length (filter (fun r => ActionType.eqb (action_type r) kind) h).

(** One turn of the counting loop of the vote. *)
Definition tally_step (vote_counts : list (option Z * Z)) (target_id : option Z)
  : list (option Z * Z) :=
  dict_set opt_eqb target_id (dict_get opt_eqb target_id 0 vote_counts + 1) vote_counts.

(** Votes received by a target, and what it is to hold the maximum. *)
Definition votes_for (votes : list (Z * option Z)) (t : option Z) : Z :=
  len (filter (opt_eqb t) (map snd votes)).

Definition at_maximum (votes : list (Z * option Z)) (t : option Z) : Prop :=
  0 < votes_for votes t /\ forall t', votes_for votes t' <= votes_for votes t.

(** The voting loop of [_process_vote_phase], run from [e] once the phase
    is set. *)
Definition cast_at (env : Env) (e : GameEngine) : outcome (list (Z * option Z)) :=
  collect_votes env (filter alive (players e)) (filter alive (players e)) []
    (set_game_state (set_phase PhaseType.VOTE (game_state e)) e).

(** The votes were cast without an exception and left the engine in [e']. *)
Definition votes_cast (env : Env) (e : GameEngine)
  (votes : list (Z * option Z)) (e' : GameEngine) : Prop :=
  cast_at env e = Done votes e'.

(** ** Concrete games

    A scripted world: draws count up, [shuffle] leaves the list as it is
    and the AI players answer what the script says. With the unshuffled
    role list the nine players are: 0 seer, 1 witch, 2 hunter, 3-5
    villagers, 6-8 werewolves. *)
Definition scripted (wolf : reply (option Z)) (witch : reply WitchAction)
  (vote : Z -> reply (option Z)) (hunter : reply (option Z)) : Env :=
  mkEnv (fun n => n) (fun _ l => l)
    (fun _ _ _ _ => wolf) (fun _ _ _ _ => Answer None)
    (fun _ _ _ _ _ _ _ => witch)
    (fun _ voter _ _ => vote voter) (fun _ _ _ _ => hunter)
    (fun _ _ _ _ => Answer tt) (fun _ => Answer tt).

Definition no_potion : WitchAction := mkWitchAction false None.

(** A world whose AI players all stay silent. *)
Definition silent : Env :=
  scripted (Answer None) (Answer no_potion) (fun _ => Answer None) (Answer None).

(** Nine players after setup, every one driven by an AI player. *)
Definition ai_table : GameEngine :=
  final (initialize_game silent (new_engine true true [])).

(** Nine players after setup in the simple mode, without AI players. *)
Definition simple_table : GameEngine :=
  final (initialize_game silent (new_engine false true [])).

(** Is the player registered under [z] flagged alive? *)
Definition alive_flag (e : GameEngine) (z : Z) : option bool :=
  option_map alive (find_player (Some z) (players e)).

(** The state after every id of [deaths] died at night, in order, each
    death followed by its record. *)
Definition night_falls (deaths : list Z) (e : GameEngine) : GameEngine :=
  fold_left (fun e z => recorded (record_of ActionType.KILL "夜晚" z e) (dies z e))
            deaths e.

(** A computation keeps the registry well formed, whether it finishes or
    raises. *)
Definition keeps {A : Type} (c : M A) : Prop :=
  forall e, consistent e -> consistent (final (c e)).

(** A state change that leaves the registry and the two id lists alone. *)
Definition harmless (f : GameEngine -> GameEngine) : Prop :=
  forall e, map id (players (f e)) = map id (players e)
            /\ map alive (players (f e)) = map alive (players e)
            /\ alive_players (game_state (f e)) = alive_players (game_state e)
            /\ dead_players (game_state (f e)) = dead_players (game_state e).

(** The states a game passes through, phase by phase, counting the state
    an exception leaves behind. *)
Inductive reachable (env : Env) : GameEngine -> Prop :=
| reach_setup (e0 e : GameEngine) :
    initialize_game env e0 = Done true e -> reachable env e
| reach_night (e : GameEngine) :
    reachable env e -> reachable env (final (_process_night_phase env e))
| reach_resolve (night : NightActions) (e : GameEngine) :
    reachable env e -> reachable env (final (_resolve_night_actions night e))
| reach_day (e : GameEngine) :
    reachable env e -> reachable env (final (_process_day_phase env e))
| reach_vote (e : GameEngine) :
    reachable env e -> reachable env (final (_process_vote_phase env e))
| reach_hunter (hunter : Player) (e : GameEngine) :
    reachable env e -> reachable env (final (_process_hunter_shoot env hunter e))
| reach_check (e : GameEngine) :
    reachable env e -> reachable env (final (check_and_store e))
| reach_rounds (fuel : nat) (e : GameEngine) :
    reachable env e -> reachable env (final (game_rounds env fuel e))
| reach_loop (fuel : nat) (e : GameEngine) :
    reachable env e -> reachable env (final (run_game_loop env fuel e)).

(** A night script: the werewolves' AI player names [kill]; the witch's
    answers no save and the poison target [poison]. *)
Definition poison_script (kill poison : Z) : Env :=
  scripted (Answer (Some kill)) (Answer (mkWitchAction false (Some poison)))
           (fun _ => Answer None) (Answer None).

(** Night actions with a kill, a save and a poison and nothing else. *)
Definition night_of (kill save poison : option Z) : NightActions :=
  mkNightActions kill None save poison None.

(** A computation that, when it finishes, has left the registry and the
    game state alone (it may have moved the clock and read the console). *)
Definition quiet {A : Type} (c : M A) : Prop :=
  forall e a e', c e = Done a e' ->
                 players e' = players e /\ game_state e' = game_state e.

(** The state after player [h] was voted out: dead, remembered as
    [voted_player], and recorded. *)
Definition voted_out (h : Z) (e : GameEngine) : GameEngine :=
  let e' := set_game_state
              (set_voted_player (Some h) (game_state (dies h e))) (dies h e) in
  recorded (record_of ActionType.VOTE "投票" h e') e'.

(** The hunter, asked in state [e], names [t] and leaves the state [e']:
    a human hunter through the first console line naming a living player,
    any other through the AI player or the random draw. *)
Definition hunter_picks (env : Env) (hunter : Player) (e : GameEngine)
  (t : Z) (e' : GameEngine) : Prop :=
  if is_human_turn e (id hunter)
  then exists rest,
         first_valid (fun z => mem z (map id (filter alive (players e)))) (stdin e)
         = (Some t, rest)
         /\ e' = set_stdin rest e
  else (if enable_ai_mode e && mem (id hunter) (ai_players e)
        then await (fun n => choose_hunter_target env n (id hunter)
                               (players e) (game_state e))
        else random_target env (filter alive (players e))) e
       = Done (Some t) e'.

(** Scenario C: a 3-3-3 tie between players 2, 4 and 6. *)
Definition tie_script : Env :=
  scripted (Answer None) (Answer no_potion)
    (fun voter => Answer (Some (if mem voter [0; 1; 3] then 2
                                else if mem voter [2; 5; 6] then 4 else 6)))
    (Answer None).

Definition tie_votes : list (Z * option Z) :=
  [(0, Some 2); (1, Some 2); (2, Some 4); (3, Some 2); (4, Some 6);
   (5, Some 4); (6, Some 4); (7, Some 6); (8, Some 6)].

(** Scenario D: everybody votes for the hunter (player 2), who votes for 6
    and, once out, names player 7. *)
Definition hunter_script : Env :=
  scripted (Answer None) (Answer no_potion)
    (fun voter => Answer (Some (if voter =? 2 then 6 else 2)))
    (Answer (Some 7)).

Definition hunter_votes : list (Z * option Z) :=
  [(0, Some 2); (1, Some 2); (2, Some 6); (3, Some 2); (4, Some 2);
   (5, Some 2); (6, Some 2); (7, Some 2); (8, Some 2)].

(** The hunter of the nine-player table. *)
Definition the_hunter : Player :=
  mkPlayer 2 (Some RoleType.HUNTER) true true true true None None.

(** A villager voted out: everybody votes for 3, who votes for 6. *)
Definition villager_script : Env :=
  scripted (Answer None) (Answer no_potion)
    (fun voter => Answer (Some (if voter =? 3 then 6 else 3)))
    (Answer None).

Definition villager_votes : list (Z * option Z) :=
  [(0, Some 3); (1, Some 3); (2, Some 3); (3, Some 6); (4, Some 3);
   (5, Some 3); (6, Some 3); (7, Some 3); (8, Some 3)].

(** An engine about to be set up for [n] players (the constructor always
    says 9), in spectator mode and without AI players. *)
Definition engine_for (n : Z) : GameEngine :=
  mkGameEngine false true [] new_game_state [] n None 0 [].

(** [n] fresh AI-driven players, as [create_players] builds them in
    spectator mode. *)
Definition fresh_players (n : nat) : list Player :=
  map (fun i => new_player (Z.of_nat i) true) (seq 0 n).

(** A world in which the AI players fail when asked to vote; the werewolves'
    AI player names player 5. *)
Definition failing_voters : Env :=
  scripted (Answer (Some 5)) (Answer no_potion) (fun _ => Fails) (Answer None).

(** A world in which the witch's AI player fails. *)
Definition failing_witch : Env :=
  scripted (Answer (Some 5)) Fails (fun _ => Answer None) (Answer None).

(** A world in which everybody votes for the hunter and the hunter's AI
    player fails. *)
Definition failing_hunter : Env :=
  scripted (Answer None) (Answer no_potion)
    (fun voter => Answer (Some (if voter =? 2 then 6 else 2))) Fails.

(** A world in which the AI players of the werewolves and of the seer
    fail. *)
Definition failing_night : Env :=
  mkEnv (fun n => n) (fun _ l => l)
    (fun _ _ _ _ => Fails) (fun _ _ _ _ => Fails)
    (fun _ _ _ _ _ _ _ => Answer no_potion)
    (fun _ _ _ _ => Answer None) (fun _ _ _ _ => Answer None)
    (fun _ _ _ _ => Answer tt) (fun _ => Answer tt).

(** What the decision block of the werewolves and of the seer may answer
    in state [e]: the AI player's own non-null answer, else a candidate. *)
Definition fallback_answer (e : GameEngine) (asker : Z)
  (ask : nat -> Z -> list Player -> GameState -> reply (option Z))
  (candidates : list Player) (t : Z) : Prop :=
  if enable_ai_mode e && mem asker (ai_players e)
  then match ask (clock e) asker (players e) (game_state e) with
       | Answer (Some x) => t = x
       | Answer None | Fails => In t (map id candidates)
       end
  else In t (map id candidates).

(** The legal candidates of the two decisions. *)
Definition kill_candidates (e : GameEngine) : list Player :=
  filter (fun p => alive p && negb (role_is RoleType.WEREWOLF p)) (players e).

Definition check_candidates (e : GameEngine) (seer : Player) : list Player :=
  filter (fun p => alive p && negb (id p =? id seer)) (players e).

(** [[p for p in players if p.alive and p.role == r][0]], when there is one. *)
Definition first_alive (r : RoleType.t) (e : GameEngine) : option Player :=
  hd_error (filter (is_alive_role r) (players e)).

(** A world whose werewolf AI player names an id nobody carries. *)
Definition stray_kill : Env :=
  scripted (Answer (Some 99)) (Answer no_potion) (fun _ => Answer None) (Answer None).

(** A computation that never moves a player between the living and the
    dead: ids, alive flags and the two id lists are, in the state it leaves
    (finished or not), what they were. *)
Definition gentle {A : Type} (c : M A) : Prop :=
  forall e, map id (players (final (c e))) = map id (players e)
            /\ map alive (players (final (c e))) = map alive (players e)
            /\ alive_players (game_state (final (c e))) = alive_players (game_state e)
            /\ dead_players (game_state (final (c e))) = dead_players (game_state e).

(** A computation that keeps the registry well formed and the alive flag of
    the player registered under [z] as it was. *)
Definition spares {A : Type} (z : Z) (c : M A) : Prop :=
  forall e, consistent e ->
            consistent (final (c e))
            /\ alive_flag (final (c e)) z = alive_flag e z.

(** ** models.py: the remaining methods *)

(** [GameState.get_alive_players]: [[p for p in self.alive_players if p]],
    a truth test on each id. *)
Definition get_alive_players (g : GameState) : list Z :=
  filter (fun p => negb (p =? 0)) (alive_players g).

(** [GameState.is_player_alive] *)
Definition is_player_alive (g : GameState) (player_id : Z) : bool :=
  mem player_id (alive_players g).

(** [Player.camp] *)
Definition camp (p : Player) : string :=
  match role p with
  | None => "未知"
  | Some RoleType.WEREWOLF => "狼人阵营"
  | Some _ => "好人阵营"
  end.

(** [PhaseType.value] *)
Definition phase_value (p : PhaseType.t) : string :=
  match p with
  | PhaseType.NIGHT => "黑夜"
  | PhaseType.DAY => "白天"
  | PhaseType.VOTE => "投票"
  end.

(** [CampType.value] *)
Definition camp_value (c : CampType.t) : string :=
  match c with
  | CampType.WEREWOLF => "狼人阵营"
  | CampType.VILLAGER => "好人阵营"
  end.

(** ** role_assigner.py: show_role_distribution *)

(** The counting loop shared by [RoleAssigner.show_role_distribution] and
    [GameStateManager.get_role_distribution]: players without a role are
    skipped, a role met for the first time enters the dict at the end. *)
Definition count_role (role_count : list (RoleType.t * Z)) (player : Player)
  : list (RoleType.t * Z) :=
  match role player with
  | Some r => dict_set RoleType.eqb r (dict_get RoleType.eqb r 0 role_count + 1) role_count
  | None => role_count
  end.

(** [RoleAssigner.show_role_distribution(players)], the dict it returns. *)
Definition show_role_distribution (players : list Player) : list (RoleType.t * Z) :=
  fold_left count_role players [].

(** ** game_engine.py: get_game_status *)

Record GameStatus : Type := mkGameStatus {
  status_current_round : Z;
  status_phase : string;
  status_alive_players : Z;
  status_werewolves_alive : Z;
  status_game_over : bool;
  status_winner : option string
}.

(** [GameEngine.get_game_status] *)
Definition get_game_status (e : GameEngine) : GameStatus :=
  mkGameStatus
    (current_round (game_state e))
    (phase_value (phase (game_state e)))
    (len (filter alive (players e)))
    (len (filter (fun p => alive p && role_is RoleType.WEREWOLF p) (players e)))
    (game_over (game_state e))
    (option_map camp_value (winner (game_state e))).

(** ** game_state_manager.py *)

Module GameStateManager.

Record t : Type := mk {
  players : list Player;
  game_state : GameState;
  night_actions : NightActions
}.

(** [GameStateManager()] *)
Definition new : t := mk [] new_game_state new_night_actions.

Definition set_game_state (g : GameState) (m : t) : t :=
  mk (players m) g (night_actions m).

(** [reset_game_state] *)
Definition reset_game_state (m : t) : t :=
  mk (players m)
     (set_phase PhaseType.NIGHT
        (set_alive_players (map id (players m)) new_game_state))
     new_night_actions.

(** [count_roles] *)
Definition count_roles (m : t) (role_type : RoleType.t) : Z :=
  len (filter (role_is role_type) (players m)).

(** [get_alive_players] *)
Definition get_alive_players (m : t) : list Player :=
  filter alive (players m).

(** [get_alive_werewolves] *)
Definition get_alive_werewolves (m : t) : list Player :=
  filter (fun p => alive p && role_is RoleType.WEREWOLF p) (players m).

(** [get_role_distribution] *)
Definition get_role_distribution (m : t) : list (RoleType.t * Z) :=
  fold_left count_role (players m) [].

(** [check_victory_conditions] *)
Definition check_victory_conditions (m : t) : option CampType.t :=
  let alive_werewolves := get_alive_werewolves m in
  if len alive_werewolves =? 0 then Some CampType.VILLAGER
  else
    let alive_players := get_alive_players m in
    let alive_good_count :=
      len (filter (fun p => negb (role_is RoleType.WEREWOLF p)) alive_players) in
    if alive_good_count <=? len alive_werewolves then Some CampType.WEREWOLF
    else None.

(** [death_cause in ["werewolf", "vote", "poison"]] *)
Definition is_kill_cause (death_cause : string) : bool :=
  String.eqb death_cause "werewolf" || String.eqb death_cause "vote"
  || String.eqb death_cause "poison".

(** [process_player_death] *)
Definition process_player_death (player_id : Z) (death_cause : string) (m : t) : t :=
  match find_player (Some player_id) (players m) with
  | Some player =>
      if alive player
      then
        let g := game_state m in
        let alive_left :=
          if mem player_id (alive_players g)
          then without player_id (alive_players g)
          else alive_players g in
        let action_type :=
          if is_kill_cause death_cause then ActionType.KILL else ActionType.SAVE in
        mk (flag_dead player_id (players m))
           (set_history
              (history g ++ [mkActionRecord action_type 0 (Some player_id)
                               (phase_value (phase g)) (current_round g)])
              (set_dead_players (dead_players g ++ [player_id])
                 (set_alive_players alive_left g)))
           (night_actions m)
      else m
  | None => m
  end.

(** [record_action] *)
Definition record_action (action_type : ActionType.t) (player_id : Z)
  (target_id : option Z) (m : t) : t :=
  let g := game_state m in
  set_game_state
    (set_history
       (history g ++ [mkActionRecord action_type player_id target_id
                        (phase_value (phase g)) (current_round g)]) g) m.

(** [x in l] for an [Optional[int]] looked up in a list of ints. *)
Definition opt_mem (x : option Z) (l : list Z) : bool :=
  match x with
  | Some z => mem z l
  | None => false
  end.

(** [validate_player_action], its result read as a truth value. *)
Definition validate_player_action (m : t) (player_id : Z) (action_type : string)
  (target_id : option Z) : bool :=
  match find_player (Some player_id) (players m) with
  | None => false
  | Some player =>
      if negb (alive player) then false
      else
        let target := find_player target_id (players m) in
        let target_alive :=
          match target with Some t => alive t | None => false end in
        match phase (game_state m) with
        | PhaseType.NIGHT =>
            if role_is RoleType.WEREWOLF player && String.eqb action_type "kill"
            then match target with
                 | Some t => alive t && negb (role_is RoleType.WEREWOLF t)
                 | None => false
                 end
            else if role_is RoleType.SEER player && String.eqb action_type "check"
            then match target with
                 | Some t => alive t && negb (id t =? player_id)
                 | None => false
                 end
            else if role_is RoleType.WITCH player
                    && (String.eqb action_type "save"
                        || String.eqb action_type "poison")
            then
              if String.eqb action_type "save"
              then opt_eqb target_id (werewolf_kill (night_actions m))
                   && negb (opt_mem target_id (witch_saved (game_state m)))
              else target_alive
            else false
        | PhaseType.VOTE =>
            if String.eqb action_type "vote"
            then match target with
                 | Some t => alive t && negb (id t =? player_id)
                 | None => false
                 end
            else false
        | PhaseType.DAY => false
        end
  end.

(** [list(PhaseType)] and [list(PhaseType).index(phase)] *)
Definition phases : list PhaseType.t :=
  [PhaseType.NIGHT; PhaseType.DAY; PhaseType.VOTE].

Definition phase_index (p : PhaseType.t) : nat :=
  match p with
  | PhaseType.NIGHT => 0
  | PhaseType.DAY => 1
  | PhaseType.VOTE => 2
  end.

(** [get_next_phase]: the phase it returns and the manager it leaves. *)
Definition get_next_phase (m : t) : PhaseType.t * t :=
  let current_phase_index := phase_index (phase (game_state m)) in
  let next_phase_index := Nat.modulo (current_phase_index + 1) (List.length phases) in
  match phase (game_state m) with
  | PhaseType.VOTE =>
      (PhaseType.NIGHT,
       set_game_state
         (set_current_round (current_round (game_state m) + 1) (game_state m)) m)
  | _ => (nth next_phase_index phases PhaseType.NIGHT, m)
  end.

(** [advance_phase] *)
Definition advance_phase (m : t) : PhaseType.t * t :=
  let (next_phase, m1) := get_next_phase m in
  let m2 := set_game_state (set_phase next_phase (game_state m1)) m1 in
  (next_phase,
   match next_phase with
   | PhaseType.NIGHT => mk (players m2) (game_state m2) new_night_actions
   | _ => m2
   end).

(** [end_game] *)
Definition end_game (winner : CampType.t) (m : t) : t :=
  set_game_state (set_winner (Some winner) (set_game_over true (game_state m))) m.

End GameStateManager.

(** The registry of a manager seen as the engine sees its own. *)
Definition registry (m : GameStateManager.t) : GameEngine :=
  mkGameEngine false false (GameStateManager.players m)
    (GameStateManager.game_state m) [] 9 None 0 [].

(** A manager holding the nine players after setup. *)
Definition manager_table : GameStateManager.t :=
  GameStateManager.mk (players ai_table) (game_state ai_table) new_night_actions.

(** ** Relations between the state before and after a computation *)

(** A computation relates every state it starts from to the state it
    leaves, finished or not. *)
Definition steady (R : GameEngine -> GameEngine -> Prop) {A : Type} (c : M A) : Prop :=
  forall e, R e (final (c e)).

(** One player at two moments of a game: identity, role and controller are
    the same; a dead player is not alive again; a potion that is gone is not
    back; the round of use of a potion changes only when the potion goes. *)
Definition ages (p p' : Player) : Prop :=
  id p' = id p /\ role p' = role p /\ is_ai p' = is_ai p
  /\ (alive p' = true -> alive p = true)
  /\ (has_antidote p' = true -> has_antidote p = true)
  /\ (has_poison p' = true -> has_poison p = true)
  /\ (has_antidote p' = has_antidote p ->
      used_antidote_night p' = used_antidote_night p)
  /\ (has_poison p' = has_poison p ->
      used_poison_night p' = used_poison_night p).

(** The records [tail] were stamped with rounds between [lo] and [hi]. *)
Definition stamped (lo hi : Z) (tail : list ActionRecord) : Prop :=
  Forall (fun r => lo <= round r <= hi) tail.

(** The state [e'] is a later state of the game in [e]. *)
Definition evolves (e e' : GameEngine) : Prop :=
  Forall2 ages (players e) (players e')
  /\ (exists tail,
        history (game_state e') = history (game_state e) ++ tail
        /\ stamped (current_round (game_state e)) (current_round (game_state e')) tail)
  /\ (exists tail,
        dead_players (game_state e') = dead_players (game_state e) ++ tail)
  /\ (forall z, In z (alive_players (game_state e')) ->
                In z (alive_players (game_state e)))
  /\ current_round (game_state e) <= current_round (game_state e')
  /\ (forall k, In k (map fst (seer_results (game_state e))) ->
                In k (map fst (seer_results (game_state e'))))
  /\ (exists tail, witch_saved (game_state e') = witch_saved (game_state e) ++ tail)
  /\ (exists tail,
        witch_poisoned (game_state e') = witch_poisoned (game_state e) ++ tail)
  /\ enable_ai_mode e' = enable_ai_mode e
  /\ spectator_mode e' = spectator_mode e
  /\ human_player_id e' = human_player_id e
  /\ ai_players e' = ai_players e.

(** [e'] is reached from [e] by playing: any sequence of night phases, day
    phases, vote phases and runs of the main loop, each taken with the state
    it leaves, finished or not. *)
Inductive later (env : Env) (e : GameEngine) : GameEngine -> Prop :=
| later_now : later env e e
| later_night (e' : GameEngine) :
    later env e e' -> later env e (final (_process_night_phase env e'))
| later_day (e' : GameEngine) :
    later env e e' -> later env e (final (_process_day_phase env e'))
| later_vote (e' : GameEngine) :
    later env e e' -> later env e (final (_process_vote_phase env e'))
| later_loop (fuel : nat) (e' : GameEngine) :
    later env e e' -> later env e (final (run_game_loop env fuel e')).

(** Between [e] and [e'] the engine only drew, asked or read: the registry
    and the game state are the same; the clock moved on and console lines
    were consumed from the front. *)
Definition talked (e e' : GameEngine) : Prop :=
  players e' = players e
  /\ game_state e' = game_state e
  /\ ai_players e' = ai_players e
  /\ enable_ai_mode e' = enable_ai_mode e
  /\ spectator_mode e' = spectator_mode e
  /\ human_player_id e' = human_player_id e
  /\ (clock e <= clock e')%nat
  /\ exists read, stdin e = read ++ stdin e'.

(** The verdict of the game is the same in [e'] as in [e]. *)
Definition same_verdict (e e' : GameEngine) : Prop :=
  game_over (game_state e') = game_over (game_state e)
  /\ winner (game_state e') = winner (game_state e).

(** A finished game has its winner stored. *)
Definition decided (e : GameEngine) : Prop :=
  game_over (game_state e) = true -> exists c, winner (game_state e) = Some c.

(** A field of the player registered under [z], such as a potion. *)
Definition potion {A : Type} (f : Player -> A) (e : GameEngine) (z : Z) : option A :=
  option_map f (find_player (Some z) (players e)).

(** ** Exceptions *)

(** A computation raises nothing outside of [S]. *)
Definition throws {A : Type} (S : Exn -> Prop) (c : M A) : Prop :=
  forall e x e', c e = Raised x e' -> S x.


(** What may leave a day: a failing speech, the end of the console. *)
Definition day_errors (x : Exn) : Prop :=
  x = ActorError \/ x = EOFError.

(** ** main.py *)

(** What [WerewolfGame.start] prints last. *)
Inductive Closing : Type :=
| InitFailed                      (* 游戏初始化失败 *)
| WinnerShown (c : CampType.t)    (* 狼人阵营获胜 / 好人阵营获胜 *)
| DrawShown                       (* 游戏平局 *)
| ErrorShown.                     (* 游戏运行出错 *)

(** [WerewolfGame._show_game_end_message(winner)] *)
Definition _show_game_end_message (winner : option CampType.t) : Closing :=
  match winner with
  | Some c => WinnerShown c
  | None => DrawShown
  end.

(** [WerewolfGame.start] on the engine of the game, the loop being given
    [fuel] rounds: what was printed last, [None] when the rounds ran out.
    ([game_active] is raised before the loop and lowered on every path
    that returns; it is not kept here.) *)
Definition start (env : Env) (fuel : nat) : M (option Closing) :=
  try_except
    (ok <- initialize_game env ;;
     if negb ok then ret (Some InitFailed)
     else
       r <- run_game_loop env fuel ;;
       match r with
       | Some winner => ret (Some (_show_game_end_message winner))
       | None => ret None
       end)
    (ret (Some ErrorShown)).

(** The keys of [self.ai_players] once [_initialize_ai_players] has gone
    through [ps], starting from [keys]. *)
Definition ai_keys (ps : list Player) (keys : list Z) : list Z :=
  fold_left (fun keys p => if is_ai p then keys_add (id p) keys else keys) ps keys.

(** A player as setup leaves it: alive, with both potions unused, and with
    a role. *)
Definition ready (p : Player) : Prop :=
  alive p = true /\ role p <> None
  /\ has_antidote p = true /\ has_poison p = true
  /\ used_antidote_night p = None /\ used_poison_night p = None.

(** The table is the same in [e'] as in [e]: the players, the modes, the
    AI players and the seat of the human. *)
Definition same_table (e e' : GameEngine) : Prop :=
  players e' = players e
  /\ enable_ai_mode e' = enable_ai_mode e
  /\ spectator_mode e' = spectator_mode e
  /\ ai_players e' = ai_players e
  /\ human_player_id e' = human_player_id e.

(** The ballots name living players other than the voter, and the voters
    are among [voters]. *)
Definition legal_ballots (ids voters : list Z) (votes : list (Z * option Z)) : Prop :=
  forall v t, In (v, t) votes ->
              In v voters /\ exists z, t = Some z /\ In z ids /\ z <> v.

(** The ballots of a voting loop that finished. *)
Definition ballots (o : outcome (list (Z * option Z))) : list (Z * option Z) :=
  match o with
  | Done votes _ => votes
  | Raised _ _ => []
  end.


(** * Properties *)

(** ** Basic facts *)

Lemma RoleType_eqb_eq (a b : RoleType.t) : RoleType.eqb a b = true <-> a = b.
Proof. destruct a, b; simpl; split; intro H; try reflexivity; discriminate H. Qed.

Lemma opt_eqb_eq (a b : option Z) : opt_eqb a b = true <-> a = b.
Proof.
  destruct a as [x|], b as [y|]; simpl; split; intro H;
    try reflexivity; try discriminate H.
  - apply Z.eqb_eq in H. now subst.
  - injection H as ->. apply Z.eqb_refl.
Qed.

Lemma opt_eqb_refl (a : option Z) : opt_eqb a a = true.
Proof. now apply opt_eqb_eq. Qed.

Lemma opt_eqb_sym (a b : option Z) : opt_eqb a b = opt_eqb b a.
Proof.
  destruct (opt_eqb a b) eqn:E.
  - apply opt_eqb_eq in E. subst. symmetry. apply opt_eqb_refl.
  - destruct (opt_eqb b a) eqn:E'; [|reflexivity].
    apply opt_eqb_eq in E'. subst. now rewrite opt_eqb_refl in E.
Qed.

Lemma mem_In (x : Z) (l : list Z) : mem x l = true <-> In x l.
Proof.
  unfold mem. rewrite existsb_exists. split.
  - intros [y [Hy E]]. apply Z.eqb_eq in E. now subst.
  - intro H. exists x. split; [assumption | apply Z.eqb_refl].
Qed.

Lemma len_app {A : Type} (l l' : list A) : len (l ++ l') = len l + len l'.
Proof. unfold len. rewrite length_app. lia. Qed.

Lemma len_nonneg {A : Type} (l : list A) : 0 <= len l.
Proof. unfold len. lia. Qed.

Lemma filter_filter {A : Type} (f g : A -> bool) (l : list A) :
  filter f (filter g l) = filter (fun x => g x && f x) l.
Proof.
  induction l as [|x l IH]; simpl; [reflexivity|].
  destruct (g x); simpl; [destruct (f x)|]; now rewrite IH.
Qed.

Lemma filter_split_len {A : Type} (f : A -> bool) (l : list A) :
  len (filter f l) + len (filter (fun x => negb (f x)) l) = len l.
Proof.
  unfold len. induction l as [|x l IH]; [reflexivity|].
  cbn [filter]. destruct (f x); cbn [negb List.length];
    rewrite !Nat2Z.inj_succ; lia.
Qed.

(** ** The win evaluator *)

Lemma code_werewolf_count (ps : list Player) :
  len (filter (role_is RoleType.WEREWOLF) (filter alive ps)) = alive_werewolves ps.
Proof. unfold alive_werewolves. now rewrite filter_filter. Qed.

Lemma alive_split (ps : list Player) :
  len (filter alive ps) = alive_werewolves ps + alive_good ps.
Proof.
  unfold alive_werewolves, alive_good.
  rewrite <- (filter_split_len (role_is RoleType.WEREWOLF) (filter alive ps)).
  now rewrite !filter_filter.
Qed.

Lemma check_winner_by_counts (g : GameState) (ps : list Player) :
  winner g = None ->
  check_winner g ps =
    if alive_werewolves ps =? 0 then Some CampType.VILLAGER
    else if alive_good ps <=? alive_werewolves ps then Some CampType.WEREWOLF
    else None.
Proof.
  intro Hw. unfold check_winner. rewrite Hw, code_werewolf_count, alive_split.
  destruct (alive_werewolves ps =? 0); [reflexivity|].
  now replace (alive_werewolves ps + alive_good ps - alive_werewolves ps)
    with (alive_good ps) by lia.
Qed.

Lemma stored_winner_fixed (g : GameState) (w : CampType.t) :
  winner g = Some w ->
  set_game_over true (set_winner (Some w) g) = set_game_over true g.
Proof. intro H. destruct g; simpl in *. now subst. Qed.

(** C8. The win evaluator depends on the living-role counts only: with no
    winner stored it returns the Villager camp when no werewolf lives, the
    Werewolf camp when at least one werewolf lives and the living
    non-werewolves are no more than the living werewolves, and no winner
    otherwise. Once a winner is stored every later evaluation returns it, on
    any player list, and storing it again leaves the state as it is. *)
Theorem C8_check_winner_evaluator (g : GameState) (ps : list Player) :
  (winner g = None ->
   (alive_werewolves ps = 0 -> check_winner g ps = Some CampType.VILLAGER)
   /\ (0 < alive_werewolves ps -> alive_good ps <= alive_werewolves ps ->
       check_winner g ps = Some CampType.WEREWOLF)
   /\ (0 < alive_werewolves ps -> alive_werewolves ps < alive_good ps ->
       check_winner g ps = None)
   /\ (forall ps', alive_werewolves ps' = alive_werewolves ps ->
                   alive_good ps' = alive_good ps ->
                   check_winner g ps' = check_winner g ps))
  /\ (forall w, winner g = Some w -> forall ps', check_winner g ps' = Some w)
  /\ (forall w, check_winner g ps = Some w ->
      forall ps', check_winner (set_winner (Some w) g) ps' = Some w)
  /\ (forall e w, game_state e = g -> winner g = Some w -> game_over g = true ->
      check_and_store e = Done true e).
Proof.
  split; [intro Hw; repeat split|repeat split].
  - intro H0. rewrite check_winner_by_counts by assumption.
    now rewrite H0.
  - intros Hpos Hle. rewrite check_winner_by_counts by assumption.
    destruct (Z.eqb_spec (alive_werewolves ps) 0); [lia|].
    destruct (Z.leb_spec (alive_good ps) (alive_werewolves ps)); [reflexivity|lia].
  - intros Hpos Hlt. rewrite check_winner_by_counts by assumption.
    destruct (Z.eqb_spec (alive_werewolves ps) 0); [lia|].
    destruct (Z.leb_spec (alive_good ps) (alive_werewolves ps)); [lia|reflexivity].
  - intros ps' Hwolf Hgood. rewrite !check_winner_by_counts by assumption.
    now rewrite Hwolf, Hgood.
  - intros w Hw ps'. unfold check_winner. now rewrite Hw.
  - intros e w He Hw Hover. unfold check_and_store, bind, get.
    unfold check_winner. rewrite He, Hw. unfold modify_state, modify, ret.
    f_equal. rewrite He, stored_winner_fixed by assumption.
    destruct e as [a s ps0 g0 c n h k i]; simpl in *.
    unfold set_game_state; simpl. f_equal. subst g0.
    destruct g; simpl in *. now subst.
Qed.

(** ** Looking players up and flagging them dead *)

Lemma set_alive_same (p : Player) (b : bool) : alive p = b -> set_alive b p = p.
Proof. intros <-. now destruct p. Qed.

Lemma set_players_same (e : GameEngine) : set_players (players e) e = e.
Proof. now destruct e. Qed.

Lemma find_player_Some (z : Z) (ps : list Player) (p : Player) :
  find_player (Some z) ps = Some p -> In p ps /\ id p = z.
Proof.
  unfold find_player. intro H. apply find_some in H as [Hin E].
  simpl in E. apply Z.eqb_eq in E. now split.
Qed.

Lemma find_player_None_target (ps : list Player) : find_player None ps = None.
Proof. unfold find_player. induction ps as [|q ps IH]; simpl; auto. Qed.

Lemma find_player_None (z : Z) (ps : list Player) :
  find_player (Some z) ps = None <-> ~ In z (map id ps).
Proof.
  unfold find_player. induction ps as [|q ps IH]; simpl.
  - split; auto.
  - destruct (Z.eqb_spec (id q) z) as [E|E].
    + split; [discriminate | intro H; exfalso; apply H; now left].
    + rewrite IH. split; intro H; [intros [H'|H']; auto | auto].
Qed.

Lemma find_player_registered (z : Z) (ps : list Player) :
  In z (map id ps) -> exists p, find_player (Some z) ps = Some p.
Proof.
  intro H. destruct (find_player (Some z) ps) as [p|] eqn:E; [eauto|].
  now apply find_player_None in E.
Qed.

Lemma find_player_unique (z : Z) (ps : list Player) (p q : Player) :
  NoDup (map id ps) -> find_player (Some z) ps = Some p ->
  In q ps -> id q = z -> q = p.
Proof.
  unfold find_player. induction ps as [|r ps IH]; simpl; [discriminate|].
  intros Hnd Hf Hin Hq. inversion Hnd as [|x l Hnot Hnd']; subst x l.
  destruct (Z.eqb_spec (id r) z) as [E|E].
  - injection Hf as <-. destruct Hin as [->|Hin]; [reflexivity|].
    exfalso. apply Hnot. rewrite E, <- Hq. now apply in_map.
  - destruct Hin as [->|Hin]; [contradiction|]. now apply IH.
Qed.

Lemma flag_dead_ids (z : Z) (ps : list Player) : map id (flag_dead z ps) = map id ps.
Proof.
  unfold flag_dead. induction ps as [|q ps IH]; simpl; [reflexivity|].
  destruct (id q =? z); simpl; [reflexivity | now rewrite IH].
Qed.

Lemma flag_dead_length (z : Z) (ps : list Player) :
  List.length (flag_dead z ps) = List.length ps.
Proof. rewrite <- (length_map id), flag_dead_ids. apply length_map. Qed.

Lemma flag_dead_already (z : Z) (ps : list Player) (p : Player) :
  find_player (Some z) ps = Some p -> alive p = false -> flag_dead z ps = ps.
Proof.
  unfold find_player, flag_dead. induction ps as [|q ps IH]; simpl; [reflexivity|].
  destruct (id q =? z).
  - intros [= <-] Ha. now rewrite set_alive_same.
  - intros Hf Ha. now rewrite IH.
Qed.

Lemma flag_dead_alive_ids (z : Z) (ps : list Player) (p : Player) :
  find_player (Some z) ps = Some p -> alive p = true ->
  list_remove z (map id (filter alive ps))
  = Some (map id (filter alive (flag_dead z ps))).
Proof.
  unfold find_player, flag_dead. induction ps as [|q ps IH]; simpl; [discriminate|].
  destruct (Z.eqb_spec (id q) z) as [E|E].
  - intros [= <-] Ha. simpl. rewrite Ha. simpl.
    destruct (Z.eqb_spec (id q) z); [reflexivity | contradiction].
  - intros Hf Ha. simpl. destruct (alive q); simpl.
    + destruct (Z.eqb_spec (id q) z); [contradiction|]. now rewrite (IH Hf Ha).
    + now apply IH.
Qed.

Lemma flag_dead_dead_ids (z : Z) (ps : list Player) (p : Player) :
  find_player (Some z) ps = Some p -> alive p = true ->
  Permutation (z :: map id (filter (fun q => negb (alive q)) ps))
              (map id (filter (fun q => negb (alive q)) (flag_dead z ps))).
Proof.
  unfold find_player, flag_dead. induction ps as [|q ps IH]; simpl; [discriminate|].
  destruct (Z.eqb_spec (id q) z) as [E|E].
  - intros [= <-] Ha. simpl. rewrite Ha. simpl. now rewrite E.
  - intros Hf Ha. simpl. destruct (alive q); simpl.
    + now apply IH.
    + etransitivity; [apply perm_swap|]. apply perm_skip. now apply IH.
Qed.

Lemma list_remove_absent (z : Z) (l : list Z) : ~ In z l -> list_remove z l = None.
Proof.
  induction l as [|y l IH]; simpl; [reflexivity|]. intro H.
  destruct (Z.eqb_spec y z) as [E|E]; [exfalso; apply H; now left|].
  rewrite IH; [reflexivity|]. intro H'. apply H. now right.
Qed.

Lemma list_remove_present (z : Z) (l : list Z) :
  In z l -> exists l', list_remove z l = Some l'.
Proof.
  induction l as [|y l IH]; simpl; [contradiction|]. intro H.
  destruct (Z.eqb_spec y z) as [E|E]; [eauto|].
  destruct H as [H|H]; [contradiction|]. destruct (IH H) as [l' ->]. eauto.
Qed.

Lemma not_alive_when_found_dead (z : Z) (ps : list Player) (p : Player) :
  NoDup (map id ps) -> find_player (Some z) ps = Some p -> alive p = false ->
  ~ In z (map id (filter alive ps)).
Proof.
  intros Hnd Hf Ha Hin. apply in_map_iff in Hin as [q [Hq Hin]].
  apply filter_In in Hin as [Hin Hqa].
  assert (q = p) by (eapply find_player_unique; eauto). subst q. congruence.
Qed.

(** ** A well-formed registry is partitioned *)

Lemma same_id_same_player (ps : list Player) (p q : Player) :
  NoDup (map id ps) -> In p ps -> In q ps -> id p = id q -> p = q.
Proof.
  induction ps as [|r ps IH]; simpl; [contradiction|].
  intros Hnd Hp Hq E. inversion Hnd as [|x l Hnot Hnd']; subst x l.
  destruct Hp as [->|Hp], Hq as [->|Hq]; auto.
  - exfalso. apply Hnot. rewrite E. now apply in_map.
  - exfalso. apply Hnot. rewrite <- E. now apply in_map.
Qed.

Lemma NoDup_ids_filter (f : Player -> bool) (ps : list Player) :
  NoDup (map id ps) -> NoDup (map id (filter f ps)).
Proof.
  induction ps as [|r ps IH]; simpl; [constructor|].
  intro Hnd. inversion Hnd as [|x l Hnot Hnd']; subst x l.
  destruct (f r); simpl; [constructor|]; auto.
  intro H. apply Hnot. apply in_map_iff in H as [q [E Hq]].
  apply filter_In in Hq as [Hq _]. rewrite <- E. now apply in_map.
Qed.

Lemma in_ids_filter (f : Player -> bool) (ps : list Player) (z : Z) :
  In z (map id (filter f ps)) <-> exists p, In p ps /\ id p = z /\ f p = true.
Proof.
  rewrite in_map_iff. split.
  - intros [p [E H]]. apply filter_In in H as [H Hf]. eauto.
  - intros [p [H [E Hf]]]. exists p. split; [assumption|]. apply filter_In. auto.
Qed.

Lemma consistent_alive (e : GameEngine) (z : Z) :
  consistent e -> (In z (alive_players (game_state e)) <-> living e z).
Proof. intros (_ & -> & _). apply in_ids_filter. Qed.

Lemma consistent_dead (e : GameEngine) (z : Z) :
  consistent e -> (In z (dead_players (game_state e)) <-> deceased e z).
Proof.
  intros (_ & _ & Hd). unfold deceased. split.
  - intro H. apply (Permutation_in _ Hd), in_ids_filter in H
      as [p [Hp [E Ha]]].
    exists p. repeat split; auto. now apply negb_true_iff.
  - intros [p [Hp [E Ha]]]. apply (Permutation_in _ (Permutation_sym Hd)).
    apply in_ids_filter. exists p. repeat split; auto. now apply negb_true_iff.
Qed.

Lemma consistent_partitioned (e : GameEngine) : consistent e -> partitioned e.
Proof.
  intro Hc. pose proof Hc as (Hnd & Hal & Hd). unfold partitioned.
  split; [|split; [|split; [|split; [|split]]]].
  - intros z Ha Hdz. apply (consistent_alive e z Hc) in Ha as [p [Hp [Ep Hpa]]].
    apply (consistent_dead e z Hc) in Hdz as [q [Hq [Eq Hqa]]].
    assert (p = q) by (eapply same_id_same_player; eauto; congruence).
    subst q. congruence.
  - intro z. rewrite (consistent_alive e z Hc), (consistent_dead e z Hc).
    split.
    + intro H. apply in_map_iff in H as [p [E Hp]].
      destruct (alive p) eqn:Ha; [left|right]; exists p; auto.
    + intros [[p [Hp [E _]]]|[p [Hp [E _]]]]; rewrite <- E; now apply in_map.
  - rewrite Hal. unfold len. rewrite (Permutation_length Hd), !length_map.
    apply (filter_split_len alive (players e)).
  - rewrite Hal. now apply NoDup_ids_filter.
  - apply (Permutation_NoDup (Permutation_sym Hd)). now apply NoDup_ids_filter.
  - intros p Hp. rewrite (consistent_alive e _ Hc), (consistent_dead e _ Hc).
    split; split.
    + intro Ha. exists p. auto.
    + intros [q [Hq [E Ha]]].
      assert (q = p) by (eapply same_id_same_player; eauto). now subst q.
    + intro Ha. exists p. auto.
    + intros [q [Hq [E Ha]]].
      assert (q = p) by (eapply same_id_same_player; eauto). now subst q.
Qed.

(** ** One death *)

Lemma next_player_eval (t : option Z) (e : GameEngine) :
  next_player t e = match find_player t (players e) with
                    | Some p => Done p e
                    | None => Raised StopIteration e
                    end.
Proof. unfold next_player, bind, get. now destruct (find_player t (players e)). Qed.

Lemma flag_dead_unregistered (z : Z) (ps : list Player) :
  find_player (Some z) ps = None -> flag_dead z ps = ps.
Proof.
  unfold find_player, flag_dead. induction ps as [|q ps IH]; simpl; [reflexivity|].
  destruct (id q =? z); [discriminate|]. intro H. now rewrite IH.
Qed.

(** The three statements that apply a death, followed by whatever comes
    next: a living player dies; for a dead or unknown one [remove] raises
    and the state is untouched. Only the id of [p] matters. *)
Lemma kill_sequence_any {A : Type} (k : M A) (e : GameEngine) (p : Player) (z : Z) :
  NoDup (map id (players e)) ->
  alive_players (game_state e) = map id (filter alive (players e)) ->
  id p = z ->
  (alive_false p ;;; alive_players_remove z ;;; dead_players_append z ;;; k) e
  = match find_player (Some z) (players e) with
    | Some q => if alive q then k (dies z e) else Raised ValueError e
    | None => Raised ValueError e
    end.
Proof.
  intros Hnd Hal Hid.
  unfold bind at 1. unfold alive_false, modify. rewrite Hid.
  fold (flag_dead z (players e)).
  destruct (find_player (Some z) (players e)) as [q|] eqn:Hf;
    [destruct (alive q) eqn:Ha|].
  - unfold bind at 1. unfold alive_players_remove, bind at 1, get.
    cbn [players game_state set_players].
    rewrite Hal, (flag_dead_alive_ids _ _ _ Hf Ha).
    unfold modify_state, modify. cbn [game_state set_players set_game_state].
    unfold bind at 1. unfold dead_players_append, modify_state, modify.
    f_equal. unfold dies, without. rewrite Hal, (flag_dead_alive_ids _ _ _ Hf Ha).
    reflexivity.
  - rewrite (flag_dead_already _ _ _ Hf Ha), set_players_same.
    unfold bind at 1. unfold alive_players_remove, bind at 1, get.
    rewrite Hal, list_remove_absent
      by (eapply not_alive_when_found_dead; eauto).
    reflexivity.
  - rewrite (flag_dead_unregistered _ _ Hf), set_players_same.
    unfold bind at 1. unfold alive_players_remove, bind at 1, get.
    rewrite Hal, list_remove_absent; [reflexivity|].
    intro H. apply in_ids_filter in H as [r [Hr [E _]]].
    apply find_player_None in Hf. apply Hf. rewrite <- E. now apply in_map.
Qed.

Lemma kill_sequence {A : Type} (k : M A) (e : GameEngine) (p : Player) (z : Z) :
  NoDup (map id (players e)) ->
  alive_players (game_state e) = map id (filter alive (players e)) ->
  find_player (Some z) (players e) = Some p ->
  (alive_false p ;;; alive_players_remove z ;;; dead_players_append z ;;; k) e
  = if alive p then k (dies z e) else Raised ValueError e.
Proof.
  intros Hnd Hal Hf. destruct (find_player_Some _ _ _ Hf) as [_ Hid].
  rewrite (kill_sequence_any k e p z Hnd Hal Hid). now rewrite Hf.
Qed.

Lemma dies_players (z : Z) (e : GameEngine) :
  players (dies z e) = flag_dead z (players e).
Proof. reflexivity. Qed.

Lemma dies_consistent (z : Z) (e : GameEngine) (p : Player) :
  consistent e -> find_player (Some z) (players e) = Some p -> alive p = true ->
  consistent (dies z e).
Proof.
  intros (Hnd & Hal & Hdead) Hf Ha. unfold consistent.
  cbn [dies players game_state set_game_state set_players
       alive_players dead_players set_dead_players set_alive_players].
  repeat split.
  - now rewrite flag_dead_ids.
  - unfold without. now rewrite Hal, (flag_dead_alive_ids _ _ _ Hf Ha).
  - etransitivity; [|apply (flag_dead_dead_ids _ _ _ Hf Ha)].
    etransitivity; [apply Permutation_app_comm|]. simpl. now apply perm_skip.
Qed.

(** ** Night resolution *)

(** One turn of the loop of [_resolve_night_actions] on a well-formed
    registry. *)
Lemma night_death_step (z : Z) (rest : list Z) (body : Z -> M unit) (e : GameEngine) :
  consistent e ->
  body = (fun player_id =>
            player <- next_player (Some player_id) ;;
            alive_false player ;;;
            alive_players_remove player_id ;;;
            dead_players_append player_id ;;;
            history_append ActionType.KILL player_id "夜晚") ->
  for_each (z :: rest) body e
  = match find_player (Some z) (players e) with
    | None => Raised StopIteration e
    | Some p =>
        if alive p
        then for_each rest body
               (recorded (record_of ActionType.KILL "夜晚" z e) (dies z e))
        else Raised ValueError e
    end.
Proof.
  intros (Hnd & Hal & _) ->. cbn [for_each]. unfold bind at 1. unfold bind at 1.
  rewrite next_player_eval.
  destruct (find_player (Some z) (players e)) as [p|] eqn:Hf; [|reflexivity].
  rewrite (kill_sequence _ e p z Hnd Hal Hf).
  destruct (alive p); reflexivity.
Qed.

Lemma recorded_consistent (r : ActionRecord) (e : GameEngine) :
  consistent e -> consistent (recorded r e).
Proof. intro H. exact H. Qed.

Lemma resolve_unfold (night : NightActions) :
  _resolve_night_actions night
  = for_each (night_deaths night)
      (fun player_id =>
         player <- next_player (Some player_id) ;;
         alive_false player ;;;
         alive_players_remove player_id ;;;
         dead_players_append player_id ;;;
         history_append ActionType.KILL player_id "夜晚").
Proof. reflexivity. Qed.

Lemma deaths_consistent (deaths : list Z) (body : Z -> M unit) :
  body = (fun player_id =>
            player <- next_player (Some player_id) ;;
            alive_false player ;;;
            alive_players_remove player_id ;;;
            dead_players_append player_id ;;;
            history_append ActionType.KILL player_id "夜晚") ->
  forall e, consistent e -> consistent (final (for_each deaths body e)).
Proof.
  intro Hb. induction deaths as [|z rest IH]; intros e Hc; [exact Hc|].
  rewrite (night_death_step z rest body e Hc Hb).
  destruct (find_player (Some z) (players e)) as [p|] eqn:Hf; [|exact Hc].
  destruct (alive p) eqn:Ha; [|exact Hc].
  apply IH, recorded_consistent. eapply dies_consistent; eauto.
Qed.

Lemma resolve_consistent (night : NightActions) (e : GameEngine) :
  consistent e -> consistent (final (_resolve_night_actions night e)).
Proof. rewrite resolve_unfold. now apply deaths_consistent. Qed.

Lemma night_deaths_saved (night : NightActions) (k : Z) :
  werewolf_kill night = Some k -> witch_save night = Some k ->
  witch_poison night = None -> night_deaths night = [].
Proof.
  intros Hk Hs Hp. unfold night_deaths. rewrite Hk, Hs, Hp. simpl.
  now rewrite Z.eqb_refl, andb_false_r.
Qed.

(** C6. When the witch saves the werewolves' target and poisons nobody, the
    night has no death: the state is returned as it was, so the target is
    still alive and no record is appended. *)
Theorem C6_save_cancels_kill (night : NightActions) (k : Z) (e : GameEngine) :
  werewolf_kill night = Some k ->
  witch_save night = Some k ->
  witch_poison night = None ->
  night_deaths night = [] /\ _resolve_night_actions night e = Done tt e.
Proof.
  intros Hk Hs Hp. pose proof (night_deaths_saved night k Hk Hs Hp) as Hd.
  split; [exact Hd|]. rewrite resolve_unfold, Hd. reflexivity.
Qed.

(** Scenario A: nine players, the werewolves pick villager 3, the witch
    saves 3 and poisons nobody. *)
Lemma C6_scenario_A :
  night_deaths (mkNightActions (Some 3) None (Some 3) None None) = []
  /\ _resolve_night_actions (mkNightActions (Some 3) None (Some 3) None None) ai_table
     = Done tt ai_table.
Proof.
  apply (C6_save_cancels_kill (mkNightActions (Some 3) None (Some 3) None None) 3 ai_table);
    reflexivity.
Defined.

(** What the truth tests let into the death list. *)
Lemma night_deaths_In (night : NightActions) (k : Z) :
  In k (night_deaths night) <->
  k <> 0 /\ ((werewolf_kill night = Some k /\ witch_save night <> Some k)
             \/ witch_poison night = Some k).
Proof.
  unfold night_deaths, truthy, append_id.
  destruct (werewolf_kill night) as [a|], (witch_save night) as [b|],
           (witch_poison night) as [c|]; cbn [opt_eqb negb andb app In];
    repeat match goal with
           | |- context [?x =? ?y] => destruct (Z.eqb_spec x y)
           end;
    cbn [opt_eqb negb andb app In];
    intuition (try congruence; try lia);
    repeat match goal with
           | H : Some _ = Some _ |- _ => injection H as H
           end; subst; auto; try congruence; try lia.
Qed.

Lemma find_player_flag_dead (z z' : Z) (ps : list Player) :
  find_player (Some z') (flag_dead z ps)
  = if z' =? z then option_map (set_alive false) (find_player (Some z) ps)
    else find_player (Some z') ps.
Proof.
  unfold find_player, flag_dead. induction ps as [|q ps IH]; simpl.
  - now destruct (z' =? z).
  - destruct (Z.eqb_spec (id q) z) as [E|E]; simpl.
    + destruct (Z.eqb_spec z' z) as [E'|E'].
      * subst z'. now rewrite E, Z.eqb_refl.
      * destruct (Z.eqb_spec (id q) z'); [congruence | reflexivity].
    + destruct (Z.eqb_spec (id q) z') as [E'|E'].
      * destruct (Z.eqb_spec z' z); [congruence | reflexivity].
      * exact IH.
Qed.

Lemma alive_flag_dies (z z' : Z) (e : GameEngine) :
  alive_flag (dies z e) z'
  = if z' =? z then option_map (fun _ => false) (alive_flag e z)
    else alive_flag e z'.
Proof.
  unfold alive_flag. rewrite dies_players, find_player_flag_dead.
  destruct (z' =? z); [|reflexivity].
  now destruct (find_player (Some z) (players e)).
Qed.

Lemma alive_flag_recorded (r : ActionRecord) (e : GameEngine) (z : Z) :
  alive_flag (recorded r e) z = alive_flag e z.
Proof. reflexivity. Qed.

Lemma living_flag (e : GameEngine) (z : Z) :
  NoDup (map id (players e)) -> (living e z <-> alive_flag e z = Some true).
Proof.
  intro Hnd. unfold alive_flag. split.
  - intros [p [Hp [E Ha]]].
    destruct (find_player_registered z (players e)) as [q Hq].
    { rewrite <- E. now apply in_map. }
    rewrite Hq. simpl. f_equal.
    assert (p = q) by (eapply find_player_unique; eauto). now subst q.
  - destruct (find_player (Some z) (players e)) as [p|] eqn:Hf; [|discriminate].
    intros [= Ha]. apply find_player_Some in Hf as [Hp E]. exists p. auto.
Qed.

Lemma deaths_flag_kept (deaths : list Z) (body : Z -> M unit) (z0 : Z) :
  body = (fun player_id =>
            player <- next_player (Some player_id) ;;
            alive_false player ;;;
            alive_players_remove player_id ;;;
            dead_players_append player_id ;;;
            history_append ActionType.KILL player_id "夜晚") ->
  ~ In z0 deaths ->
  forall e, consistent e ->
            alive_flag (final (for_each deaths body e)) z0 = alive_flag e z0.
Proof.
  intros Hb. induction deaths as [|z rest IH]; intros Hnot e Hc; [reflexivity|].
  rewrite (night_death_step z rest body e Hc Hb).
  destruct (find_player (Some z) (players e)) as [p|] eqn:Hf; [|reflexivity].
  destruct (alive p) eqn:Ha; [|reflexivity].
  rewrite IH.
  - rewrite alive_flag_recorded, alive_flag_dies.
    destruct (Z.eqb_spec z0 z) as [E|E]; [|reflexivity].
    exfalso. apply Hnot. now left.
  - intro H. apply Hnot. now right.
  - apply recorded_consistent. eapply dies_consistent; eauto.
Qed.

Lemma living_dies_other (z z' : Z) (e : GameEngine) (p : Player) :
  consistent e -> find_player (Some z) (players e) = Some p -> alive p = true ->
  z' <> z -> living e z' -> living (dies z e) z'.
Proof.
  intros Hc Hf Ha Hne Hl. pose proof (dies_consistent z e p Hc Hf Ha) as (Hnd' & _).
  apply (living_flag _ _ Hnd'). rewrite alive_flag_dies.
  destruct (Z.eqb_spec z' z); [contradiction|].
  destruct Hc as (Hnd & _). now apply (living_flag _ _ Hnd).
Qed.

(** When every id of the death list is living and listed once, the loop
    runs to its end and applies every death. *)
Lemma deaths_applied (deaths : list Z) (body : Z -> M unit) :
  body = (fun player_id =>
            player <- next_player (Some player_id) ;;
            alive_false player ;;;
            alive_players_remove player_id ;;;
            dead_players_append player_id ;;;
            history_append ActionType.KILL player_id "夜晚") ->
  NoDup deaths ->
  forall e, consistent e -> (forall z, In z deaths -> living e z) ->
            for_each deaths body e = Done tt (night_falls deaths e).
Proof.
  intros Hb Hnd. induction Hnd as [|z rest Hnot Hnd IH]; intros e Hc Hl; [reflexivity|].
  rewrite (night_death_step z rest body e Hc Hb).
  assert (Hz : alive_flag e z = Some true).
  { apply living_flag; [apply Hc | apply Hl; now left]. }
  unfold alive_flag in Hz.
  destruct (find_player (Some z) (players e)) as [p|] eqn:Hf; [|discriminate].
  injection Hz as Ha. rewrite Ha. cbn [night_falls fold_left].
  apply IH.
  - apply recorded_consistent. eapply dies_consistent; eauto.
  - intros z' Hz'. assert (z' <> z) by (intros ->; contradiction).
    assert (living (dies z e) z') as [q [Hq [E Hqa]]].
    { eapply living_dies_other; eauto. apply Hl. now right. }
    exists q. auto.
Qed.

(** ** Computations that keep the registry well formed *)

Lemma filter_by_flags (f : bool -> bool) (ps qs : list Player) :
  map id ps = map id qs -> map alive ps = map alive qs ->
  map id (filter (fun p => f (alive p)) ps) = map id (filter (fun p => f (alive p)) qs).
Proof.
  revert qs. induction ps as [|p ps IH]; intros [|q qs]; simpl;
    try discriminate; [reflexivity|].
  intros [= Hi Hids] [= Ha Has]. rewrite Ha.
  destruct (f (alive q)); simpl; [rewrite Hi; f_equal|]; now apply IH.
Qed.

Lemma consistent_same_flags (e e' : GameEngine) :
  map id (players e') = map id (players e) ->
  map alive (players e') = map alive (players e) ->
  alive_players (game_state e') = alive_players (game_state e) ->
  dead_players (game_state e') = dead_players (game_state e) ->
  consistent e -> consistent e'.
Proof.
  intros Hi Ha Hal Hd (Hnd & Hal0 & Hd0). unfold consistent.
  rewrite Hi, Hal, Hd. repeat split; [assumption| |].
  - rewrite Hal0. symmetry.
    exact (filter_by_flags (fun b => b) _ _ Hi Ha).
  - etransitivity; [exact Hd0|]. apply Permutation_refl'.
    symmetry. now apply (filter_by_flags negb).
Qed.

Lemma keeps_ret {A : Type} (a : A) : keeps (ret a).
Proof. intros e H. exact H. Qed.

Lemma keeps_raise {A : Type} (x : Exn) : keeps (@raise A x).
Proof. intros e H. exact H. Qed.

Lemma keeps_get : keeps get.
Proof. intros e H. exact H. Qed.

Lemma keeps_bind {A B : Type} (c : M A) (k : A -> M B) :
  keeps c -> (forall a, keeps (k a)) -> keeps (bind c k).
Proof.
  intros Hc Hk e He. unfold bind. specialize (Hc e He).
  destruct (c e) as [a e'|x e']; [apply Hk|]; exact Hc.
Qed.

Lemma keeps_try_except {A : Type} (c h : M A) :
  keeps c -> keeps h -> keeps (try_except c h).
Proof.
  intros Hc Hh e He. unfold try_except. specialize (Hc e He).
  destruct (c e) as [a e'|x e']; [exact Hc|].
  destruct x; try (apply Hh; exact Hc); exact Hc.
Qed.

Lemma keeps_modify (f : GameEngine -> GameEngine) : harmless f -> keeps (modify f).
Proof.
  intros Hf e He. destruct (Hf e) as (H1 & H2 & H3 & H4).
  now apply (consistent_same_flags e (f e)).
Qed.

Lemma keeps_for_each {A : Type} (l : list A) (body : A -> M unit) :
  (forall a, keeps (body a)) -> keeps (for_each l body).
Proof.
  intro Hb. induction l as [|a l IH]; simpl; [apply keeps_ret|].
  apply keeps_bind; [apply Hb | intros _; exact IH].
Qed.

Lemma harmless_clock (n : nat) : harmless (set_clock n).
Proof. intro e. now destruct e. Qed.

Lemma harmless_stdin (l : list (option Z)) : harmless (set_stdin l).
Proof. intro e. now destruct e. Qed.

Lemma harmless_ai_players (f : GameEngine -> list Z) :
  harmless (fun e => set_ai_players (f e) e).
Proof. intro e. now destruct e. Qed.

Lemma harmless_state (f : GameState -> GameState) :
  (forall g, alive_players (f g) = alive_players g
             /\ dead_players (f g) = dead_players g) ->
  harmless (fun e => set_game_state (f (game_state e)) e).
Proof. intros H e. destruct (H (game_state e)). now destruct e. Qed.

Lemma keeps_modify_state (f : GameState -> GameState) :
  (forall g, alive_players (f g) = alive_players g
             /\ dead_players (f g) = dead_players g) ->
  keeps (modify_state f).
Proof. intro H. apply keeps_modify. now apply harmless_state. Qed.

Lemma keeps_tick : keeps tick.
Proof. intros e He. apply (keeps_modify _ (harmless_clock (S (clock e))) e He). Qed.

Lemma keeps_random_choice (env : Env) {A : Type} (l : list A) :
  keeps (random_choice env l).
Proof.
  destruct l; [apply keeps_raise|]. simpl.
  apply keeps_bind; [apply keeps_tick | intro; apply keeps_ret].
Qed.

Lemma keeps_randint (env : Env) (a b : Z) : keeps (randint env a b).
Proof.
  unfold randint. destruct (b <? a); [apply keeps_raise|].
  apply keeps_bind; [apply keeps_tick | intro; apply keeps_ret].
Qed.

Lemma keeps_await {A : Type} (call : nat -> reply A) : keeps (await call).
Proof.
  unfold await. apply keeps_bind; [apply keeps_tick|]. intro n.
  destruct (call n); [apply keeps_ret | apply keeps_raise].
Qed.

Lemma keeps_input : keeps input.
Proof.
  intros e He. unfold input. destruct (stdin e) as [|l rest]; [exact He|].
  apply (keeps_modify _ (harmless_stdin rest) e He).
Qed.

Lemma keeps_input_until (valid : Z -> bool) : keeps (input_until valid).
Proof.
  intros e He. unfold input_until.
  destruct (first_valid valid (stdin e)) as [[z|] rest];
    apply (keeps_modify _ (harmless_stdin rest) e He).
Qed.

Lemma keeps_random_target (env : Env) (l : list Player) : keeps (random_target env l).
Proof.
  unfold random_target. apply keeps_bind; [apply keeps_random_choice|].
  intro. apply keeps_ret.
Qed.

Lemma keeps_kill {A : Type} (p : Player) (k : M A) :
  keeps k ->
  keeps (alive_false p ;;; alive_players_remove (id p) ;;;
         dead_players_append (id p) ;;; k).
Proof.
  intros Hk e He. pose proof He as (Hnd & Hal & _).
  rewrite (kill_sequence_any k e p (id p) Hnd Hal eq_refl).
  destruct (find_player (Some (id p)) (players e)) as [q|] eqn:Hf; [|exact He].
  destruct (alive q) eqn:Ha; [|exact He].
  apply Hk. eapply dies_consistent; eauto.
Qed.

Lemma keeps_next_player (t : option Z) : keeps (next_player t).
Proof.
  intros e He. rewrite next_player_eval.
  destruct (find_player t (players e)); exact He.
Qed.

Lemma keeps_history_append (kind : ActionType.t) (z : Z) (label : string) :
  keeps (history_append kind z label).
Proof. apply keeps_modify_state. intro g. now destruct g. Qed.

Lemma keeps_role_value (p : Player) : keeps (role_value p).
Proof. unfold role_value. destruct (role p); [apply keeps_ret | apply keeps_raise]. Qed.

Lemma update_first_ids (sel : Player -> bool) (f : Player -> Player) (ps : list Player) :
  (forall p, id (f p) = id p) -> map id (update_first sel f ps) = map id ps.
Proof.
  intro Hf. induction ps as [|q ps IH]; simpl; [reflexivity|].
  destruct (sel q); simpl; [now rewrite Hf | now rewrite IH].
Qed.

Lemma update_first_flags (sel : Player -> bool) (f : Player -> Player) (ps : list Player) :
  (forall p, alive (f p) = alive p) -> map alive (update_first sel f ps) = map alive ps.
Proof.
  intro Hf. induction ps as [|q ps IH]; simpl; [reflexivity|].
  destruct (sel q); simpl; [now rewrite Hf | now rewrite IH].
Qed.

Ltac keeps_potion :=
  apply keeps_modify; let e0 := fresh "e" in
  intro e0; cbn [players set_players];
  rewrite update_first_ids, update_first_flags by reflexivity;
  now destruct e0.

Ltac keeps_state := apply keeps_modify_state; let g := fresh "g" in intro g; now destruct g.

Ltac keeps_step :=
  first
    [ apply keeps_ret | apply keeps_raise | apply keeps_get | apply keeps_tick
    | apply keeps_await | apply keeps_input | apply keeps_input_until
    | apply keeps_random_choice | apply keeps_random_target | apply keeps_randint
    | apply keeps_next_player | apply keeps_history_append | apply keeps_role_value
    | apply keeps_kill
    | apply keeps_try_except
    | apply keeps_bind; [|intro]
    | apply keeps_for_each; intro
    | keeps_state
    | keeps_potion
    | match goal with
      | |- keeps (match ?x with _ => _ end) => destruct x
      end ].

Ltac keeps_all := repeat keeps_step.

Lemma keeps_decide_or_random (env : Env) (asker : Z)
  (ask : nat -> Z -> list Player -> GameState -> reply (option Z))
  (candidates : list Player) :
  keeps (decide_or_random env asker ask candidates).
Proof. unfold decide_or_random. keeps_all. Qed.

Lemma keeps_werewolf_action (env : Env) (night : NightActions) :
  keeps (_process_werewolf_action env night).
Proof.
  unfold _process_werewolf_action. keeps_all.
  all: try apply keeps_decide_or_random; keeps_all.
Qed.

Lemma keeps_seer_action (env : Env) (night : NightActions) :
  keeps (_process_seer_action env night).
Proof.
  unfold _process_seer_action. keeps_all.
  all: try apply keeps_decide_or_random; keeps_all.
Qed.

Lemma keeps_witch_action (env : Env) (night : NightActions) :
  keeps (_process_witch_action env night).
Proof. unfold _process_witch_action. keeps_all. Qed.

Lemma keeps_resolve (night : NightActions) : keeps (_resolve_night_actions night).
Proof. intros e He. now apply resolve_consistent. Qed.

Lemma keeps_night_phase (env : Env) : keeps (_process_night_phase env).
Proof.
  unfold _process_night_phase.
  apply keeps_bind; [keeps_state|intros _].
  apply keeps_bind; [apply keeps_werewolf_action|intro].
  apply keeps_bind; [apply keeps_seer_action|intro].
  apply keeps_bind; [apply keeps_witch_action|intro].
  apply keeps_bind; [keeps_state|intros _]. apply keeps_resolve.
Qed.

Lemma keeps_day_phase (env : Env) : keeps (_process_day_phase env).
Proof. unfold _process_day_phase. keeps_all. Qed.

(** ** The hunter's shot *)

Lemma kill_sequence_last (e : GameEngine) (p : Player) (z : Z) :
  NoDup (map id (players e)) ->
  alive_players (game_state e) = map id (filter alive (players e)) ->
  id p = z ->
  (alive_false p ;;; alive_players_remove z ;;; dead_players_append z) e
  = match find_player (Some z) (players e) with
    | Some q => if alive q then Done tt (dies z e) else Raised ValueError e
    | None => Raised ValueError e
    end.
Proof.
  intros Hnd Hal Hid.
  transitivity ((alive_false p ;;; alive_players_remove z ;;;
                 dead_players_append z ;;; ret tt) e);
    [|exact (kill_sequence_any (ret tt) e p z Hnd Hal Hid)].
  unfold bind. destruct (alive_false p e) as [[] e1|]; [|reflexivity].
  destruct (alive_players_remove z e1) as [[] e2|]; [|reflexivity].
  destruct (dead_players_append z e2) as [[] e3|]; reflexivity.
Qed.

Lemma keeps_kill_last (p : Player) :
  keeps (alive_false p ;;; alive_players_remove (id p) ;;; dead_players_append (id p)).
Proof.
  intros e He. pose proof He as (Hnd & Hal & _).
  rewrite (kill_sequence_last e p (id p) Hnd Hal eq_refl).
  destruct (find_player (Some (id p)) (players e)) as [q|] eqn:Hf; [|exact He].
  destruct (alive q) eqn:Ha; [|exact He].
  eapply dies_consistent; eauto.
Qed.

Lemma consistent_set_stdin (l : list (option Z)) (e : GameEngine) :
  consistent e -> consistent (set_stdin l e).
Proof. intro H. exact (keeps_modify _ (harmless_stdin l) e H). Qed.

(** One line read by a human hunter, on a well-formed registry. *)
Lemma hunter_reads_step (shootable : list Z) (t : Z) (rest : list (option Z))
  (e : GameEngine) :
  consistent e -> mem t shootable = true ->
  hunter_reads shootable (Some t :: rest) e
  = match find_player (Some t) (players e) with
    | None => Raised StopIteration (set_stdin rest e)
    | Some p =>
        if alive p then Done tt (dies t (set_stdin rest e))
        else hunter_reads shootable rest (set_stdin rest e)
    end.
Proof.
  intros He Hm. cbn [hunter_reads]. rewrite Hm.
  unfold bind at 1. unfold modify at 1.
  unfold bind at 1. rewrite next_player_eval. cbn [players set_stdin].
  destruct (find_player (Some t) (players e)) as [p|] eqn:Hf; [|reflexivity].
  destruct (find_player_Some _ _ _ Hf) as [_ Hid].
  destruct He as (Hnd & Hal & _).
  unfold bind at 1. unfold alive_false, modify. rewrite Hid.
  fold (flag_dead t (players e)).
  unfold bind at 1. unfold get. cbn [game_state set_players set_stdin].
  rewrite Hal. destruct (alive p) eqn:Ha.
  - rewrite (flag_dead_alive_ids _ _ _ Hf Ha).
    unfold bind, modify_state, modify, dead_players_append, modify_state, modify.
    f_equal. unfold dies, without. cbn [game_state set_stdin players].
    rewrite Hal, (flag_dead_alive_ids _ _ _ Hf Ha). reflexivity.
  - rewrite list_remove_absent by (eapply not_alive_when_found_dead; eauto).
    change (players (set_stdin rest e)) with (players e).
    fold (flag_dead t (players e)). rewrite (flag_dead_already _ _ _ Hf Ha).
    now destruct e.
Qed.

Lemma keeps_hunter_reads (shootable : list Z) (lines : list (option Z)) :
  keeps (hunter_reads shootable lines).
Proof.
  induction lines as [|[t|] rest IH]; intros e He.
  - exact (consistent_set_stdin [] e He).
  - destruct (mem t shootable) eqn:Hm.
    + rewrite (hunter_reads_step shootable t rest e He Hm).
      pose proof (consistent_set_stdin rest e He) as He'.
      destruct (find_player (Some t) (players e)) as [p|] eqn:Hf; [|exact He'].
      destruct (alive p) eqn:Ha; [|now apply IH].
      apply (dies_consistent t (set_stdin rest e) p He'); assumption.
    + cbn [hunter_reads]. rewrite Hm. now apply IH.
  - cbn [hunter_reads]. now apply IH.
Qed.

Lemma keeps_hunter_shoot (env : Env) (hunter : Player) :
  keeps (_process_hunter_shoot env hunter).
Proof.
  unfold _process_hunter_shoot.
  apply keeps_bind; [apply keeps_get|intro e0].
  destruct (is_human_turn e0 (id hunter)); [apply keeps_hunter_reads|].
  apply keeps_bind.
  - destruct (enable_ai_mode e0 && mem (id hunter) (ai_players e0));
      [apply keeps_await | apply keeps_random_target].
  - intro t. apply keeps_bind; [apply keeps_next_player|intro target].
    apply keeps_kill_last.
Qed.

(** ** The vote *)

Lemma keeps_cast_vote (env : Env) (alive_now : list Player)
  (votes : list (Z * option Z)) (voter : Player) :
  keeps (cast_vote env alive_now votes voter).
Proof. unfold cast_vote. keeps_all. Qed.

Lemma keeps_collect_votes (env : Env) (alive_now voters : list Player) :
  forall votes, keeps (collect_votes env alive_now voters votes).
Proof.
  induction voters as [|v voters IH]; intro votes; simpl; [apply keeps_ret|].
  apply keeps_bind; [apply keeps_cast_vote | intro; apply IH].
Qed.

Lemma keeps_vote_phase (env : Env) : keeps (_process_vote_phase env).
Proof.
  unfold _process_vote_phase.
  apply keeps_bind; [keeps_state|intros _].
  apply keeps_bind; [apply keeps_get|intro e0].
  apply keeps_bind; [apply keeps_collect_votes|intro votes].
  destruct (top_voted (count_votes votes)) as [|x [|y l]]; try apply keeps_ret.
  apply keeps_bind; [apply keeps_next_player|intro player].
  apply keeps_kill.
  apply keeps_bind; [keeps_state|intros _].
  apply keeps_bind; [apply keeps_role_value|intros _].
  apply keeps_bind; [apply keeps_history_append|intros _].
  destruct (role_is RoleType.HUNTER player);
    [apply keeps_hunter_shoot | apply keeps_ret].
Qed.

(** ** The main loop and the setup *)

Lemma keeps_check_and_store : keeps check_and_store.
Proof. unfold check_and_store. keeps_all. Qed.

Lemma keeps_game_rounds (env : Env) (fuel : nat) : keeps (game_rounds env fuel).
Proof.
  induction fuel as [|fuel IH]; cbn [game_rounds].
  - apply keeps_bind; [apply keeps_get | intro; apply keeps_ret].
  - apply keeps_bind; [apply keeps_get|intro e0].
    destruct (game_over (game_state e0)); [apply keeps_ret|].
    apply keeps_bind; [apply keeps_check_and_store|intros [|]]; [apply keeps_ret|].
    apply keeps_bind; [apply keeps_night_phase|intros _].
    apply keeps_bind; [apply keeps_check_and_store|intros [|]]; [apply keeps_ret|].
    apply keeps_bind; [apply keeps_day_phase|intros _].
    apply keeps_bind; [apply keeps_vote_phase|intros _].
    apply keeps_bind; [keeps_state|intros _]. exact IH.
Qed.

Lemma keeps_display : keeps _display_game_result.
Proof. unfold _display_game_result. keeps_all. Qed.

Lemma keeps_run_game_loop (env : Env) (fuel : nat) : keeps (run_game_loop env fuel).
Proof.
  unfold run_game_loop.
  apply keeps_bind; [apply keeps_game_rounds|intros [|]]; [|apply keeps_ret].
  apply keeps_bind; [apply keeps_display|intros _].
  apply keeps_bind; [apply keeps_get | intro; apply keeps_ret].
Qed.

Lemma bind_Done {A B : Type} (c : M A) (k : A -> M B) (e e' : GameEngine) (b : B) :
  bind c k e = Done b e' ->
  exists a e1, c e = Done a e1 /\ k a e1 = Done b e'.
Proof.
  unfold bind. destruct (c e) as [a e1|x e1]; [eauto | discriminate].
Qed.

Lemma create_players_Done (env : Env) (n : Z) (spectator : bool)
  (e e' : GameEngine) (ps : list Player) (h : option Z) :
  create_players env n spectator e = Done (ps, h) e' ->
  map id ps = map Z.of_nat (seq 0 (Z.to_nat n))
  /\ map alive ps = map (fun _ => true) ps.
Proof.
  unfold create_players. intro H. apply bind_Done in H as (h' & e1 & _ & H).
  injection H as <- _ _. rewrite !map_map. split; reflexivity.
Qed.

Lemma create_players_total (env : Env) (n : Z) (spectator : bool) (e : GameEngine) :
  spectator = true \/ 0 < n ->
  exists ps h e', create_players env n spectator e = Done (ps, h) e'.
Proof.
  intro H. unfold create_players, bind. destruct spectator; simpl.
  - eexists _, _, _. reflexivity.
  - destruct H as [H|H]; [discriminate|]. unfold randint.
    destruct (Z.ltb_spec (n - 1) 0); [lia|]. unfold bind, tick, ret.
    eexists _, _, _. reflexivity.
Qed.

Lemma assign_from_ids (rl : list RoleType.t) (ps : list Player) :
  forall i, map id (fst (assign_from rl i ps)) = map id ps
            /\ map alive (fst (assign_from rl i ps)) = map alive ps.
Proof.
  induction ps as [|p ps IH]; intro i; simpl; [split; reflexivity|].
  destruct (nth_error rl i); [|split; reflexivity].
  destruct (IH (S i)) as [H1 H2]. destruct (assign_from rl (S i) ps).
  simpl in *. now rewrite H1, H2.
Qed.

Lemma all_alive_filter (ps : list Player) :
  map alive ps = map (fun _ => true) ps ->
  filter alive ps = ps /\ filter (fun p => negb (alive p)) ps = [].
Proof.
  induction ps as [|p ps IH]; simpl; [split; reflexivity|].
  intros [= Ha H]. rewrite Ha. simpl. destruct (IH H) as [-> ->]. now split.
Qed.

Lemma all_true_transfer {A B : Type} (f : A -> bool) (l : list A) (l' : list B) :
  map f l = map (fun _ => true) l' -> map f l = map (fun _ => true) l.
Proof.
  revert l'. induction l as [|a l IH]; intros [|b l']; simpl;
    try discriminate; [reflexivity|].
  intros [= Ha H]. rewrite Ha. f_equal. now apply (IH l').
Qed.

Lemma sequential_ids_NoDup (n : nat) : NoDup (map Z.of_nat (seq 0 n)).
Proof.
  apply Finite.Injective_map_NoDup; [|apply seq_NoDup].
  intros a b. apply Nat2Z.inj.
Qed.

Lemma keeps_initialize_ai_players : keeps _initialize_ai_players.
Proof.
  unfold _initialize_ai_players. apply keeps_bind; [apply keeps_get|intro e0].
  apply keeps_for_each. intro player. destruct (is_ai player); [|apply keeps_ret].
  apply keeps_modify.
  exact (harmless_ai_players (fun e => keys_add (id player) (ai_players e))).
Qed.

(** Setup leaves a well-formed registry: fresh sequential ids, everybody
    alive and listed as such. *)
Lemma setup_consistent (env : Env) (e0 e : GameEngine) :
  initialize_game env e0 = Done true e -> consistent e.
Proof.
  unfold initialize_game, try_except.
  match goal with |- context [match ?c e0 with _ => _ end] => destruct (c e0) as [b e1|x e1] eqn:E end.
  2: { destruct x; discriminate. }
  intros [= -> ->].
  apply bind_Done in E as (e0' & s1 & Hget & E). injection Hget as <- <-.
  apply bind_Done in E as ([ps h] & s2 & Hcreate & E).
  apply bind_Done in E as ([] & s3 & Hmod & E). injection Hmod as <-.
  apply bind_Done in E as (assigned & s4 & Hassign & E).
  apply bind_Done in E as ([] & s5 & Hmod & E). injection Hmod as <-.
  apply bind_Done in E as ([] & s6 & Hmod & E). injection Hmod as <-.
  destruct (create_players_Done _ _ _ _ _ _ _ Hcreate) as [Hids Hall].
  cbn [fst snd] in *.
  unfold assign_roles in Hassign.
  apply bind_Done in Hassign as (n & s7 & _ & Hassign).
  pose proof (assign_from_ids (shuffle env n (build_role_list role_distribution)) ps 0%nat)
    as [Hi Ha].
  destruct (assign_from (shuffle env n (build_role_list role_distribution)) 0 ps)
    as [upd x].
  apply bind_Done in Hassign as ([] & s8 & _ & Hassign).
  destruct x as [x|]; [discriminate|]. injection Hassign as <- _.
  cbn [fst] in Hi, Ha.
  match type of E with ?tail ?s = _ =>
    assert (Hs : consistent s); [|assert (Hk : keeps tail)] end.
  - unfold consistent. cbn [players game_state set_players set_game_state
                             alive_players dead_players set_alive_players
                             new_game_state].
    rewrite Hall in Ha. pose proof (all_true_transfer _ _ _ Ha) as Hup.
    destruct (all_alive_filter upd Hup) as [-> ->].
    repeat split; [|constructor].
    rewrite Hi, Hids. apply sequential_ids_NoDup.
  - apply keeps_bind;
      [destruct (enable_ai_mode e0);
       [apply keeps_initialize_ai_players | apply keeps_ret]|intros _].
    apply keeps_bind; [|intros _; apply keeps_ret].
    destruct (enable_ai_mode e0); [|apply keeps_ret].
    apply keeps_try_except; [apply keeps_await | apply keeps_raise].
  - specialize (Hk _ Hs). now rewrite E in Hk.
Qed.

(** ** The alive/dead partition in every reachable state *)

Lemma reachable_consistent (env : Env) (e : GameEngine) :
  reachable env e -> consistent e.
Proof.
  induction 1 as [e0 e Hs|e _ IH|night e _ IH|e _ IH|e _ IH|hunter e _ IH
                  |e _ IH|fuel e _ IH|fuel e _ IH].
  - exact (setup_consistent env e0 e Hs).
  - exact (keeps_night_phase env e IH).
  - exact (keeps_resolve night e IH).
  - exact (keeps_day_phase env e IH).
  - exact (keeps_vote_phase env e IH).
  - exact (keeps_hunter_shoot env hunter e IH).
  - exact (keeps_check_and_store e IH).
  - exact (keeps_game_rounds env fuel e IH).
  - exact (keeps_run_game_loop env fuel e IH).
Qed.

(** C9. In every state a game reaches through setup, night phases, night
    resolution, day phases, vote phases, hunter shots and the main loop -
    including the state left behind when one of them raises - the alive and
    dead id lists are disjoint, together hold exactly the ids of the player
    registry, have no repetition, their lengths add up to the number of
    players, and an id is in the alive (dead) list exactly when its player
    is flagged alive (dead). *)
Theorem C9_alive_dead_partition (env : Env) (e : GameEngine) :
  reachable env e -> partitioned e.
Proof. intro H. apply consistent_partitioned. exact (reachable_consistent env e H). Qed.

(** The partition after setup, one night and one vote of a nine-player game
    whose AI players stay silent (the vote then raises). *)
Lemma C9_partition_in_a_silent_game :
  partitioned (final (_process_vote_phase silent
                        (final (_process_night_phase silent ai_table)))).
Proof.
  apply (C9_alive_dead_partition silent).
  apply reach_vote, reach_night.
  apply (reach_setup silent (new_engine true true [])).
  vm_compute. reflexivity.
Defined.

(** The evaluator on the nine players after setup: three werewolves against
    six others, nobody has won. *)
Lemma C8_nobody_wins_at_setup :
  check_winner new_game_state (players ai_table) = None.
Proof.
  destruct (C8_check_winner_evaluator new_game_state (players ai_table)) as [H _].
  destruct (H eq_refl) as (_ & _ & H3 & _).
  apply H3; vm_compute; reflexivity.
Defined.

(** ** What a night leaves behind *)

Lemma night_falls_round (deaths : list Z) (e : GameEngine) :
  current_round (game_state (night_falls deaths e)) = current_round (game_state e).
Proof.
  revert e. induction deaths as [|z rest IH]; intro e; [reflexivity|].
  cbn [night_falls fold_left]. fold (night_falls rest). now rewrite IH.
Qed.

Lemma night_falls_history (deaths : list Z) (e : GameEngine) :
  history (game_state (night_falls deaths e))
  = history (game_state e)
    ++ map (fun z => mkActionRecord ActionType.KILL 0 (Some z) "夜晚"
                       (current_round (game_state e))) deaths.
Proof.
  revert e. induction deaths as [|z rest IH]; intro e.
  - cbn. now rewrite app_nil_r.
  - cbn [night_falls fold_left]. fold (night_falls rest). rewrite IH.
    cbn. now rewrite <- app_assoc.
Qed.

Lemma night_falls_dead (deaths : list Z) (e : GameEngine) :
  dead_players (game_state (night_falls deaths e))
  = dead_players (game_state e) ++ deaths.
Proof.
  revert e. induction deaths as [|z rest IH]; intro e.
  - cbn. now rewrite app_nil_r.
  - cbn [night_falls fold_left]. fold (night_falls rest). rewrite IH.
    cbn. now rewrite <- app_assoc.
Qed.

Lemma night_falls_flag_out (deaths : list Z) (z : Z) (e : GameEngine) :
  ~ In z deaths -> alive_flag (night_falls deaths e) z = alive_flag e z.
Proof.
  revert e. induction deaths as [|y rest IH]; intros e Hnot; [reflexivity|].
  cbn [night_falls fold_left]. fold (night_falls rest). rewrite IH.
  - rewrite alive_flag_recorded, alive_flag_dies.
    destruct (Z.eqb_spec z y); [|reflexivity]. exfalso. apply Hnot. now left.
  - intro H. apply Hnot. now right.
Qed.

Lemma night_falls_flag_stays (deaths : list Z) (z : Z) (e : GameEngine) :
  alive_flag e z = Some false -> alive_flag (night_falls deaths e) z = Some false.
Proof.
  revert e. induction deaths as [|y rest IH]; intros e H; [exact H|].
  cbn [night_falls fold_left]. fold (night_falls rest). apply IH.
  rewrite alive_flag_recorded, alive_flag_dies.
  destruct (Z.eqb_spec z y) as [->|]; [now rewrite H | exact H].
Qed.

Lemma night_falls_flag_in (deaths : list Z) (z : Z) (e : GameEngine) :
  In z deaths -> alive_flag e z <> None ->
  alive_flag (night_falls deaths e) z = Some false.
Proof.
  revert e. induction deaths as [|y rest IH]; intros e Hin Hreg; [contradiction|].
  cbn [night_falls fold_left]. fold (night_falls rest).
  destruct (Z.eq_dec z y) as [->|Hne].
  - apply night_falls_flag_stays. rewrite alive_flag_recorded, alive_flag_dies.
    rewrite Z.eqb_refl. destruct (alive_flag e y); [reflexivity | contradiction].
  - destruct Hin as [->|Hin]; [contradiction|]. apply IH; [assumption|].
    rewrite alive_flag_recorded, alive_flag_dies.
    destruct (Z.eqb_spec z y); [contradiction | assumption].
Qed.

(** A night whose death list names living players, each once: the
    resolution finishes, flags every one of them dead, moves them to the
    dead list in order, appends one kill record each and touches nobody
    else. *)
Lemma resolve_living (night : NightActions) (e : GameEngine) :
  consistent e ->
  NoDup (night_deaths night) ->
  (forall z, In z (night_deaths night) -> living e z) ->
  exists e',
    _resolve_night_actions night e = Done tt e'
    /\ consistent e'
    /\ (forall z, In z (night_deaths night) -> alive_flag e' z = Some false)
    /\ (forall z, ~ In z (night_deaths night) -> alive_flag e' z = alive_flag e z)
    /\ dead_players (game_state e') = dead_players (game_state e) ++ night_deaths night
    /\ history (game_state e')
       = history (game_state e)
         ++ map (fun z => mkActionRecord ActionType.KILL 0 (Some z) "夜晚"
                            (current_round (game_state e))) (night_deaths night).
Proof.
  intros Hc Hnd Hl. exists (night_falls (night_deaths night) e).
  assert (Hrun : _resolve_night_actions night e
                 = Done tt (night_falls (night_deaths night) e)).
  { rewrite resolve_unfold. now apply deaths_applied. }
  split; [exact Hrun|]. split; [|split; [|split; [|split]]].
  - pose proof (resolve_consistent night e Hc) as H. now rewrite Hrun in H.
  - intros z Hz. apply night_falls_flag_in; [assumption|].
    destruct Hc as (Hn & _). apply (living_flag e z Hn) in Hl; [|assumption].
    now rewrite Hl.
  - intros z Hz. now apply night_falls_flag_out.
  - apply night_falls_dead.
  - apply night_falls_history.
Qed.

Lemma ai_table_consistent : consistent ai_table.
Proof.
  apply (setup_consistent silent (new_engine true true [])).
  vm_compute. reflexivity.
Qed.

(** C7. With the werewolves on villager 5 and the witch poisoning player 0
    (alive, the seer), the poison never reaches the death list: resolution
    applies the kill of 5 only, and the night phase drops the poison even
    before it is written into the night actions. Player 0 stays alive and
    the only death is 5, where the specified deaths are 5 and 0. *)
Theorem C7_poison_on_player_0_is_dropped :
  night_deaths (night_of (Some 5) None (Some 0)) = [5]
  /\ _resolve_night_actions (night_of (Some 5) None (Some 0)) ai_table
     = Done tt (night_falls [5] ai_table)
  /\ alive_flag (night_falls [5] ai_table) 0 = Some true
  /\ (exists e', _process_night_phase (poison_script 5 0) ai_table = Done tt e'
                 /\ alive_flag e' 0 = Some true
                 /\ dead_players (game_state e') = [5]
                 /\ option_map witch_poison (night_actions (game_state e')) = Some None).
Proof.
  split; [reflexivity|]. split; [vm_compute; reflexivity|].
  split; [reflexivity|]. eexists. split; [vm_compute; reflexivity|].
  repeat split.
Qed.

(** Scenario B: werewolves on 5, no save, poison on 2: both die, 5 first. *)
Lemma scenario_B_two_deaths :
  night_deaths (night_of (Some 5) None (Some 2)) = [5; 2]
  /\ _resolve_night_actions (night_of (Some 5) None (Some 2)) ai_table
     = Done tt (night_falls [5; 2] ai_table)
  /\ dead_players (game_state (night_falls [5; 2] ai_table)) = [5; 2]
  /\ alive_players (game_state (night_falls [5; 2] ai_table)) = [0; 1; 3; 4; 6; 7; 8].
Proof.
  split; [reflexivity|]. split; [vm_compute; reflexivity|].
  split; vm_compute; reflexivity.
Qed.

(** C2. Werewolves and witch both on player 5: the first turn of the loop
    applies the death, the second finds 5 already removed and
    [alive_players.remove] raises ValueError; resolution does not complete.
    The same happens through the whole night phase when the AI players name
    the same target. *)
Theorem C2_second_death_of_same_player_raises :
  night_deaths (night_of (Some 5) None (Some 5)) = [5; 5]
  /\ _resolve_night_actions (night_of (Some 5) None (Some 5)) ai_table
     = Raised ValueError (night_falls [5] ai_table)
  /\ (exists e', _process_night_phase (poison_script 5 5) ai_table
                 = Raised ValueError e'
                 /\ dead_players (game_state e') = [5]).
Proof.
  split; [reflexivity|]. split; [vm_compute; reflexivity|].
  eexists. split; [vm_compute; reflexivity|]. reflexivity.
Qed.

(** ** The tally *)

Lemma dict_get_set (k k' : option Z) (v d : Z) (m : list (option Z * Z)) :
  dict_get opt_eqb k d (dict_set opt_eqb k' v m)
  = if opt_eqb k' k then v else dict_get opt_eqb k d m.
Proof.
  induction m as [|[k0 v0] m IH]; simpl.
  - now destruct (opt_eqb k' k).
  - destruct (opt_eqb k0 k') eqn:E0; simpl.
    + apply opt_eqb_eq in E0. subst k0.
      destruct (opt_eqb k' k); reflexivity.
    + destruct (opt_eqb k0 k) eqn:E1.
      * apply opt_eqb_eq in E1. subst k0.
        rewrite opt_eqb_sym, E0. reflexivity.
      * exact IH.
Qed.

Lemma dict_set_keys (k : option Z) (v : Z) (m : list (option Z * Z)) :
  map fst (dict_set opt_eqb k v m)
  = if existsb (opt_eqb k) (map fst m) then map fst m else map fst m ++ [k].
Proof.
  induction m as [|[k0 v0] m IH]; simpl; [reflexivity|].
  rewrite (opt_eqb_sym k k0). destruct (opt_eqb k0 k) eqn:E; simpl.
  - apply opt_eqb_eq in E. now subst k0.
  - rewrite IH. now destruct (existsb (opt_eqb k) (map fst m)).
Qed.

Lemma existsb_opt_In (k : option Z) (l : list (option Z)) :
  existsb (opt_eqb k) l = true <-> In k l.
Proof.
  rewrite existsb_exists. split.
  - intros [x [Hx E]]. apply opt_eqb_eq in E. now subst.
  - intro H. exists k. split; [assumption | apply opt_eqb_refl].
Qed.

Lemma dict_set_keys_In (k k' : option Z) (v : Z) (m : list (option Z * Z)) :
  In k (map fst (dict_set opt_eqb k' v m)) <-> k = k' \/ In k (map fst m).
Proof.
  rewrite dict_set_keys.
  destruct (existsb (opt_eqb k') (map fst m)) eqn:E.
  - apply existsb_opt_In in E. split; [auto|]. intros [->|H]; assumption.
  - rewrite in_app_iff. simpl. intuition.
Qed.

Lemma dict_set_keys_NoDup (k : option Z) (v : Z) (m : list (option Z * Z)) :
  NoDup (map fst m) -> NoDup (map fst (dict_set opt_eqb k v m)).
Proof.
  intro H. rewrite dict_set_keys.
  destruct (existsb (opt_eqb k) (map fst m)) eqn:E; [assumption|].
  apply NoDup_app; [assumption | repeat constructor; intros [] |].
  intros x Hx [<-|[]]. apply existsb_opt_In in Hx. congruence.
Qed.

Lemma tally_count (l : list (option Z)) (t : option Z) :
  forall acc,
    dict_get opt_eqb t 0 (fold_left tally_step l acc)
    = dict_get opt_eqb t 0 acc + len (filter (opt_eqb t) l).
Proof.
  induction l as [|x l IH]; intro acc; simpl.
  - unfold len. simpl. lia.
  - rewrite IH. unfold tally_step at 1. rewrite dict_get_set.
    rewrite (opt_eqb_sym t x). destruct (opt_eqb x t) eqn:E.
    + apply opt_eqb_eq in E. subst x. unfold len. cbn [List.length].
      rewrite Nat2Z.inj_succ. lia.
    + reflexivity.
Qed.

Lemma tally_keys (l : list (option Z)) (t : option Z) :
  forall acc,
    In t (map fst (fold_left tally_step l acc)) <-> In t (map fst acc) \/ In t l.
Proof.
  induction l as [|x l IH]; intro acc; simpl; [intuition|].
  rewrite IH. unfold tally_step at 1. rewrite dict_set_keys_In. intuition.
Qed.

Lemma tally_NoDup (l : list (option Z)) :
  forall acc, NoDup (map fst acc) -> NoDup (map fst (fold_left tally_step l acc)).
Proof.
  induction l as [|x l IH]; intros acc H; simpl; [assumption|].
  apply IH. now apply dict_set_keys_NoDup.
Qed.

Lemma count_votes_fold (votes : list (Z * option Z)) :
  count_votes votes = fold_left tally_step (map snd votes) [].
Proof. reflexivity. Qed.

Lemma count_votes_get (votes : list (Z * option Z)) (t : option Z) :
  dict_get opt_eqb t 0 (count_votes votes) = votes_for votes t.
Proof. rewrite count_votes_fold, tally_count. unfold votes_for. simpl. lia. Qed.

Lemma count_votes_keys (votes : list (Z * option Z)) (t : option Z) :
  In t (map fst (count_votes votes)) <-> In t (map snd votes).
Proof. rewrite count_votes_fold, tally_keys. simpl. intuition. Qed.

Lemma count_votes_NoDup (votes : list (Z * option Z)) :
  NoDup (map fst (count_votes votes)).
Proof. rewrite count_votes_fold. apply tally_NoDup. constructor. Qed.

Lemma votes_for_positive (votes : list (Z * option Z)) (t : option Z) :
  0 < votes_for votes t <-> In t (map snd votes).
Proof.
  unfold votes_for, len. split.
  - intro H. destruct (filter (opt_eqb t) (map snd votes)) as [|x l] eqn:E;
      [simpl in H; lia|].
    assert (Hx : In x (filter (opt_eqb t) (map snd votes))) by (rewrite E; now left).
    apply filter_In in Hx as [Hx Ex]. apply opt_eqb_eq in Ex. now subst.
  - intro H.
    assert (Hx : In t (filter (opt_eqb t) (map snd votes))).
    { apply filter_In. split; [assumption | apply opt_eqb_refl]. }
    destruct (filter (opt_eqb t) (map snd votes)); [contradiction|].
    cbn [List.length]. lia.
Qed.

Lemma dict_get_entry (m : list (option Z * Z)) (k : option Z) (v : Z) :
  NoDup (map fst m) -> In (k, v) m -> dict_get opt_eqb k 0 m = v.
Proof.
  induction m as [|[k0 v0] m IH]; simpl; [contradiction|].
  intros Hnd [H|H]; inversion Hnd as [|x l Hnot Hnd']; subst x l.
  - injection H as -> ->. now rewrite opt_eqb_refl.
  - destruct (opt_eqb k0 k) eqn:E; [|now apply IH].
    apply opt_eqb_eq in E. subst k0. exfalso. apply Hnot.
    change k with (fst (k, v)). now apply in_map.
Qed.

Lemma list_max_ge_first (rest : list Z) : forall c, c <= list_max c rest.
Proof.
  unfold list_max. induction rest as [|x rest IH]; intro c; simpl; [lia|].
  specialize (IH (Z.max c x)). lia.
Qed.

Lemma list_max_ge (rest : list Z) :
  forall c x, In x (c :: rest) -> x <= list_max c rest.
Proof.
  induction rest as [|y rest IH]; intros c x Hin.
  - destruct Hin as [E|[]]. subst x. apply list_max_ge_first.
  - change (list_max c (y :: rest)) with (list_max (Z.max c y) rest).
    destruct Hin as [E|[E|Hin]].
    + subst x. pose proof (list_max_ge_first rest (Z.max c y)). lia.
    + subst x. pose proof (list_max_ge_first rest (Z.max c y)). lia.
    + apply IH. now right.
Qed.

Lemma list_max_in (rest : list Z) : forall c, In (list_max c rest) (c :: rest).
Proof.
  unfold list_max. induction rest as [|y rest IH]; intro c; simpl; [now left|].
  destruct (IH (Z.max c y)) as [H|H]; [|right; now right].
  rewrite <- H. destruct (Z.max_spec c y) as [[_ ->]|[_ ->]]; auto.
Qed.

Lemma NoDup_map_filter {A B : Type} (f : A -> B) (g : A -> bool) (l : list A) :
  NoDup (map f l) -> NoDup (map f (filter g l)).
Proof.
  induction l as [|a l IH]; simpl; [constructor|].
  intro Hnd. inversion Hnd as [|x l' Hnot Hnd']; subst x l'.
  destruct (g a); simpl; [constructor|]; auto.
  intro H. apply Hnot. apply in_map_iff in H as [b [E Hb]].
  apply filter_In in Hb as [Hb _]. rewrite <- E. now apply in_map.
Qed.

Lemma top_voted_NoDup (vc : list (option Z * Z)) :
  NoDup (map fst vc) -> NoDup (top_voted vc).
Proof.
  intro H. unfold top_voted. destruct vc as [|[k c] rest]; [constructor|].
  now apply NoDup_map_filter.
Qed.

Lemma top_voted_In (vc : list (option Z * Z)) (t : option Z) :
  In t (top_voted vc) <->
  exists c, In (t, c) vc /\ forall t' c', In (t', c') vc -> c' <= c.
Proof.
  unfold top_voted. destruct vc as [|[k0 c0] rest].
  - split; [contradiction | intros [c [[] _]]].
  - set (vc := (k0, c0) :: rest).
    set (m := list_max c0 (map snd rest)).
    assert (Hge : forall t' c', In (t', c') vc -> c' <= m).
    { intros t' c' H. apply list_max_ge.
      change (c0 :: map snd rest) with (map snd vc).
      change c' with (snd (t', c')). now apply in_map. }
    assert (Hin : exists t0, In (t0, m) vc).
    { pose proof (list_max_in (map snd rest) c0) as H.
      change (c0 :: map snd rest) with (map snd vc) in H.
      apply in_map_iff in H as [[t0 c] [E H]]. simpl in E. subst c. eauto. }
    rewrite in_map_iff. split.
    + intros [[t1 c] [E H]]. simpl in E. subst t1.
      apply filter_In in H as [H Hc]. simpl in Hc. apply Z.eqb_eq in Hc.
      exists c. split; [assumption|]. subst c. exact Hge.
    + intros [c [H Hmax]]. exists (t, c). split; [reflexivity|].
      apply filter_In. split; [assumption|]. simpl. apply Z.eqb_eq.
      destruct Hin as [t0 H0]. pose proof (Hmax _ _ H0). pose proof (Hge _ _ H). lia.
Qed.

Lemma votes_for_nonneg (votes : list (Z * option Z)) (t : option Z) :
  0 <= votes_for votes t.
Proof. apply len_nonneg. Qed.

Lemma count_votes_entry (votes : list (Z * option Z)) (t : option Z) (c : Z) :
  In (t, c) (count_votes votes) -> c = votes_for votes t /\ 0 < c.
Proof.
  intro H. pose proof (dict_get_entry _ _ _ (count_votes_NoDup votes) H) as E.
  rewrite count_votes_get in E. split; [now symmetry|]. rewrite <- E.
  apply votes_for_positive, count_votes_keys.
  change t with (fst (t, c)). now apply in_map.
Qed.

Lemma count_votes_has (votes : list (Z * option Z)) (t : option Z) :
  0 < votes_for votes t -> In (t, votes_for votes t) (count_votes votes).
Proof.
  intro H. apply votes_for_positive, count_votes_keys, in_map_iff in H
    as [[t' c] [E H]].
  simpl in E. subst t'. now destruct (count_votes_entry _ _ _ H) as [-> _].
Qed.

(** The ids the code keeps after the tally are exactly the targets holding
    the maximum, each listed once. *)
Lemma top_voted_at_maximum (votes : list (Z * option Z)) (t : option Z) :
  In t (top_voted (count_votes votes)) <-> at_maximum votes t.
Proof.
  rewrite top_voted_In. unfold at_maximum. split.
  - intros [c [H Hmax]]. destruct (count_votes_entry _ _ _ H) as [-> Hpos].
    split; [assumption|]. intro t'.
    destruct (Z.lt_ge_cases 0 (votes_for votes t')) as [Hp|Hp]; [|lia].
    apply (Hmax t'). now apply count_votes_has.
  - intros [Hpos Hmax]. exists (votes_for votes t).
    split; [now apply count_votes_has|].
    intros t' c' H. destruct (count_votes_entry _ _ _ H) as [-> _]. apply Hmax.
Qed.

Lemma single_member {A : Type} (l : list A) (x : A) :
  NoDup l -> (forall y, In y l <-> y = x) -> l = [x].
Proof.
  intros Hnd H. destruct l as [|a l]; [exfalso; now apply (H x)|].
  assert (a = x) by (apply H; now left). subst a.
  destruct l as [|b l]; [reflexivity|].
  assert (b = x) by (apply H; right; now left). subst b.
  inversion Hnd as [|? ? Hnot _]. exfalso. apply Hnot. now left.
Qed.

Lemma top_voted_unique (votes : list (Z * option Z)) (t : option Z) :
  at_maximum votes t -> (forall t', at_maximum votes t' -> t' = t) ->
  top_voted (count_votes votes) = [t].
Proof.
  intros Ht Hu. apply single_member.
  - apply top_voted_NoDup, count_votes_NoDup.
  - intro y. rewrite top_voted_at_maximum. split; [apply Hu | now intros ->].
Qed.

Lemma top_voted_tie (votes : list (Z * option Z)) (t1 t2 : option Z) :
  at_maximum votes t1 -> at_maximum votes t2 -> t1 <> t2 ->
  exists a b l, top_voted (count_votes votes) = a :: b :: l.
Proof.
  intros H1 H2 Hne. apply top_voted_at_maximum in H1, H2.
  destruct (top_voted (count_votes votes)) as [|a [|b l]]; [contradiction| |eauto].
  destruct H1 as [<-|[]], H2 as [<-|[]]. contradiction.
Qed.

(** ** Computations that only consult the outside world *)

Lemma quiet_ret {A : Type} (a : A) : quiet (ret a).
Proof. intros e a' e' [= _ <-]. now split. Qed.

Lemma quiet_raise {A : Type} (x : Exn) : quiet (@raise A x).
Proof. intros e a' e' H. discriminate H. Qed.

Lemma quiet_get : quiet get.
Proof. intros e a' e' [= _ <-]. now split. Qed.

Lemma quiet_bind {A B : Type} (c : M A) (k : A -> M B) :
  quiet c -> (forall a, quiet (k a)) -> quiet (bind c k).
Proof.
  intros Hc Hk e b e' H. apply bind_Done in H as (a & e1 & H1 & H2).
  destruct (Hc _ _ _ H1) as [<- <-]. exact (Hk a _ _ _ H2).
Qed.

Lemma quiet_tick : quiet tick.
Proof. intros e a e' [= _ <-]. now destruct e. Qed.

Lemma quiet_await {A : Type} (call : nat -> reply A) : quiet (await call).
Proof.
  unfold await. apply quiet_bind; [apply quiet_tick|]. intro n.
  destruct (call n); [apply quiet_ret | apply quiet_raise].
Qed.

Lemma quiet_random_choice (env : Env) {A : Type} (l : list A) :
  quiet (random_choice env l).
Proof.
  destruct l; [apply quiet_raise|]. simpl.
  apply quiet_bind; [apply quiet_tick | intro; apply quiet_ret].
Qed.

Lemma quiet_random_target (env : Env) (l : list Player) : quiet (random_target env l).
Proof.
  unfold random_target. apply quiet_bind; [apply quiet_random_choice|].
  intro. apply quiet_ret.
Qed.

Lemma quiet_input_until (valid : Z -> bool) : quiet (input_until valid).
Proof.
  intros e a e'. unfold input_until.
  destruct (first_valid valid (stdin e)) as [[z|] rest]; [|discriminate].
  intros [= _ <-]. now destruct e.
Qed.

Lemma quiet_cast_vote (env : Env) (alive_now : list Player)
  (votes : list (Z * option Z)) (voter : Player) :
  quiet (cast_vote env alive_now votes voter).
Proof.
  unfold cast_vote. apply quiet_bind; [apply quiet_get|intro e0].
  apply quiet_bind; [|intro; apply quiet_ret].
  destruct (has_ai_player e0 voter); [apply quiet_await|].
  destruct (is_human_turn e0 (id voter)).
  - apply quiet_bind; [apply quiet_input_until | intro; apply quiet_ret].
  - apply quiet_bind; [apply quiet_random_choice | intro; apply quiet_ret].
Qed.

Lemma quiet_collect_votes (env : Env) (alive_now voters : list Player) :
  forall votes, quiet (collect_votes env alive_now voters votes).
Proof.
  induction voters as [|v voters IH]; intro votes; simpl; [apply quiet_ret|].
  apply quiet_bind; [apply quiet_cast_vote | intro; apply IH].
Qed.

Lemma votes_cast_frame (env : Env) (e e2 : GameEngine) (votes : list (Z * option Z)) :
  votes_cast env e votes e2 ->
  players e2 = players e
  /\ game_state e2 = set_phase PhaseType.VOTE (game_state e).
Proof.
  intro H. apply quiet_collect_votes in H as [H1 H2]. now rewrite H1, H2.
Qed.

Lemma votes_cast_consistent (env : Env) (e e2 : GameEngine)
  (votes : list (Z * option Z)) :
  consistent e -> votes_cast env e votes e2 -> consistent e2.
Proof.
  intros Hc H. destruct (votes_cast_frame _ _ _ _ H) as [Hp Hg].
  apply (consistent_same_flags e e2); [now rewrite Hp..| | |assumption];
    now rewrite Hg.
Qed.

(** ** The vote phase, step by step *)

Lemma bind_eq {A B : Type} (c : M A) (k : A -> M B) (e e' : GameEngine) (a : A) :
  c e = Done a e' -> bind c k e = k a e'.
Proof. intro H. unfold bind. now rewrite H. Qed.

Lemma vote_phase_after_votes (env : Env) (e e2 : GameEngine)
  (votes : list (Z * option Z)) :
  votes_cast env e votes e2 ->
  _process_vote_phase env e
  = match top_voted (count_votes votes) with
    | [eliminated_id] =>
        (player <- next_player eliminated_id ;;
         alive_false player ;;;
         alive_players_remove (id player) ;;;
         dead_players_append (id player) ;;;
         modify_state (set_voted_player eliminated_id) ;;;
         role_value player ;;;
         history_append ActionType.VOTE (id player) "投票" ;;;
         if role_is RoleType.HUNTER player
         then _process_hunter_shoot env (set_alive false player)
         else ret tt) e2
    | _ => Done tt e2
    end.
Proof.
  intro H. unfold _process_vote_phase.
  unfold bind at 1. unfold modify_state at 1. unfold modify at 1.
  unfold bind at 1. unfold get at 1.
  erewrite bind_eq by exact H.
  destruct (top_voted (count_votes votes)) as [|x [|y l]]; reflexivity.
Qed.

Lemma vote_phase_unique (env : Env) (e e2 : GameEngine)
  (votes : list (Z * option Z)) (h : Z) (p : Player) :
  consistent e -> votes_cast env e votes e2 ->
  top_voted (count_votes votes) = [Some h] ->
  find_player (Some h) (players e) = Some p -> alive p = true -> role p <> None ->
  _process_vote_phase env e
  = if role_is RoleType.HUNTER p
    then _process_hunter_shoot env (set_alive false p) (voted_out h e2)
    else Done tt (voted_out h e2).
Proof.
  intros Hc Hv Htop Hf Ha Hr.
  rewrite (vote_phase_after_votes env e e2 votes Hv), Htop.
  pose proof (votes_cast_consistent env e e2 votes Hc Hv) as (Hnd & Hal & _).
  destruct (votes_cast_frame _ _ _ _ Hv) as [Hp _]. rewrite <- Hp in Hf.
  destruct (find_player_Some _ _ _ Hf) as [_ Hid].
  erewrite bind_eq by (rewrite next_player_eval, Hf; reflexivity).
  rewrite Hid. rewrite (kill_sequence _ e2 p h Hnd Hal Hf), Ha.
  unfold bind at 1. unfold modify_state at 1. unfold modify at 1.
  unfold bind at 1. unfold role_value.
  destruct (role p) as [r|]; [|contradiction]. unfold ret at 1.
  unfold bind at 1. unfold history_append, modify_state, modify.
  destruct (role_is RoleType.HUNTER p); reflexivity.
Qed.

Lemma vote_phase_tie (env : Env) (e e2 : GameEngine)
  (votes : list (Z * option Z)) (a b : option Z) (l : list (option Z)) :
  votes_cast env e votes e2 ->
  top_voted (count_votes votes) = a :: b :: l ->
  _process_vote_phase env e = Done tt e2.
Proof.
  intros Hv Htop. now rewrite (vote_phase_after_votes env e e2 votes Hv), Htop.
Qed.

Lemma voted_out_flag (h z : Z) (e : GameEngine) :
  alive_flag (voted_out h e) z
  = if z =? h then option_map (fun _ => false) (alive_flag e h) else alive_flag e z.
Proof. exact (alive_flag_dies h z e). Qed.

Lemma voted_out_consistent (h : Z) (e : GameEngine) (p : Player) :
  consistent e -> find_player (Some h) (players e) = Some p -> alive p = true ->
  consistent (voted_out h e).
Proof. intros Hc Hf Ha. exact (dies_consistent h e p Hc Hf Ha). Qed.

Lemma alive_flag_frame (e e' : GameEngine) (z : Z) :
  players e' = players e -> alive_flag e' z = alive_flag e z.
Proof. unfold alive_flag. now intros ->. Qed.

(** C5. Once the votes are cast: when a living player [h] (with a role) is
    the only target holding the maximum, the phase votes exactly [h] out -
    flag down, id moved from the alive to the dead list, [voted_player] set,
    one vote record appended, every other flag untouched - and then only
    hands over to the hunter's shot when [h] is the hunter. When two
    different targets hold the maximum the phase ends at once in the state
    the votes left: nobody is eliminated, nothing is drawn. *)
Theorem C5_vote_tally (env : Env) (e e2 : GameEngine) (votes : list (Z * option Z)) :
  consistent e -> votes_cast env e votes e2 ->
  (forall h p,
      at_maximum votes (Some h) ->
      (forall t, at_maximum votes t -> t = Some h) ->
      find_player (Some h) (players e) = Some p -> alive p = true ->
      role p <> None ->
      _process_vote_phase env e
      = (if role_is RoleType.HUNTER p
         then _process_hunter_shoot env (set_alive false p) (voted_out h e2)
         else Done tt (voted_out h e2))
      /\ alive_flag (voted_out h e2) h = Some false
      /\ (forall z, z <> h -> alive_flag (voted_out h e2) z = alive_flag e z)
      /\ voted_player (game_state (voted_out h e2)) = Some h
      /\ history (game_state (voted_out h e2))
         = history (game_state e)
           ++ [mkActionRecord ActionType.VOTE 0 (Some h) "投票"
                 (current_round (game_state e))]
      /\ alive_players (game_state (voted_out h e2))
         = without h (alive_players (game_state e))
      /\ dead_players (game_state (voted_out h e2))
         = dead_players (game_state e) ++ [h])
  /\ (forall t1 t2,
        at_maximum votes t1 -> at_maximum votes t2 -> t1 <> t2 ->
        _process_vote_phase env e = Done tt e2
        /\ players e2 = players e
        /\ game_state e2 = set_phase PhaseType.VOTE (game_state e)
        /\ clock (final (_process_vote_phase env e)) = clock e2).
Proof.
  intros Hc Hv. destruct (votes_cast_frame _ _ _ _ Hv) as [Hp Hg]. split.
  - intros h p Hmax Hu Hf Ha Hr.
    split; [|split; [|split; [|split; [|split; [|split]]]]].
    + apply (vote_phase_unique env e e2 votes h p); auto.
      now apply top_voted_unique.
    + rewrite voted_out_flag, Z.eqb_refl, (alive_flag_frame e e2 h Hp).
      unfold alive_flag. now rewrite Hf.
    + intros z Hz. rewrite voted_out_flag.
      destruct (Z.eqb_spec z h); [contradiction|]. now apply alive_flag_frame.
    + reflexivity.
    + cbn. now rewrite Hg.
    + cbn. now rewrite Hg.
    + cbn. now rewrite Hg.
  - intros t1 t2 H1 H2 Hne.
    destruct (top_voted_tie votes t1 t2 H1 H2 Hne) as (a & b & l & Htop).
    pose proof (vote_phase_tie env e e2 votes a b l Hv Htop) as Hrun.
    rewrite Hrun. auto.
Qed.

(** Scenario C, the 3-3-3 tie between 2, 4 and 6, eliminates nobody and
    leaves [voted_player] empty; eight votes for villager 3 vote him out. *)
Lemma C5_scenario_C_tie_and_a_plain_majority :
  (_process_vote_phase tie_script ai_table
   = Done tt (final (cast_at tie_script ai_table))
   /\ voted_player (game_state (final (cast_at tie_script ai_table))) = None
   /\ alive_players (game_state (final (cast_at tie_script ai_table)))
      = [0; 1; 2; 3; 4; 5; 6; 7; 8])
  /\ (_process_vote_phase villager_script ai_table
      = Done tt (voted_out 3 (final (cast_at villager_script ai_table)))
      /\ alive_flag (voted_out 3 (final (cast_at villager_script ai_table))) 3
         = Some false).
Proof.
  split.
  - destruct (C5_vote_tally tie_script ai_table (final (cast_at tie_script ai_table))
                tie_votes ai_table_consistent) as [_ H].
    + vm_compute. reflexivity.
    + destruct (H (Some 2) (Some 4)) as (Hrun & _ & Hg & _).
      * apply top_voted_at_maximum. vm_compute. auto.
      * apply top_voted_at_maximum. vm_compute. auto.
      * discriminate.
      * split; [exact Hrun|]. rewrite Hg. split; reflexivity.
  - destruct (C5_vote_tally villager_script ai_table
                (final (cast_at villager_script ai_table))
                villager_votes ai_table_consistent) as [H _].
    + vm_compute. reflexivity.
    + destruct (H 3 (mkPlayer 3 (Some RoleType.VILLAGER) true true true true None None))
        as (Hrun & Hflag & _).
      * apply top_voted_at_maximum. vm_compute. auto.
      * intros x Hx. apply top_voted_at_maximum in Hx. vm_compute in Hx.
        destruct Hx as [<-|[]]. reflexivity.
      * reflexivity.
      * reflexivity.
      * discriminate.
      * split; [exact Hrun | exact Hflag].
Defined.

(** ** The hunter's shot after the vote *)

Lemma consistent_frame (e e' : GameEngine) :
  players e' = players e -> game_state e' = game_state e ->
  consistent e -> consistent e'.
Proof.
  intros Hp Hg. apply consistent_same_flags; now rewrite ?Hp, ?Hg.
Qed.

Lemma hunter_picks_frame (env : Env) (hunter : Player) (e e' : GameEngine) (t : Z) :
  hunter_picks env hunter e t e' ->
  players e' = players e /\ game_state e' = game_state e
  /\ (is_human_turn e (id hunter) = false -> clock e' = S (clock e)).
Proof.
  unfold hunter_picks. destruct (is_human_turn e (id hunter)).
  - intros (rest & _ & ->). repeat split; [now destruct e..|discriminate].
  - destruct (enable_ai_mode e && mem (id hunter) (ai_players e)).
    + unfold await, bind, tick.
      destruct (choose_hunter_target env (clock e) (id hunter) (players e)
                  (game_state e)); [|discriminate].
      intros [= _ <-]. now destruct e.
    + unfold random_target, random_choice.
      destruct (filter alive (players e)); [discriminate|].
      unfold bind, tick, ret. intros [= _ <-]. now destruct e.
Qed.

Lemma flag_true_found (e : GameEngine) (t : Z) :
  alive_flag e t = Some true ->
  exists p, find_player (Some t) (players e) = Some p /\ alive p = true.
Proof.
  unfold alive_flag. destruct (find_player (Some t) (players e)) as [p|];
    [|discriminate].
  intros [= Ha]. eauto.
Qed.

Lemma hunter_reads_first_valid (e : GameEngine) (t : Z) (rest : list (option Z)) :
  consistent e ->
  forall lines,
    first_valid (fun z => mem z (map id (filter alive (players e)))) lines
    = (Some t, rest) ->
    hunter_reads (map id (filter alive (players e))) lines e
    = Done tt (dies t (set_stdin rest e)).
Proof.
  intros Hc. induction lines as [|[z|] lines IH]; cbn [first_valid].
  - discriminate.
  - destruct (mem z (map id (filter alive (players e)))) eqn:Hm.
    + intros [= -> ->]. rewrite (hunter_reads_step _ t rest e Hc Hm).
      apply mem_In, in_ids_filter in Hm.
      apply (living_flag e t (proj1 Hc)), flag_true_found in Hm
        as (p & -> & ->).
      reflexivity.
    + intro H. cbn [hunter_reads]. rewrite Hm. now apply IH.
  - intro H. cbn [hunter_reads]. now apply IH.
Qed.

(** The shot: whoever the hunter names among the living dies, at once and
    without a further request. *)
Lemma hunter_shoot_picks (env : Env) (hunter : Player) (e e' : GameEngine) (t : Z) :
  consistent e -> hunter_picks env hunter e t e' -> alive_flag e t = Some true ->
  _process_hunter_shoot env hunter e = Done tt (dies t e').
Proof.
  intros Hc Hpick Hflag.
  destruct (hunter_picks_frame env hunter e e' t Hpick) as (Hp & Hg & _).
  unfold _process_hunter_shoot. unfold bind at 1. unfold get at 1.
  unfold hunter_picks in Hpick. destruct (is_human_turn e (id hunter)).
  - destruct Hpick as (rest & Hfirst & ->).
    now apply hunter_reads_first_valid.
  - erewrite bind_eq by exact Hpick.
    destruct (flag_true_found e t Hflag) as (p & Hf & Ha). rewrite <- Hp in Hf.
    erewrite bind_eq by (rewrite next_player_eval, Hf; reflexivity).
    destruct (find_player_Some _ _ _ Hf) as [_ Hid]. rewrite Hid.
    pose proof (consistent_frame e e' Hp Hg Hc) as (Hnd & Hal & _).
    rewrite (kill_sequence_last e' p t Hnd Hal Hid), Hf, Ha. reflexivity.
Qed.

(** C1 as the code has it. When the living player [h] voted out alone at
    the maximum is the hunter, and the hunter names a living player [t], the
    vote phase finishes with both dead: [h] voted out and recorded by a vote
    record (not a kill record), then [t] flagged dead and moved from the
    alive to the dead list, nobody else touched. A hunter who is not the
    human player is asked exactly once. The chain stops there, whatever the
    role of [t]. *)
Theorem C1_hunter_retaliation (env : Env) (e e2 e4 : GameEngine)
  (votes : list (Z * option Z)) (h t : Z) (p : Player) :
  consistent e -> votes_cast env e votes e2 ->
  at_maximum votes (Some h) ->
  (forall x, at_maximum votes x -> x = Some h) ->
  find_player (Some h) (players e) = Some p -> alive p = true ->
  role p = Some RoleType.HUNTER ->
  hunter_picks env (set_alive false p) (voted_out h e2) t e4 ->
  alive_flag (voted_out h e2) t = Some true ->
  _process_vote_phase env e = Done tt (dies t e4)
  /\ t <> h
  /\ alive_flag (dies t e4) h = Some false
  /\ alive_flag (dies t e4) t = Some false
  /\ (forall z, z <> h -> z <> t -> alive_flag (dies t e4) z = alive_flag e z)
  /\ alive_players (game_state (dies t e4))
     = without t (without h (alive_players (game_state e)))
  /\ dead_players (game_state (dies t e4)) = dead_players (game_state e) ++ [h; t]
  /\ voted_player (game_state (dies t e4)) = Some h
  /\ (exists tail,
        history (game_state (dies t e4))
        = history (game_state e)
          ++ mkActionRecord ActionType.VOTE 0 (Some h) "投票"
               (current_round (game_state e)) :: tail)
  /\ (is_human_turn (voted_out h e2) h = false -> clock (dies t e4) = S (clock e2))
  /\ partitioned (dies t e4).
Proof.
  intros Hc Hv Hmax Hu Hf Ha Hr Hpick Hflag.
  destruct (votes_cast_frame _ _ _ _ Hv) as [Hp Hg].
  pose proof (votes_cast_consistent env e e2 votes Hc Hv) as Hc2.
  assert (Hf2 : find_player (Some h) (players e2) = Some p) by now rewrite Hp.
  pose proof (voted_out_consistent h e2 p Hc2 Hf2 Ha) as Hc3.
  destruct (hunter_picks_frame _ _ _ _ _ Hpick) as (Hp4 & Hg4 & Hclock).
  pose proof (consistent_frame _ _ Hp4 Hg4 Hc3) as Hc4.
  assert (Hflag4 : alive_flag e4 t = Some true)
    by now rewrite (alive_flag_frame _ _ t Hp4).
  assert (Hh3 : alive_flag (voted_out h e2) h = Some false).
  { rewrite voted_out_flag, Z.eqb_refl. unfold alive_flag. now rewrite Hf2. }
  assert (Hne : t <> h) by (intros ->; congruence).
  split; [|split; [exact Hne|split; [|split; [|split; [|split; [|split;
          [|split; [|split; [|split]]]]]]]]].
  - rewrite (vote_phase_unique env e e2 votes h p Hc Hv); auto.
    + unfold role_is. rewrite Hr. simpl.
      now apply hunter_shoot_picks.
    + now apply top_voted_unique.
    + rewrite Hr. discriminate.
  - rewrite alive_flag_dies. destruct (Z.eqb_spec h t); [congruence|].
    now rewrite (alive_flag_frame _ _ h Hp4).
  - rewrite alive_flag_dies, Z.eqb_refl, Hflag4. reflexivity.
  - intros z Hzh Hzt. rewrite alive_flag_dies.
    destruct (Z.eqb_spec z t); [contradiction|].
    rewrite (alive_flag_frame _ _ z Hp4), voted_out_flag.
    destruct (Z.eqb_spec z h); [contradiction|]. now apply alive_flag_frame.
  - cbn. rewrite Hg4. cbn. now rewrite Hg.
  - cbn. rewrite Hg4. cbn. rewrite Hg, <- app_assoc. reflexivity.
  - cbn. rewrite Hg4. reflexivity.
  - exists []. cbn. rewrite Hg4. cbn. now rewrite Hg.
  - intro Hhuman. cbn. rewrite Hclock; [reflexivity|].
    destruct (find_player_Some _ _ _ Hf) as [_ Hid]. cbn [id set_alive].
    now rewrite Hid.
  - apply consistent_partitioned.
    destruct (flag_true_found e4 t Hflag4) as (q & Hq & Hqa).
    exact (dies_consistent t e4 q Hc4 Hq Hqa).
Qed.

(** Scenario D at the nine-player table: the hunter (player 2) is voted
    out and names player 7. *)
Lemma C1_hunter_takes_player_7 :
  alive_flag (final (_process_vote_phase hunter_script ai_table)) 2 = Some false
  /\ alive_flag (final (_process_vote_phase hunter_script ai_table)) 7 = Some false
  /\ dead_players (game_state (final (_process_vote_phase hunter_script ai_table)))
     = [2; 7].
Proof.
  destruct (C1_hunter_retaliation hunter_script ai_table
              (final (cast_at hunter_script ai_table))
              (set_clock 12 (voted_out 2 (final (cast_at hunter_script ai_table))))
              hunter_votes 2 7 the_hunter ai_table_consistent)
    as (Hrun & _ & H2 & H7 & _ & _ & Hdead & _).
  - vm_compute. reflexivity.
  - apply top_voted_at_maximum. vm_compute. auto.
  - intros x Hx. apply top_voted_at_maximum in Hx. vm_compute in Hx.
    destruct Hx as [<-|[]]. reflexivity.
  - reflexivity.
  - reflexivity.
  - reflexivity.
  - vm_compute. reflexivity.
  - reflexivity.
  - rewrite Hrun. cbn [final]. split; [exact H2|]. split; [exact H7|exact Hdead].
Defined.

(** In scenario D the phase completes, players 2 and 7 are dead, and the
    history holds a single record, of kind vote: there is no kill record,
    let alone two. *)
Lemma C1_scenario_D_has_no_kill_record :
  exists e',
    _process_vote_phase hunter_script ai_table = Done tt e'
    /\ voted_player (game_state e') = Some 2
    /\ alive_flag e' 7 = Some false
    /\ map action_type (history (game_state e')) = [ActionType.VOTE]
    /\ count_kind ActionType.KILL (history (game_state e')) = 0%nat
    /\ count_kind ActionType.KILL (history (game_state e')) <> 2%nat.
Proof.
  eexists. split; [vm_compute; reflexivity|].
  repeat split. discriminate.
Qed.

(** ** Role assignment *)

Lemma nth_error_skipn {A : Type} (l : list A) :
  forall i r, nth_error l i = Some r -> skipn i l = r :: skipn (S i) l.
Proof.
  induction l as [|a l IH]; intros [|i] r; simpl; try discriminate.
  - now intros [= ->].
  - intro H. now rewrite (IH i r H).
Qed.

Lemma assign_from_ok (rl : list RoleType.t) (ps : list Player) :
  forall i, (i + List.length ps <= List.length rl)%nat ->
            snd (assign_from rl i ps) = None
            /\ map role (fst (assign_from rl i ps))
               = map Some (firstn (List.length ps) (skipn i rl)).
Proof.
  induction ps as [|p ps IH]; intros i Hle; cbn [assign_from List.length].
  - now split.
  - cbn [List.length] in Hle.
    destruct (nth_error rl i) as [r|] eqn:E.
    + destruct (IH (S i)) as [H1 H2]; [lia|].
      destruct (assign_from rl (S i) ps) as [rest' x]. cbn [fst snd] in *.
      split; [assumption|]. rewrite (nth_error_skipn rl i r E).
      cbn [firstn map role set_role]. now rewrite H2.
    + apply nth_error_None in E. lia.
Qed.

Lemma assign_from_fail (rl : list RoleType.t) (ps : list Player) :
  forall i, (i <= List.length rl)%nat ->
            (List.length rl < i + List.length ps)%nat ->
            snd (assign_from rl i ps) = Some IndexError.
Proof.
  induction ps as [|p ps IH]; intros i Hi Hlt; cbn [assign_from List.length] in *.
  - lia.
  - destruct (nth_error rl i) as [r|] eqn:E; [|reflexivity].
    assert (i < List.length rl)%nat by (apply nth_error_Some; congruence).
    specialize (IH (S i)). destruct (assign_from rl (S i) ps) as [rest' x].
    cbn [snd] in *. apply IH; lia.
Qed.

Lemma role_list_length : List.length (build_role_list role_distribution) = 9%nat.
Proof. reflexivity. Qed.

Lemma assign_roles_eval (env : Env) (ps : list Player) (e : GameEngine) :
  assign_roles env ps e
  = let role_list := shuffle env (clock e) (build_role_list role_distribution) in
    let e' := set_players (fst (assign_from role_list 0 ps)) (set_clock (S (clock e)) e) in
    match snd (assign_from role_list 0 ps) with
    | None => Done (fst (assign_from role_list 0 ps)) e'
    | Some x => Raised x e'
    end.
Proof.
  unfold assign_roles, bind, tick. cbv zeta.
  destruct (assign_from (shuffle env (clock e) (build_role_list role_distribution)) 0 ps)
    as [upd [x|]]; reflexivity.
Qed.

Lemma bind_Raised {A B : Type} (c : M A) (k : A -> M B) (e e' : GameEngine) (x : Exn) :
  c e = Raised x e' -> bind c k e = Raised x e'.
Proof. intro H. unfold bind. now rewrite H. Qed.

Lemma create_players_length (env : Env) (n : Z) (spectator : bool)
  (e e' : GameEngine) (ps : list Player) (h : option Z) :
  create_players env n spectator e = Done (ps, h) e' ->
  List.length ps = Z.to_nat n /\ clock e' = (if spectator then clock e else S (clock e)).
Proof.
  intro H. destruct (create_players_Done _ _ _ _ _ _ _ H) as [Hid _].
  split.
  - rewrite <- (length_map id), Hid, length_map. apply length_seq.
  - unfold create_players in H. destruct spectator; simpl in H.
    + unfold bind, ret in H. now injection H as _ _ <-.
    + unfold bind, randint in H. destruct (n - 1 <? 0); [discriminate|].
      unfold bind, tick, ret in H. now injection H as _ _ <-.
Qed.

(** C3 as the code has it. [assign_roles] works from its own fixed
    distribution of nine roles and checks no size: with at most nine
    players it succeeds and gives the player at position [i] the role at
    position [i] of the shuffled list; with exactly nine the roles assigned
    are a rearrangement of the distribution; with more than nine it raises
    (an index error), and a setup for more than nine players then answers
    [False], so that no round is played. *)
Theorem C3_assign_roles (env : Env) (ps : list Player) (e : GameEngine) :
  shuffle_rearranges env ->
  let role_list := shuffle env (clock e) (build_role_list role_distribution) in
  let assigned := fst (assign_from role_list 0 ps) in
  Permutation (build_role_list role_distribution) role_list
  /\ ((List.length ps <= 9)%nat ->
      (exists e', assign_roles env ps e = Done assigned e' /\ players e' = assigned)
      /\ map id assigned = map id ps
      /\ map role assigned = map Some (firstn (List.length ps) role_list))
  /\ (List.length ps = 9%nat ->
      Permutation (map role assigned)
                  (map Some (build_role_list role_distribution)))
  /\ ((9 < List.length ps)%nat ->
      exists e', assign_roles env ps e = Raised IndexError e')
  /\ (9 < num_players e -> exists e', initialize_game env e = Done false e').
Proof.
  intros Hsh role_list assigned.
  assert (Hperm : Permutation (build_role_list role_distribution) role_list)
    by apply Hsh.
  assert (Hlen : List.length role_list = 9%nat)
    by (rewrite <- (Permutation_length Hperm); apply role_list_length).
  split; [exact Hperm|]. split; [|split; [|split]].
  - intro Hle. destruct (assign_from_ok role_list ps 0%nat) as [Hnone Hroles]; [lia|].
    split; [|split].
    + rewrite assign_roles_eval. cbv zeta. fold role_list. rewrite Hnone.
      eexists. split; reflexivity.
    + apply assign_from_ids.
    + exact Hroles.
  - intro H9. destruct (assign_from_ok role_list ps 0%nat) as [_ Hroles]; [lia|].
    fold assigned in Hroles. rewrite Hroles, H9, <- Hlen. cbn [skipn].
    rewrite firstn_all. apply Permutation_map. now symmetry.
  - intro Hgt. rewrite assign_roles_eval. cbv zeta. fold role_list.
    rewrite (assign_from_fail role_list ps 0%nat) by lia. eexists. reflexivity.
  - intro Hn. unfold initialize_game, try_except.
    destruct (create_players_total env (num_players e) (spectator_mode e) e)
      as (created & h & e1 & Hcreate); [right; lia|].
    destruct (create_players_length _ _ _ _ _ _ _ Hcreate) as [Hcl _].
    match goal with |- context [match ?c e with _ => _ end] =>
      assert (Hraise : exists e', c e = Raised IndexError e') end.
    { unfold bind at 1. unfold get at 1.
      erewrite bind_eq by exact Hcreate.
      unfold bind at 1. unfold modify at 1. cbn [fst snd].
      eexists. apply bind_Raised. rewrite assign_roles_eval. cbv zeta.
      rewrite assign_from_fail; [reflexivity|lia|].
      rewrite (Permutation_length (Permutation_sym (Hsh _ _))), role_list_length.
      rewrite Hcl. lia. }
    destruct Hraise as [e' ->]. eexists. reflexivity.
Qed.

(** Nine fresh players receive a rearrangement of the nine roles. *)
Lemma C3_nine_players_get_the_nine_roles :
  Permutation
    (map role (fst (assign_from (build_role_list role_distribution) 0
                                (fresh_players 9))))
    (map Some (build_role_list role_distribution)).
Proof.
  destruct (C3_assign_roles silent (fresh_players 9) (engine_for 9))
    as (_ & _ & H & _).
  - intros n l. apply Permutation_refl.
  - apply H. reflexivity.
Defined.

(** Five players against the nine roles of the distribution: no error is
    raised, setup answers [True] and the game would start with the first
    five roles of the list, no werewolf among them. *)
Lemma C3_five_players_are_assigned_without_error :
  List.length (build_role_list role_distribution) = 9%nat
  /\ List.length (fresh_players 5) = 5%nat
  /\ (exists e', assign_roles silent (fresh_players 5) (engine_for 5)
                 = Done (players e') e'
                 /\ map role (players e')
                    = [Some RoleType.SEER; Some RoleType.WITCH; Some RoleType.HUNTER;
                       Some RoleType.VILLAGER; Some RoleType.VILLAGER])
  /\ (exists e', initialize_game silent (engine_for 5) = Done true e'
                 /\ List.length (players e') = 5%nat).
Proof.
  split; [reflexivity|]. split; [reflexivity|]. split.
  - exists (final (assign_roles silent (fresh_players 5) (engine_for 5))).
    split; vm_compute; reflexivity.
  - exists (final (initialize_game silent (engine_for 5))).
    split; vm_compute; reflexivity.
Qed.

(** ** Failing AI players *)

Lemma random_target_total (env : Env) (p0 : Player) (l : list Player) (e : GameEngine) :
  exists t, random_target env (p0 :: l) e = Done (Some t) (set_clock (S (clock e)) e)
            /\ In t (map id (p0 :: l)).
Proof.
  unfold random_target, random_choice, bind, tick, ret.
  eexists. split; [reflexivity|]. apply in_map, nth_In.
  apply Nat.mod_upper_bound. discriminate.
Qed.

(** The decision block never raises when there is a candidate, and answers
    a candidate unless the AI player gave a non-null answer of its own. *)
Lemma decide_or_random_total (env : Env) (asker : Z)
  (ask : nat -> Z -> list Player -> GameState -> reply (option Z))
  (p0 : Player) (l : list Player) (e : GameEngine) :
  exists t e',
    decide_or_random env asker ask (p0 :: l) e = Done (Some t) e'
    /\ players e' = players e /\ game_state e' = game_state e
    /\ fallback_answer e asker ask (p0 :: l) t.
Proof.
  unfold decide_or_random, fallback_answer. unfold bind at 1. unfold get at 1.
  destruct (enable_ai_mode e && mem asker (ai_players e)).
  - unfold try_except, bind at 1, await, bind at 1, tick.
    destruct (ask (clock e) asker (players e) (game_state e)) as [[x|]|];
      unfold ret, raise; cbv beta iota.
    + exists x. eexists. split; [reflexivity|]. now destruct e.
    + destruct (random_target_total env p0 l (set_clock (S (clock e)) e))
        as (t & Hrun & Hin).
      exists t. eexists. rewrite Hrun. split; [reflexivity|]. now destruct e.
    + destruct (random_target_total env p0 l (set_clock (S (clock e)) e))
        as (t & Hrun & Hin).
      exists t. eexists. rewrite Hrun. split; [reflexivity|]. now destruct e.
  - destruct (random_target_total env p0 l e) as (t & Hrun & Hin).
    exists t. eexists. rewrite Hrun. split; [reflexivity|]. now destruct e.
Qed.

Lemma werewolf_action_total (env : Env) (night : NightActions) (e : GameEngine) :
  exists night' e',
    _process_werewolf_action env night e = Done night' e'
    /\ players e' = players e /\ game_state e' = game_state e
    /\ forall w, first_alive RoleType.WEREWOLF e = Some w ->
                 kill_candidates e <> [] ->
                 exists t, night' = set_werewolf_kill (Some t) night
                           /\ fallback_answer e (id w) (choose_werewolf_target env)
                                (kill_candidates e) t.
Proof.
  unfold _process_werewolf_action, first_alive. unfold bind at 1. unfold get at 1.
  destruct (filter (is_alive_role RoleType.WEREWOLF) (players e)) as [|w ws].
  { exists night, e. repeat split. intros w H. discriminate H. }
  fold (kill_candidates e). destruct (kill_candidates e) as [|c cs] eqn:Hk.
  { exists night, e. repeat split. intros w' _ H. now contradiction H. }
  destruct (decide_or_random_total env (id w) (choose_werewolf_target env) c cs e)
    as (t & e' & Hrun & Hp & Hg & Hfb).
  exists (set_werewolf_kill (Some t) night), e'.
  split; [now rewrite (bind_eq _ _ _ _ _ Hrun)|].
  repeat split; try assumption. intros w' [= <-] _. exists t. now split.
Qed.

Lemma seer_action_total (env : Env) (night : NightActions) (e : GameEngine) :
  exists night' e',
    _process_seer_action env night e = Done night' e'
    /\ players e' = players e
    /\ alive_players (game_state e') = alive_players (game_state e)
    /\ dead_players (game_state e') = dead_players (game_state e)
    /\ forall s, first_alive RoleType.SEER e = Some s ->
                 check_candidates e s <> [] ->
                 exists t, night' = set_seer_check (Some t) night
                           /\ fallback_answer e (id s) (choose_seer_target env)
                                (check_candidates e s) t.
Proof.
  unfold _process_seer_action, first_alive. unfold bind at 1. unfold get at 1.
  destruct (filter (is_alive_role RoleType.SEER) (players e)) as [|s ss].
  { exists night, e. repeat split. intros s H. discriminate H. }
  fold (check_candidates e s). destruct (check_candidates e s) as [|c cs] eqn:Hk.
  { exists night, e. repeat split. intros s' [= <-] H. now contradiction H. }
  destruct (decide_or_random_total env (id s) (choose_seer_target env) c cs e)
    as (t & e' & Hrun & Hp & Hg & Hfb).
  rewrite (bind_eq _ _ _ _ _ Hrun).
  destruct (find_player (Some t) (players e)) as [target|].
  - eexists _, _. split; [reflexivity|]. cbn. rewrite Hg.
    repeat split; try assumption.
    intros s' [= <-] _. exists t. rewrite Hk. now split.
  - eexists _, _. split; [reflexivity|]. cbn. rewrite Hg.
    repeat split; try assumption.
    intros s' [= <-] _. exists t. rewrite Hk. now split.
Qed.

(** C4 as the code has it. The werewolves' kill and the seer's check never
    raise: when the AI player fails or answers nothing (or there is none),
    the engine draws one of the legal candidates itself - a living
    non-werewolf for the kill, a living player other than the seer for the
    check; a non-null answer of the AI player is taken as it comes. *)
Theorem C4_kill_and_check_fall_back (env : Env) (night : NightActions) (e : GameEngine) :
  (exists night' e',
     _process_werewolf_action env night e = Done night' e'
     /\ players e' = players e /\ game_state e' = game_state e
     /\ forall w, first_alive RoleType.WEREWOLF e = Some w ->
                  kill_candidates e <> [] ->
                  exists t, night' = set_werewolf_kill (Some t) night
                            /\ fallback_answer e (id w) (choose_werewolf_target env)
                                 (kill_candidates e) t)
  /\ (exists night' e',
        _process_seer_action env night e = Done night' e'
        /\ players e' = players e
        /\ alive_players (game_state e') = alive_players (game_state e)
        /\ dead_players (game_state e') = dead_players (game_state e)
        /\ forall s, first_alive RoleType.SEER e = Some s ->
                     check_candidates e s <> [] ->
                     exists t, night' = set_seer_check (Some t) night
                               /\ fallback_answer e (id s) (choose_seer_target env)
                                    (check_candidates e s) t).
Proof.
  split; [apply werewolf_action_total | apply seer_action_total].
Qed.

(** With failing AI players for the werewolves, the kill at the nine-player
    table still names a living non-werewolf. *)
Lemma C4_failing_werewolf_is_replaced :
  exists night' e' t,
    _process_werewolf_action failing_night new_night_actions ai_table = Done night' e'
    /\ werewolf_kill night' = Some t
    /\ In t [0; 1; 2; 3; 4; 5].
Proof.
  destruct (C4_kill_and_check_fall_back failing_night new_night_actions ai_table)
    as [(night' & e' & Hrun & _ & _ & H) _].
  destruct (H (mkPlayer 6 (Some RoleType.WEREWOLF) true true true true None None))
    as (t & -> & Hfb).
  - reflexivity.
  - discriminate.
  - exists (set_werewolf_kill (Some t) new_night_actions), e', t.
    split; [exact Hrun|]. split; [reflexivity|]. exact Hfb.
Defined.

(** A failing AI player stops the game wherever the engine does not catch
    it: in the vote (and so in the main loop), in the witch's turn, in the
    hunter's shot. An id that no player carries, answered by the werewolves'
    AI player, is not replaced either and makes the night raise. *)
Lemma C4_failing_ai_players_stop_the_game :
  (exists e', _process_vote_phase failing_voters ai_table = Raised ActorError e')
  /\ (exists e', run_game_loop failing_voters 10 ai_table = Raised ActorError e')
  /\ (exists e', _process_night_phase failing_witch ai_table = Raised ActorError e')
  /\ (exists e', _process_vote_phase failing_hunter ai_table = Raised ActorError e')
  /\ (exists e', _process_night_phase stray_kill ai_table = Raised StopIteration e').
Proof.
  repeat split; eexists; vm_compute; reflexivity.
Qed.

(** ** The whole night phase and player 0 *)

Lemma gentle_ret {A : Type} (a : A) : gentle (ret a).
Proof. intro e. now repeat split. Qed.

Lemma gentle_raise {A : Type} (x : Exn) : gentle (@raise A x).
Proof. intro e. now repeat split. Qed.

Lemma gentle_get : gentle get.
Proof. intro e. now repeat split. Qed.

Lemma gentle_modify (f : GameEngine -> GameEngine) : harmless f -> gentle (modify f).
Proof. intros H e. exact (H e). Qed.

Lemma gentle_bind {A B : Type} (c : M A) (k : A -> M B) :
  gentle c -> (forall a, gentle (k a)) -> gentle (bind c k).
Proof.
  intros Hc Hk e. unfold bind. specialize (Hc e).
  destruct (c e) as [a e1|x e1]; cbn [final] in *; [|exact Hc].
  destruct Hc as (H1 & H2 & H3 & H4). destruct (Hk a e1) as (K1 & K2 & K3 & K4).
  now rewrite K1, K2, K3, K4.
Qed.

Lemma gentle_try_except {A : Type} (c h : M A) :
  gentle c -> gentle h -> gentle (try_except c h).
Proof.
  intros Hc Hh e. unfold try_except. specialize (Hc e).
  destruct (c e) as [a e1|x e1]; cbn [final] in *; [exact Hc|].
  destruct Hc as (H1 & H2 & H3 & H4).
  destruct x; try (destruct (Hh e1) as (K1 & K2 & K3 & K4);
                   now rewrite K1, K2, K3, K4).
  now repeat split.
Qed.

Lemma gentle_tick : gentle tick.
Proof. intro e. exact (harmless_clock (S (clock e)) e). Qed.

Lemma gentle_await {A : Type} (call : nat -> reply A) : gentle (await call).
Proof.
  unfold await. apply gentle_bind; [apply gentle_tick|]. intro n.
  destruct (call n); [apply gentle_ret | apply gentle_raise].
Qed.

Lemma gentle_random_target (env : Env) (l : list Player) : gentle (random_target env l).
Proof.
  unfold random_target, random_choice. destruct l.
  - apply gentle_bind; [apply gentle_raise | intro; apply gentle_ret].
  - apply gentle_bind; [|intro; apply gentle_ret].
    apply gentle_bind; [apply gentle_tick | intro; apply gentle_ret].
Qed.

Lemma gentle_modify_state (f : GameState -> GameState) :
  (forall g, alive_players (f g) = alive_players g
             /\ dead_players (f g) = dead_players g) ->
  gentle (modify_state f).
Proof. intro H. apply gentle_modify. now apply harmless_state. Qed.

Ltac gentle_state :=
  apply gentle_modify_state; let g := fresh "g" in intro g; now destruct g.

Ltac gentle_potion :=
  apply gentle_modify; let e0 := fresh "e" in
  intro e0; cbn [players set_players];
  rewrite update_first_ids, update_first_flags by reflexivity;
  now destruct e0.

Ltac gentle_step :=
  first
    [ apply gentle_ret | apply gentle_raise | apply gentle_get | apply gentle_tick
    | apply gentle_await | apply gentle_random_target
    | apply gentle_try_except
    | apply gentle_bind; [|intro]
    | gentle_state | gentle_potion
    | match goal with
      | |- gentle (match ?x with _ => _ end) => destruct x
      end ].

Lemma gentle_decide_or_random (env : Env) (asker : Z)
  (ask : nat -> Z -> list Player -> GameState -> reply (option Z))
  (candidates : list Player) :
  gentle (decide_or_random env asker ask candidates).
Proof. unfold decide_or_random. repeat gentle_step. Qed.

Lemma gentle_werewolf_action (env : Env) (night : NightActions) :
  gentle (_process_werewolf_action env night).
Proof.
  unfold _process_werewolf_action.
  apply gentle_bind; [apply gentle_get|intro e0].
  destruct (filter (is_alive_role RoleType.WEREWOLF) (players e0)); [apply gentle_ret|].
  match goal with |- gentle (match ?x with _ => _ end) => destruct x end;
    [apply gentle_ret|].
  apply gentle_bind; [apply gentle_decide_or_random|intros [t|]]; apply gentle_ret.
Qed.

Lemma gentle_seer_action (env : Env) (night : NightActions) :
  gentle (_process_seer_action env night).
Proof.
  unfold _process_seer_action.
  apply gentle_bind; [apply gentle_get|intro e0].
  destruct (filter (is_alive_role RoleType.SEER) (players e0)); [apply gentle_ret|].
  match goal with |- gentle (match ?x with _ => _ end) => destruct x end;
    [apply gentle_ret|].
  apply gentle_bind; [apply gentle_decide_or_random|intros [t|]];
    repeat gentle_step.
Qed.

Lemma gentle_witch_action (env : Env) (night : NightActions) :
  gentle (_process_witch_action env night).
Proof. unfold _process_witch_action. repeat gentle_step. Qed.

Lemma alive_flag_same_flags (ps ps' : list Player) (z : Z) :
  map id ps' = map id ps -> map alive ps' = map alive ps ->
  option_map alive (find_player (Some z) ps')
  = option_map alive (find_player (Some z) ps).
Proof.
  unfold find_player. revert ps'.
  induction ps as [|p ps IH]; intros [|p' ps']; simpl; try discriminate;
    [reflexivity|].
  intros [= Hi His] [= Ha Has]. rewrite Hi.
  destruct (id p =? z); simpl; [now rewrite Ha | now apply IH].
Qed.

Lemma gentle_spares {A : Type} (z : Z) (c : M A) : gentle c -> spares z c.
Proof.
  intros Hc e He. destruct (Hc e) as (H1 & H2 & H3 & H4). split.
  - now apply (consistent_same_flags e).
  - now apply alive_flag_same_flags.
Qed.

Lemma spares_bind {A B : Type} (z : Z) (c : M A) (k : A -> M B) :
  spares z c -> (forall a, spares z (k a)) -> spares z (bind c k).
Proof.
  intros Hc Hk e He. unfold bind. destruct (Hc e He) as [H1 H2].
  destruct (c e) as [a e1|x e1]; cbn [final] in *; [|now split].
  destruct (Hk a e1 H1) as [K1 K2]. split; [assumption | now rewrite K2].
Qed.

Lemma resolve_spares_zero (night : NightActions) :
  spares 0 (_resolve_night_actions night).
Proof.
  intros e He. split; [now apply resolve_consistent|].
  rewrite resolve_unfold. apply deaths_flag_kept; [reflexivity| |assumption].
  intro H. apply night_deaths_In in H as [H _]. now apply H.
Qed.

(** Through a whole night phase - the AI players' answers, the draws, the
    potions and the resolution - the alive flag of player 0 stays what it
    was. *)
Lemma night_phase_spares_zero (env : Env) : spares 0 (_process_night_phase env).
Proof.
  unfold _process_night_phase.
  apply spares_bind; [apply gentle_spares; gentle_state|intros _].
  apply spares_bind; [apply gentle_spares, gentle_werewolf_action|intro].
  apply spares_bind; [apply gentle_spares, gentle_seer_action|intro].
  apply spares_bind; [apply gentle_spares, gentle_witch_action|intro].
  apply spares_bind; [apply gentle_spares; gentle_state|intros _].
  apply resolve_spares_zero.
Qed.

(** ** Player 0 and the night *)

(** C10. Ids are handed out as 0, 1, 2, ... by [create_players]. An id
    enters the death list of a night exactly when it is not 0 and is either
    the werewolves' target without being the saved one, or the poison
    target: a kill or poison aimed at player 0 is dropped. Hence neither
    night resolution nor a whole night phase ever changes the alive flag of
    player 0, while a death list of living players (each once) is applied
    in full: every one is flagged dead, moved to the dead list and given
    one kill record. *)
Theorem C10_player_zero_survives_every_night :
  (forall env n spectator e, spectator = true \/ 0 < n ->
     exists ps h e', create_players env n spectator e = Done (ps, h) e'
                     /\ map id ps = map Z.of_nat (seq 0 (Z.to_nat n)))
  /\ (forall night k,
        In k (night_deaths night) <->
        k <> 0 /\ ((werewolf_kill night = Some k /\ witch_save night <> Some k)
                   \/ witch_poison night = Some k))
  /\ (forall night e, consistent e ->
        alive_flag (final (_resolve_night_actions night e)) 0 = alive_flag e 0)
  /\ (forall env e, consistent e ->
        alive_flag (final (_process_night_phase env e)) 0 = alive_flag e 0)
  /\ (forall night e, consistent e -> NoDup (night_deaths night) ->
        (forall z, In z (night_deaths night) -> living e z) ->
        exists e',
          _resolve_night_actions night e = Done tt e'
          /\ consistent e'
          /\ (forall z, In z (night_deaths night) -> alive_flag e' z = Some false)
          /\ (forall z, ~ In z (night_deaths night) -> alive_flag e' z = alive_flag e z)
          /\ dead_players (game_state e')
             = dead_players (game_state e) ++ night_deaths night
          /\ history (game_state e')
             = history (game_state e)
               ++ map (fun z => mkActionRecord ActionType.KILL 0 (Some z) "夜晚"
                                  (current_round (game_state e)))
                      (night_deaths night)).
Proof.
  split; [|split; [|split; [|split]]].
  - intros env n spectator e H.
    destruct (create_players_total env n spectator e H) as (ps & h & e' & Hc).
    exists ps, h, e'. split; [exact Hc|].
    exact (proj1 (create_players_Done _ _ _ _ _ _ _ Hc)).
  - exact night_deaths_In.
  - intros night e Hc. rewrite resolve_unfold.
    apply deaths_flag_kept; [reflexivity| |assumption].
    intro H. apply night_deaths_In in H as [H _]. now apply H.
  - intros env e Hc. exact (proj2 (night_phase_spares_zero env e Hc)).
  - exact resolve_living.
Qed.

(** At the nine-player table the werewolves kill villager 5, nobody is
    saved or poisoned: the night ends with player 5 flagged dead. *)
Lemma C10_villager_5_dies :
  exists e',
    _resolve_night_actions (night_of (Some 5) None None) ai_table = Done tt e'
    /\ alive_flag e' 5 = Some false.
Proof.
  destruct C10_player_zero_survives_every_night as (_ & _ & _ & _ & H).
  destruct (H (night_of (Some 5) None None) ai_table) as (e' & Hrun & _ & Hdead & _).
  - exact ai_table_consistent.
  - vm_compute. repeat constructor. intros [].
  - intros z Hz. apply (living_flag ai_table z (proj1 ai_table_consistent)).
    vm_compute in Hz. destruct Hz as [<-|[]]. reflexivity.
  - exists e'. split; [exact Hrun|]. apply Hdead. vm_compute. now left.
Defined.


(** ** A whole game *)

(** The simple mode, played from setup with the scripted draws: the loop
    ends in the fifth round and returns the Werewolf camp as the winner,
    three players having died at night. *)
Example simple_game_ends :
  exists e',
    run_game_loop silent 20 simple_table = Done (Some (Some CampType.WEREWOLF)) e'
    /\ current_round (game_state e') = 5
    /\ dead_players (game_state e') = [5; 3; 2]
    /\ game_over (game_state e') = true.
Proof.
  exists (final (run_game_loop silent 20 simple_table)).
  split; [vm_compute; reflexivity|].
  split; [vm_compute; reflexivity|].
  split; vm_compute; reflexivity.
Qed.

(** * Further properties of the code *)

(** ** Role counts *)

Section DictFacts.

Context {K : Type} (eqb : K -> K -> bool).
Hypothesis eqb_spec : forall a b, eqb a b = true <-> a = b.

Lemma dict_eqb_refl (a : K) : eqb a a = true.
Proof. now apply eqb_spec. Qed.

Lemma dict_eqb_sym (a b : K) : eqb a b = eqb b a.
Proof.
  destruct (eqb a b) eqn:E.
  - apply eqb_spec in E. subst. symmetry. apply dict_eqb_refl.
  - destruct (eqb b a) eqn:E'; [|reflexivity].
    apply eqb_spec in E'. subst. now rewrite dict_eqb_refl in E.
Qed.

(** Reading a dict after a write: the written key gives the new value, any
    other key what it gave before. *)
Lemma dict_get_after_set {V : Type} (k k' : K) (v d : V) (m : list (K * V)) :
  dict_get eqb k d (dict_set eqb k' v m)
  = if eqb k' k then v else dict_get eqb k d m.
Proof.
  induction m as [|[k0 v0] m IH]; simpl.
  - now destruct (eqb k' k).
  - destruct (eqb k0 k') eqn:E0; simpl.
    + apply eqb_spec in E0. subst k0. destruct (eqb k' k); reflexivity.
    + destruct (eqb k0 k) eqn:E1.
      * apply eqb_spec in E1. subst k0. rewrite dict_eqb_sym, E0. reflexivity.
      * exact IH.
Qed.

(** A write adds one to the sum of an integer dict when it raises the
    value of its key by one (a fresh key counting as 0). *)
Lemma dict_set_sum (k : K) (m : list (K * Z)) :
  fold_right Z.add 0 (map snd (dict_set eqb k (dict_get eqb k 0 m + 1) m))
  = fold_right Z.add 0 (map snd m) + 1.
Proof.
  induction m as [|[k0 v0] m IH]; simpl; [lia|].
  destruct (eqb k0 k); simpl; [lia|]. rewrite IH. lia.
Qed.

End DictFacts.

Lemma count_role_get (r : RoleType.t) (ps : list Player) :
  forall acc,
    dict_get RoleType.eqb r 0 (fold_left count_role ps acc)
    = dict_get RoleType.eqb r 0 acc + len (filter (role_is r) ps).
Proof.
  induction ps as [|p ps IH]; intro acc; cbn [fold_left filter].
  - unfold len. simpl. lia.
  - rewrite IH. unfold count_role at 1, role_is at 2.
    destruct (role p) as [r'|].
    + rewrite (dict_get_after_set RoleType.eqb RoleType_eqb_eq).
      destruct (RoleType.eqb r' r) eqn:E.
      * apply RoleType_eqb_eq in E. subst r'. unfold len.
        cbn [List.length]. rewrite Nat2Z.inj_succ. lia.
      * reflexivity.
    + reflexivity.
Qed.

Lemma count_role_sum (ps : list Player) :
  forall acc,
    fold_right Z.add 0 (map snd (fold_left count_role ps acc))
    = fold_right Z.add 0 (map snd acc)
      + len (filter (fun p => is_not_None (role p)) ps).
Proof.
  induction ps as [|p ps IH]; intro acc; cbn [fold_left filter].
  - unfold len. simpl. lia.
  - rewrite IH. unfold count_role at 1. destruct (role p) as [r|]; cbn [is_not_None].
    + rewrite dict_set_sum. unfold len. cbn [List.length].
      rewrite Nat2Z.inj_succ. lia.
    + reflexivity.
Qed.

Lemma filter_permutation {A : Type} (f : A -> bool) (l l' : list A) :
  Permutation l l' -> Permutation (filter f l) (filter f l').
Proof.
  induction 1 as [|x l l' _ IH|x y l|l l' l'' _ IH1 _ IH2]; simpl.
  - constructor.
  - destruct (f x); [now constructor | assumption].
  - destruct (f x), (f y); try apply Permutation_refl. apply perm_swap.
  - now transitivity (filter f l').
Qed.

Lemma role_count_permutation (r : RoleType.t) (ps : list Player)
  (roles : list RoleType.t) :
  Permutation (map role ps) (map Some roles) ->
  len (filter (role_is r) ps) = len (filter (fun x => RoleType.eqb x r) roles).
Proof.
  intro H.
  assert (Hl : forall l : list Player,
             len (filter (role_is r) l)
             = len (filter (fun o => match o with
                                     | Some x => RoleType.eqb x r
                                     | None => false
                                     end) (map role l))).
  { induction l as [|p l IH]; [reflexivity|]. cbn [map filter].
    unfold role_is at 1. destruct (role p) as [x|];
      [destruct (RoleType.eqb x r)|]; unfold len in *; cbn [List.length];
      rewrite ?Nat2Z.inj_succ; lia. }
  assert (Hr : forall l : list RoleType.t,
             len (filter (fun x => RoleType.eqb x r) l)
             = len (filter (fun o => match o with
                                     | Some x => RoleType.eqb x r
                                     | None => false
                                     end) (map Some l))).
  { induction l as [|x l IH]; [reflexivity|]. cbn [map filter].
    destruct (RoleType.eqb x r); unfold len in *; cbn [List.length];
      rewrite ?Nat2Z.inj_succ; lia. }
  rewrite Hl, Hr. unfold len. f_equal. apply Permutation_length.
  now apply filter_permutation.
Qed.

(** X1. The role-count dict of [show_role_distribution] (and of
    [get_role_distribution], which runs the same loop) gives for every role
    the number of players holding it, as [count_roles] counts them, and its
    values add up to the number of players that have a role. *)
Theorem role_distribution_counts_players (m : GameStateManager.t) (r : RoleType.t) :
  dict_get RoleType.eqb r 0 (show_role_distribution (GameStateManager.players m))
  = GameStateManager.count_roles m r
  /\ GameStateManager.get_role_distribution m
     = show_role_distribution (GameStateManager.players m)
  /\ fold_right Z.add 0 (map snd (GameStateManager.get_role_distribution m))
     = len (filter (fun p => is_not_None (role p)) (GameStateManager.players m)).
Proof.
  split; [|split].
  - unfold show_role_distribution. rewrite count_role_get. simpl. reflexivity.
  - reflexivity.
  - unfold GameStateManager.get_role_distribution. rewrite count_role_sum.
    simpl. reflexivity.
Qed.

Lemma assigned_roles_rearranged (env : Env) (ps assigned : list Player)
  (e e' : GameEngine) :
  shuffle_rearranges env -> List.length ps = 9%nat ->
  assign_roles env ps e = Done assigned e' ->
  Permutation (map role assigned) (map Some (build_role_list role_distribution))
  /\ map id assigned = map id ps.
Proof.
  intros Hsh H9 Hrun. rewrite assign_roles_eval in Hrun. cbv zeta in Hrun.
  set (rl := shuffle env (clock e) (build_role_list role_distribution)) in *.
  assert (Hlen : List.length rl = 9%nat).
  { unfold rl. rewrite <- (Permutation_length (Hsh _ _)). apply role_list_length. }
  destruct (assign_from_ok rl ps 0%nat) as [Hnone Hroles]; [lia|].
  rewrite Hnone in Hrun. injection Hrun as <- _. split.
  - rewrite Hroles, H9, <- Hlen. cbn [skipn]. rewrite firstn_all.
    apply Permutation_map. symmetry. apply Hsh.
  - apply assign_from_ids.
Qed.

(** X2. Whatever the shuffle, nine players leave [assign_roles] with three
    werewolves, three villagers, one seer, one witch and one hunter, as the
    dict of [show_role_distribution] reads them. *)
Theorem nine_players_get_3_3_1_1_1 (env : Env) (ps assigned : list Player)
  (e e' : GameEngine) :
  shuffle_rearranges env -> List.length ps = 9%nat ->
  assign_roles env ps e = Done assigned e' ->
  dict_get RoleType.eqb RoleType.WEREWOLF 0 (show_role_distribution assigned) = 3
  /\ dict_get RoleType.eqb RoleType.VILLAGER 0 (show_role_distribution assigned) = 3
  /\ dict_get RoleType.eqb RoleType.SEER 0 (show_role_distribution assigned) = 1
  /\ dict_get RoleType.eqb RoleType.WITCH 0 (show_role_distribution assigned) = 1
  /\ dict_get RoleType.eqb RoleType.HUNTER 0 (show_role_distribution assigned) = 1.
Proof.
  intros Hsh H9 Hrun.
  destruct (assigned_roles_rearranged env ps assigned e e' Hsh H9 Hrun) as [Hperm _].
  unfold show_role_distribution. rewrite !count_role_get.
  rewrite !(role_count_permutation _ assigned _ Hperm). repeat split.
Qed.

Lemma silent_rearranges : shuffle_rearranges silent.
Proof. intros n l. apply Permutation_refl. Qed.

Lemma nine_fresh_players_get_3_3_1_1_1 :
  dict_get RoleType.eqb RoleType.WEREWOLF 0
    (show_role_distribution (players (final (assign_roles silent (fresh_players 9)
                                               (engine_for 9))))) = 3.
Proof.
  apply (nine_players_get_3_3_1_1_1 silent (fresh_players 9) _ (engine_for 9)
           (final (assign_roles silent (fresh_players 9) (engine_for 9)))
           silent_rearranges).
  - reflexivity.
  - vm_compute. reflexivity.
Defined.

(** ** The state manager *)

(** X3. The manager's [check_victory_conditions] and the state's
    [check_winner] are two evaluators of the same condition: on the same
    players they agree as long as no winner is stored, and only
    [check_winner] then sticks to a stored winner while the manager's keeps
    evaluating the players. *)
Theorem victory_conditions_agree_with_check_winner
  (m : GameStateManager.t) (g : GameState) :
  (winner g = None ->
   GameStateManager.check_victory_conditions m
   = check_winner g (GameStateManager.players m))
  /\ (forall w, GameStateManager.check_victory_conditions (GameStateManager.end_game w m)
                = GameStateManager.check_victory_conditions m)
  /\ (forall w, check_winner
                  (GameStateManager.game_state (GameStateManager.end_game w m))
                  (GameStateManager.players m) = Some w).
Proof.
  split; [|split].
  - intro Hw. rewrite check_winner_by_counts by assumption.
    unfold GameStateManager.check_victory_conditions,
      GameStateManager.get_alive_werewolves, GameStateManager.get_alive_players.
    cbv zeta. rewrite filter_filter.
    fold (alive_werewolves (GameStateManager.players m)).
    fold (alive_good (GameStateManager.players m)). reflexivity.
  - intro w. reflexivity.
  - intro w. reflexivity.
Qed.

Lemma no_winner_yet :
  GameStateManager.check_victory_conditions
    (GameStateManager.mk (players ai_table) new_game_state new_night_actions)
  = check_winner new_game_state (players ai_table).
Proof.
  apply (victory_conditions_agree_with_check_winner
           (GameStateManager.mk (players ai_table) new_game_state new_night_actions)
           new_game_state).
  reflexivity.
Defined.

(** X4. Three calls of [advance_phase] go once round the cycle
    night, day, vote: the phase is back where it was, the round has grown
    by exactly one, the night actions are the fresh ones of the night that
    was entered, and the players were not touched. A single call changes
    the round only when it leaves the vote. *)
Theorem advance_phase_cycle (m : GameStateManager.t) :
  let step := fun m => snd (GameStateManager.advance_phase m) in
  phase (GameStateManager.game_state (step (step (step m))))
  = phase (GameStateManager.game_state m)
  /\ current_round (GameStateManager.game_state (step (step (step m))))
     = current_round (GameStateManager.game_state m) + 1
  /\ GameStateManager.night_actions (step (step (step m))) = new_night_actions
  /\ GameStateManager.players (step (step (step m))) = GameStateManager.players m
  /\ fst (GameStateManager.advance_phase m)
     = phase (GameStateManager.game_state (step m))
  /\ current_round (GameStateManager.game_state (step m))
     = (match phase (GameStateManager.game_state m) with
        | PhaseType.VOTE => current_round (GameStateManager.game_state m) + 1
        | _ => current_round (GameStateManager.game_state m)
        end)
  /\ phase (GameStateManager.game_state (step m))
     = (match phase (GameStateManager.game_state m) with
        | PhaseType.NIGHT => PhaseType.DAY
        | PhaseType.DAY => PhaseType.VOTE
        | PhaseType.VOTE => PhaseType.NIGHT
        end).
Proof.
  destruct m as [ps g na]. destruct g as [r ph al de hi nas sr ws wp vp go wi].
  destruct ph; cbn; repeat split.
Qed.

Lemma process_player_death_living (m : GameStateManager.t) (z : Z) (c : string) :
  consistent (registry m) -> alive_flag (registry m) z = Some true ->
  registry (GameStateManager.process_player_death z c m)
  = recorded (mkActionRecord
                (if GameStateManager.is_kill_cause c
                 then ActionType.KILL else ActionType.SAVE)
                0 (Some z)
                (phase_value (phase (GameStateManager.game_state m)))
                (current_round (GameStateManager.game_state m)))
             (dies z (registry m)).
Proof.
  intros Hc Hflag. destruct (flag_true_found _ _ Hflag) as (p & Hf & Ha).
  cbn [registry players] in Hf.
  unfold GameStateManager.process_player_death. rewrite Hf, Ha. cbv zeta.
  assert (Hm : mem z (alive_players (GameStateManager.game_state m)) = true).
  { apply mem_In. apply (consistent_alive (registry m) z Hc).
    apply (living_flag _ _ (proj1 Hc)). exact Hflag. }
  rewrite Hm. reflexivity.
Qed.

(** X5. [process_player_death] can be called again and again: the second call
    for the same player changes nothing, a call for a dead or unknown
    player changes nothing, and a call for a living player flags him dead,
    moves his id from the alive to the dead list and appends one record -
    of kind kill for the causes "werewolf", "vote" and "poison", of kind
    save for any other cause. A well-formed registry stays well formed. *)
Theorem process_player_death_is_idempotent (m : GameStateManager.t) (z : Z)
  (c c' : string) :
  GameStateManager.process_player_death z c
    (GameStateManager.process_player_death z c' m)
  = GameStateManager.process_player_death z c' m
  /\ (alive_flag (registry m) z <> Some true ->
      GameStateManager.process_player_death z c m = m)
  /\ (consistent (registry m) ->
      consistent (registry (GameStateManager.process_player_death z c m)))
  /\ (consistent (registry m) -> alive_flag (registry m) z = Some true ->
      registry (GameStateManager.process_player_death z c m)
      = recorded (mkActionRecord
                    (if GameStateManager.is_kill_cause c
                     then ActionType.KILL else ActionType.SAVE)
                    0 (Some z)
                    (phase_value (phase (GameStateManager.game_state m)))
                    (current_round (GameStateManager.game_state m)))
                 (dies z (registry m))).
Proof.
  split; [|split; [|split]].
  - unfold GameStateManager.process_player_death at 2.
    destruct (find_player (Some z) (GameStateManager.players m)) as [p|] eqn:Hf.
    + destruct (alive p) eqn:Ha.
      * cbv zeta.
        match goal with
        | |- GameStateManager.process_player_death z c ?m' = _ =>
            assert (Hsecond : GameStateManager.process_player_death z c m' = m')
        end.
        { unfold GameStateManager.process_player_death.
          cbn [GameStateManager.players].
          rewrite find_player_flag_dead, Z.eqb_refl, Hf. reflexivity. }
        rewrite Hsecond. unfold GameStateManager.process_player_death.
        now rewrite Hf, Ha.
      * unfold GameStateManager.process_player_death. now rewrite Hf, Ha.
    + unfold GameStateManager.process_player_death. now rewrite Hf.
  - unfold alive_flag. cbn [registry players]. intro H.
    unfold GameStateManager.process_player_death.
    destruct (find_player (Some z) (GameStateManager.players m)) as [p|];
      [|reflexivity].
    cbn [option_map] in H. destruct (alive p); [|reflexivity]. now contradiction H.
  - intro Hc.
    destruct (alive_flag (registry m) z) as [[|]|] eqn:Hflag.
    + rewrite (process_player_death_living m z c Hc Hflag).
      apply recorded_consistent.
      destruct (flag_true_found _ _ Hflag) as (p & Hf & Ha).
      exact (dies_consistent z (registry m) p Hc Hf Ha).
    + unfold alive_flag in Hflag. cbn [registry players] in Hflag.
      unfold GameStateManager.process_player_death.
      destruct (find_player (Some z) (GameStateManager.players m)) as [p|];
        [|exact Hc].
      injection Hflag as ->. exact Hc.
    + unfold alive_flag in Hflag. cbn [registry players] in Hflag.
      unfold GameStateManager.process_player_death.
      destruct (find_player (Some z) (GameStateManager.players m)) as [p|];
        [discriminate | exact Hc].
  - apply process_player_death_living.
Qed.

Lemma manager_table_consistent : consistent (registry manager_table).
Proof.
  apply (consistent_frame ai_table); [reflexivity..|].
  exact ai_table_consistent.
Qed.

(** The hunter's shot on player 7, given to the manager with the cause
    "hunter", is recorded as a save; the second call is a no-op. *)
Lemma a_hunter_shot_is_recorded_as_a_save :
  map action_type
    (history (GameStateManager.game_state
                (GameStateManager.process_player_death 7 "hunter"
                   (GameStateManager.process_player_death 7 "hunter" manager_table))))
  = [ActionType.SAVE].
Proof.
  destruct (process_player_death_is_idempotent manager_table 7 "hunter" "hunter")
    as (Hidem & _ & _ & Hlive).
  rewrite Hidem.
  change (history (GameStateManager.game_state
                     (GameStateManager.process_player_death 7 "hunter" manager_table)))
    with (history (game_state (registry
                     (GameStateManager.process_player_death 7 "hunter" manager_table)))).
  rewrite Hlive; [reflexivity | exact manager_table_consistent | reflexivity].
Defined.

Lemma found_alive_flag (m : GameStateManager.t) (target : option Z) (t : Player) :
  find_player target (GameStateManager.players m) = Some t -> alive t = true ->
  target = Some (id t) /\ alive_flag (registry m) (id t) = Some true.
Proof.
  intros Hf Ha. destruct target as [z|];
    [|now rewrite find_player_None_target in Hf].
  destruct (find_player_Some _ _ _ Hf) as [_ <-].
  split; [reflexivity|]. unfold alive_flag. cbn [registry players].
  now rewrite Hf; cbn; rewrite Ha.
Qed.

(** X6. What [validate_player_action] lets through: the acting player is
    alive; nothing is valid by day; by vote only a vote, at night only the
    kill of a werewolf, the check of the seer and the potions of the witch;
    every target but that of a save is a living player; a vote or a check
    never names the acting player, a kill never a werewolf, and a save names
    what the manager's night actions hold as the werewolves' kill - which
    lets a save of nobody through on a night without a kill. *)
Theorem validate_player_action_sound (m : GameStateManager.t) (actor : Z)
  (action : string) (target : option Z) :
  (GameStateManager.validate_player_action m actor action target = true ->
   alive_flag (registry m) actor = Some true
   /\ phase (GameStateManager.game_state m) <> PhaseType.DAY
   /\ (phase (GameStateManager.game_state m) = PhaseType.VOTE <-> action = "vote"%string)
   /\ (action = "vote"%string \/ action = "kill"%string \/ action = "check"%string
       \/ action = "save"%string \/ action = "poison"%string)
   /\ (action <> "save"%string ->
       exists t, target = Some t /\ alive_flag (registry m) t = Some true)
   /\ (action = "vote"%string \/ action = "check"%string -> target <> Some actor)
   /\ (action = "kill"%string ->
       exists t, find_player target (GameStateManager.players m) = Some t
                 /\ role t <> Some RoleType.WEREWOLF)
   /\ (action = "save"%string ->
       target = werewolf_kill (GameStateManager.night_actions m)))
  /\ (forall w, phase (GameStateManager.game_state m) = PhaseType.NIGHT ->
                find_player (Some actor) (GameStateManager.players m) = Some w ->
                alive w = true -> role w = Some RoleType.WITCH ->
                werewolf_kill (GameStateManager.night_actions m) = None ->
                GameStateManager.validate_player_action m actor "save" None = true).
Proof.
  split.
  - unfold GameStateManager.validate_player_action.
    destruct (find_player (Some actor) (GameStateManager.players m)) as [a|] eqn:Hfa;
      [|discriminate].
    destruct (alive a) eqn:Haa; cbn [negb]; [|discriminate].
    assert (Hactor : alive_flag (registry m) actor = Some true).
    { unfold alive_flag. cbn [registry players]. now rewrite Hfa; cbn; rewrite Haa. }
    destruct (phase (GameStateManager.game_state m)) eqn:Hph; [| discriminate |].
    + (* night *)
      destruct (String.eqb_spec action "kill") as [Ek|Ek];
        destruct (String.eqb_spec action "check") as [Ec|Ec];
        destruct (String.eqb_spec action "save") as [Es|Es];
        destruct (String.eqb_spec action "poison") as [Ep|Ep];
        try (subst action; discriminate);
        rewrite ?andb_true_r, ?andb_false_r, ?orb_false_r, ?orb_true_r;
        cbn [andb orb];
        repeat match goal with
               | |- context [role_is ?r a] => destruct (role_is r a) eqn:?
               end;
        cbn [andb orb]; try discriminate;
        destruct (find_player target (GameStateManager.players m)) as [t|] eqn:Hft;
        try discriminate; intro Hv;
        try (apply andb_true_iff in Hv as [Hta Hextra]);
        try (destruct (found_alive_flag m target t Hft Hta) as [Htgt Hflag]);
        try (destruct (found_alive_flag m target t Hft Hv) as [Htgt Hflag]);
        (split; [exact Hactor|]); (split; [discriminate|]);
        (split; [split; [discriminate | intros ->; discriminate]|]);
        (split; [tauto|]).
      all: repeat split;
        try (intros _; eexists; split; [eassumption|eassumption]);
        try (intro Habs; exfalso; subst action; tauto);
        try (intros [Habs|Habs]; exfalso; subst action; discriminate).
      all: try (intros _ Hself; rewrite Htgt in Hself; injection Hself as Hself;
                apply negb_true_iff, Z.eqb_neq in Hextra; contradiction).
      all: try (intros _; exists t; split; [reflexivity|];
                apply negb_true_iff in Hextra; unfold role_is in Hextra;
                intro Hr; rewrite Hr in Hextra; discriminate).
      all: try (intros _; now apply opt_eqb_eq).
      all: try (intros _; apply andb_true_iff in Hv as [Hv _]; now apply opt_eqb_eq).
    + (* vote *)
      destruct (String.eqb_spec action "vote") as [Ev|Ev]; [|discriminate].
      destruct (find_player target (GameStateManager.players m)) as [t|] eqn:Hft;
        [|discriminate].
      intro Hv. apply andb_true_iff in Hv as [Hta Hextra].
      destruct (found_alive_flag m target t Hft Hta) as [Htgt Hflag].
      split; [exact Hactor|]. split; [discriminate|].
      split; [tauto|]. split; [tauto|].
      split; [intros _; eauto|].
      split.
      * intros _ Hself. rewrite Htgt in Hself. injection Hself as Hself.
        apply negb_true_iff, Z.eqb_neq in Hextra. contradiction.
      * split; intros ->; discriminate.
  - intros w Hph Hf Ha Hr Hk. unfold GameStateManager.validate_player_action.
    rewrite Hf, Ha, Hph, Hk. unfold role_is. rewrite Hr. reflexivity.
Qed.

(** On the nine-player table, by night, werewolf 6 may kill villager 3. *)
Lemma a_valid_kill_names_a_living_player :
  exists t, Some 3 = Some t /\ alive_flag (registry manager_table) t = Some true.
Proof.
  destruct (validate_player_action_sound manager_table 6 "kill" (Some 3)) as [H _].
  destruct (H eq_refl) as (_ & _ & _ & _ & Ht & _).
  apply Ht. discriminate.
Defined.

(** ** Who is human *)

Lemma filter_of_map {A B : Type} (f : B -> bool) (g : A -> B) (l : list A) :
  filter f (map g l) = map g (filter (fun a => f (g a)) l).
Proof.
  induction l as [|a l IH]; simpl; [reflexivity|].
  destruct (f (g a)); simpl; now rewrite IH.
Qed.

Lemma one_index_matches (n : nat) (z : Z) :
  0 <= z < Z.of_nat n ->
  filter (fun i => Z.of_nat i =? z) (seq 0 n) = [Z.to_nat z].
Proof.
  induction n as [|n IH]; intro H; [lia|].
  rewrite seq_S, filter_app. cbn [plus filter].
  destruct (Z.eqb_spec (Z.of_nat n) z) as [E|E].
  - assert (Hnone : filter (fun i => Z.of_nat i =? z) (seq 0 n) = []).
    { clear IH. assert (Hb : forall i, In i (seq 0 n) -> (Z.of_nat i =? z) = false).
      { intros i Hi. apply in_seq in Hi. apply Z.eqb_neq. lia. }
      induction (seq 0 n) as [|a l IHl]; [reflexivity|]. simpl.
      rewrite Hb by now left. apply IHl. intros i Hi. apply Hb. now right. }
    rewrite Hnone. simpl. f_equal. lia.
  - rewrite IH by lia. apply app_nil_r.
Qed.

(** X7. [create_players] makes exactly one player human unless the game is
    watched: in spectator mode every player is driven by an AI and no human
    id is returned; otherwise the id returned lies among the ids handed out
    and is the id of the one and only player that is not an AI. Every
    player starts alive, without a role and with both potions. *)
Theorem create_players_one_human (env : Env) (n : Z) (spectator : bool)
  (e e' : GameEngine) (ps : list Player) (h : option Z) :
  create_players env n spectator e = Done (ps, h) e' ->
  (if spectator
   then h = None /\ filter (fun p => negb (is_ai p)) ps = []
   else exists z, h = Some z /\ 0 <= z < n
                  /\ map id (filter (fun p => negb (is_ai p)) ps) = [z])
  /\ (forall p, In p ps ->
        alive p = true /\ role p = None
        /\ has_antidote p = true /\ has_poison p = true).
Proof.
  unfold create_players. intro H.
  apply bind_Done in H as (h' & e1 & Hh & H). injection H as <- <- _.
  split.
  - destruct spectator; cbn [negb] in Hh.
    + injection Hh as <- _. split; [reflexivity|].
      rewrite filter_of_map. cbn [is_ai new_player orb negb].
      induction (seq 0 (Z.to_nat n)); [reflexivity | assumption].
    + apply bind_Done in Hh as (z & e2 & Hz & Hh). injection Hh as <- _.
      unfold randint in Hz. destruct (Z.ltb_spec (n - 1) 0) as [|Hn]; [discriminate|].
      apply bind_Done in Hz as (k & e3 & _ & Hz). injection Hz as <- _.
      set (z := 0 + Z.of_nat (rand env k) mod (n - 1 - 0 + 1)).
      assert (Hz : 0 <= z < n).
      { unfold z. pose proof (Z.mod_pos_bound (Z.of_nat (rand env k)) (n - 1 - 0 + 1)).
        lia. }
      exists z. split; [reflexivity|]. split; [exact Hz|].
      rewrite filter_of_map, map_map. cbn [is_ai new_player orb id opt_eqb].
      rewrite (filter_ext _ (fun i => Z.of_nat i =? z))
        by (intro i; apply negb_involutive).
      rewrite one_index_matches by lia. simpl. f_equal. lia.
  - intros p Hp. apply in_map_iff in Hp as [i [<- _]]. repeat split.
Qed.

(** A table of nine with a human: the script's first draw is 0, so player 0
    is the human one. *)
Lemma the_human_at_a_table_of_nine :
  exists z, Some 0 = Some z /\ 0 <= z < 9
            /\ map id (filter (fun p => negb (is_ai p))
                         (fst (match create_players silent 9 false (new_engine true false [])
                               with
                               | Done a _ => a
                               | Raised _ _ => ([], None)
                               end))) = [z].
Proof.
  destruct (create_players_one_human silent 9 false (new_engine true false [])
              (final (create_players silent 9 false (new_engine true false [])))
              (fst (match create_players silent 9 false (new_engine true false [])
                    with Done a _ => a | Raised _ _ => ([], None) end))
              (Some 0)) as [H _].
  - vm_compute. reflexivity.
  - exact H.
Defined.

(** ** What every phase does to the state, step by step

    A relation between states that is reflexive and transitive, and that
    holds across each single assignment the engine makes, holds across the
    phases and across the whole main loop. The assignments are listed as
    the hypotheses of the section, with the guards under which the code
    makes them. *)

Section Steady.

Variable R : GameEngine -> GameEngine -> Prop.
Hypothesis R_refl : forall e, R e e.
Hypothesis R_trans : forall a b c, R a b -> R b c -> R a c.

Lemma steady_ret {A : Type} (a : A) : steady R (ret a).
Proof. intro e. apply R_refl. Qed.

Lemma steady_raise {A : Type} (x : Exn) : steady R (@raise A x).
Proof. intro e. apply R_refl. Qed.

Lemma steady_get : steady R get.
Proof. intro e. apply R_refl. Qed.

Lemma steady_bind {A B : Type} (c : M A) (k : A -> M B) :
  steady R c -> (forall a, steady R (k a)) -> steady R (bind c k).
Proof.
  intros Hc Hk e. unfold bind. specialize (Hc e).
  destruct (c e) as [a e1|x e1]; cbn [final] in *; [|exact Hc].
  exact (R_trans _ _ _ Hc (Hk a e1)).
Qed.

Lemma steady_try_except {A : Type} (c h : M A) :
  steady R c -> steady R h -> steady R (try_except c h).
Proof.
  intros Hc Hh e. unfold try_except. specialize (Hc e).
  destruct (c e) as [a e1|x e1]; cbn [final] in *; [exact Hc|].
  destruct x; try exact (R_trans _ _ _ Hc (Hh e1)); exact Hc.
Qed.

Lemma steady_for_each {A : Type} (l : list A) (body : A -> M unit) :
  (forall a, steady R (body a)) -> steady R (for_each l body).
Proof.
  intro Hb. induction l as [|a l IH]; simpl; [apply steady_ret|].
  apply steady_bind; [apply Hb | intros _; exact IH].
Qed.

Lemma steady_modify (f : GameEngine -> GameEngine) :
  (forall e, R e (f e)) -> steady R (modify f).
Proof. intros H e. apply H. Qed.

Lemma steady_modify_state (f : GameState -> GameState) :
  (forall e, R e (set_game_state (f (game_state e)) e)) -> steady R (modify_state f).
Proof. intros H e. apply H. Qed.

(** The outside world. *)
Hypothesis R_clock : forall e n, R e (set_clock n e).
Hypothesis R_stdin : forall e l, R e (set_stdin l e).

Lemma steady_tick : steady R tick.
Proof. intro e. apply R_clock. Qed.

Lemma steady_await {A : Type} (call : nat -> reply A) : steady R (await call).
Proof.
  unfold await. apply steady_bind; [apply steady_tick|]. intro n.
  destruct (call n); [apply steady_ret | apply steady_raise].
Qed.

Lemma steady_random_choice (env : Env) {A : Type} (l : list A) :
  steady R (random_choice env l).
Proof.
  destruct l; [apply steady_raise|]. simpl.
  apply steady_bind; [apply steady_tick | intro; apply steady_ret].
Qed.

Lemma steady_random_target (env : Env) (l : list Player) :
  steady R (random_target env l).
Proof.
  unfold random_target. apply steady_bind; [apply steady_random_choice|].
  intro. apply steady_ret.
Qed.

Lemma steady_input : steady R input.
Proof.
  intro e. unfold input. destruct (stdin e); [apply R_refl | apply R_stdin].
Qed.

Lemma steady_input_until (valid : Z -> bool) : steady R (input_until valid).
Proof.
  intro e. unfold input_until.
  destruct (first_valid valid (stdin e)) as [[z|] rest]; apply R_stdin.
Qed.

Lemma steady_next_player (t : option Z) : steady R (next_player t).
Proof.
  intro e. rewrite next_player_eval.
  destruct (find_player t (players e)); apply R_refl.
Qed.

Lemma steady_role_value (p : Player) : steady R (role_value p).
Proof.
  unfold role_value. destruct (role p); [apply steady_ret | apply steady_raise].
Qed.

Lemma steady_decide_or_random (env : Env) (asker : Z)
  (ask : nat -> Z -> list Player -> GameState -> reply (option Z))
  (candidates : list Player) :
  steady R (decide_or_random env asker ask candidates).
Proof.
  unfold decide_or_random. apply steady_bind; [apply steady_get|intro e0].
  destruct (enable_ai_mode e0 && mem asker (ai_players e0));
    [|apply steady_random_target].
  apply steady_try_except; [|apply steady_random_target].
  apply steady_bind; [apply steady_await|intros [t|]];
    [apply steady_ret | apply steady_random_target].
Qed.

Lemma steady_werewolf_action (env : Env) (night : NightActions) :
  steady R (_process_werewolf_action env night).
Proof.
  unfold _process_werewolf_action.
  apply steady_bind; [apply steady_get|intro e0].
  destruct (filter (is_alive_role RoleType.WEREWOLF) (players e0)); [apply steady_ret|].
  match goal with |- steady R (match ?x with _ => _ end) => destruct x end;
    [apply steady_ret|].
  apply steady_bind; [apply steady_decide_or_random|intros [t|]]; apply steady_ret.
Qed.

(** The game state, field by field. *)
Hypothesis R_phase :
  forall e p, R e (set_game_state (set_phase p (game_state e)) e).
Hypothesis R_seer :
  forall e k v,
    R e (set_game_state
           (set_seer_results (dict_set Z.eqb k v (seer_results (game_state e)))
                             (game_state e)) e).
Hypothesis R_witch_saved :
  forall e x,
    R e (set_game_state
           (set_witch_saved (append_id (witch_saved (game_state e)) x)
                            (game_state e)) e).
Hypothesis R_witch_poisoned :
  forall e x,
    R e (set_game_state
           (set_witch_poisoned (append_id (witch_poisoned (game_state e)) x)
                               (game_state e)) e).
Hypothesis R_night_actions :
  forall e n, R e (set_game_state (set_night_actions (Some n) (game_state e)) e).
Hypothesis R_voted :
  forall e v, R e (set_game_state (set_voted_player v (game_state e)) e).
Hypothesis R_history :
  forall e kind z label,
    R e (set_game_state
           (set_history
              (history (game_state e)
               ++ [mkActionRecord kind 0 (Some z) label
                     (current_round (game_state e))])
              (game_state e)) e).
Hypothesis R_round :
  forall e,
    R e (set_game_state
           (set_current_round (current_round (game_state e) + 1) (game_state e)) e).
Hypothesis R_store :
  forall e w,
    check_winner (game_state e) (players e) = Some w ->
    R e (set_game_state
           (set_game_over true (set_winner (Some w) (game_state e))) e).

(** The deaths. *)
Hypothesis R_flag : forall e z, R e (set_players (flag_dead z (players e)) e).
Hypothesis R_remove :
  forall e z l,
    list_remove z (alive_players (game_state e)) = Some l ->
    R e (set_game_state (set_alive_players l (game_state e)) e).
Hypothesis R_dead :
  forall e z,
    R e (set_game_state
           (set_dead_players (dead_players (game_state e) ++ [z]) (game_state e)) e).

(** The potions, each used by the first living witch while she has it. *)
Hypothesis R_antidote :
  forall e w ws n,
    filter (is_alive_role RoleType.WITCH) (players e) = w :: ws ->
    has_antidote w = true ->
    R e (set_players
           (update_first (is_alive_role RoleType.WITCH) (use_antidote n) (players e)) e).
Hypothesis R_poison :
  forall e w ws n,
    filter (is_alive_role RoleType.WITCH) (players e) = w :: ws ->
    has_poison w = true ->
    R e (set_players
           (update_first (is_alive_role RoleType.WITCH) (use_poison n) (players e)) e).

Lemma steady_seer_action (env : Env) (night : NightActions) :
  steady R (_process_seer_action env night).
Proof.
  unfold _process_seer_action.
  apply steady_bind; [apply steady_get|intro e0].
  destruct (filter (is_alive_role RoleType.SEER) (players e0)); [apply steady_ret|].
  match goal with |- steady R (match ?x with _ => _ end) => destruct x end;
    [apply steady_ret|].
  apply steady_bind; [apply steady_decide_or_random|intros [t|]];
    [|apply steady_ret].
  apply steady_bind; [|intros _; apply steady_ret].
  destruct (find_player (Some t) (players e0)); [|apply steady_ret].
  apply steady_modify_state. intro e. apply R_seer.
Qed.

Lemma steady_alive_false (p : Player) : steady R (alive_false p).
Proof. intro e. apply R_flag. Qed.

Lemma steady_alive_players_remove (z : Z) : steady R (alive_players_remove z).
Proof.
  intro e. unfold alive_players_remove, bind, get.
  destruct (list_remove z (alive_players (game_state e))) as [l|] eqn:E;
    [now apply (R_remove e z) | apply R_refl].
Qed.

Lemma steady_dead_players_append (z : Z) : steady R (dead_players_append z).
Proof. intro e. apply R_dead. Qed.

Lemma steady_history_append (kind : ActionType.t) (z : Z) (label : string) :
  steady R (history_append kind z label).
Proof. intro e. apply R_history. Qed.

Lemma steady_resolve (night : NightActions) : steady R (_resolve_night_actions night).
Proof.
  unfold _resolve_night_actions. apply steady_for_each. intro z.
  apply steady_bind; [apply steady_next_player|intro p].
  apply steady_bind; [apply steady_alive_false|intros _].
  apply steady_bind; [apply steady_alive_players_remove|intros _].
  apply steady_bind; [apply steady_dead_players_append|intros _].
  apply steady_history_append.
Qed.

Lemma witch_uses_antidote_final (n : Z) (night : NightActions) (e : GameEngine) :
  final (witch_uses_antidote n night e)
  = set_players
      (update_first (is_alive_role RoleType.WITCH) (use_antidote n) (players e))
      (set_game_state
         (set_witch_saved (append_id (witch_saved (game_state e)) (werewolf_kill night))
                          (game_state e)) e).
Proof. reflexivity. Qed.

Lemma steady_witch_uses_antidote (n : Z) (night : NightActions) (e : GameEngine)
  (w : Player) (ws : list Player) :
  filter (is_alive_role RoleType.WITCH) (players e) = w :: ws ->
  has_antidote w = true ->
  R e (final (witch_uses_antidote n night e)).
Proof.
  intros Hw Ha. rewrite witch_uses_antidote_final.
  apply (R_trans _ _ _ (R_witch_saved e (werewolf_kill night))).
  exact (R_antidote
           (set_game_state
              (set_witch_saved
                 (append_id (witch_saved (game_state e)) (werewolf_kill night))
                 (game_state e)) e) w ws n Hw Ha).
Qed.

Lemma steady_witch_action (env : Env) (night : NightActions) :
  steady R (_process_witch_action env night).
Proof.
  intro e. unfold _process_witch_action. unfold bind at 1. unfold get at 1.
  destruct (filter (is_alive_role RoleType.WITCH) (players e)) as [|w ws] eqn:Hw;
    [apply R_refl|].
  destruct (enable_ai_mode e && mem (id w) (ai_players e)).
  - unfold bind at 1.
    match goal with |- context [await ?call e] =>
      pose proof (steady_await call e) as Hstep;
      pose proof (quiet_await call e) as Hq;
      destruct (await call e) as [action e1|x e1]
    end; cbn [final] in *; [|exact Hstep].
    destruct (Hq action e1 eq_refl) as [Hp Hg].
    apply (R_trans _ _ _ Hstep).
    destruct (wa_save action && (has_antidote w && is_not_None (werewolf_kill night)))
      eqn:Hsave.
    + apply andb_true_iff in Hsave as [_ Hsave].
      apply andb_true_iff in Hsave as [Ha _].
      apply (steady_witch_uses_antidote _ _ _ w ws); [now rewrite Hp | assumption].
    + destruct (truthy (wa_poison action) && has_poison w) eqn:Hpoison;
        [|apply R_refl].
      apply andb_true_iff in Hpoison as [_ Hh].
      unfold bind, modify_state, modify, ret. cbn [final].
      apply (R_trans _ _ _ (R_witch_poisoned e1 (wa_poison action))).
      rewrite <- Hp in Hw.
      exact (R_poison
               (set_game_state
                  (set_witch_poisoned
                     (append_id (witch_poisoned (game_state e1)) (wa_poison action))
                     (game_state e1)) e1) w ws _ Hw Hh).
  - destruct ((current_round (game_state e) =? 1)
              && (has_antidote w && is_not_None (werewolf_kill night))
              && truthy (werewolf_kill night)) eqn:Hsave; [|apply R_refl].
    apply andb_true_iff in Hsave as [Hsave _].
    apply andb_true_iff in Hsave as [_ Hsave].
    apply andb_true_iff in Hsave as [Ha _].
    now apply (steady_witch_uses_antidote _ _ _ w ws).
Qed.

Lemma steady_night_phase (env : Env) : steady R (_process_night_phase env).
Proof.
  unfold _process_night_phase.
  apply steady_bind; [apply steady_modify_state; intro; apply R_phase|intros _].
  apply steady_bind; [apply steady_werewolf_action|intro].
  apply steady_bind; [apply steady_seer_action|intro].
  apply steady_bind; [apply steady_witch_action|intro].
  apply steady_bind; [apply steady_modify_state; intro; apply R_night_actions|intros _].
  apply steady_resolve.
Qed.

Lemma steady_day_phase (env : Env) : steady R (_process_day_phase env).
Proof.
  unfold _process_day_phase.
  apply steady_bind; [apply steady_modify_state; intro; apply R_phase|intros _].
  apply steady_bind; [apply steady_get|intro e0].
  apply steady_for_each. intro p.
  destruct (has_ai_player e0 p); [apply steady_await|].
  destruct (is_human_turn e0 (id p)); [|apply steady_ret].
  apply steady_bind; [apply steady_input | intro; apply steady_ret].
Qed.

Lemma steady_hunter_reads (shootable : list Z) (lines : list (option Z)) :
  steady R (hunter_reads shootable lines).
Proof.
  induction lines as [|[t|] rest IH]; cbn [hunter_reads]; [| |exact IH].
  - apply steady_bind; [apply steady_modify; intro; apply R_stdin|intros _].
    apply steady_raise.
  - destruct (mem t shootable); [|exact IH].
    apply steady_bind; [apply steady_modify; intro; apply R_stdin|intros _].
    apply steady_bind; [apply steady_next_player|intro p].
    apply steady_bind; [apply steady_alive_false|intros _].
    intro e. unfold bind at 1. unfold get at 1.
    destruct (list_remove t (alive_players (game_state e))) as [l|] eqn:E;
      [|apply IH].
    unfold bind, modify_state, modify, dead_players_append, modify_state, modify.
    cbn [final]. apply (R_trans _ _ _ (R_remove e t l E)). apply R_dead.
Qed.

Lemma steady_hunter_shoot (env : Env) (hunter : Player) :
  steady R (_process_hunter_shoot env hunter).
Proof.
  unfold _process_hunter_shoot.
  apply steady_bind; [apply steady_get|intro e0].
  destruct (is_human_turn e0 (id hunter)); [apply steady_hunter_reads|].
  apply steady_bind.
  - destruct (enable_ai_mode e0 && mem (id hunter) (ai_players e0));
      [apply steady_await | apply steady_random_target].
  - intro t. apply steady_bind; [apply steady_next_player|intro target].
    apply steady_bind; [apply steady_alive_false|intros _].
    apply steady_bind; [apply steady_alive_players_remove|intros _].
    apply steady_dead_players_append.
Qed.

Lemma steady_cast_vote (env : Env) (alive_now : list Player)
  (votes : list (Z * option Z)) (voter : Player) :
  steady R (cast_vote env alive_now votes voter).
Proof.
  unfold cast_vote. apply steady_bind; [apply steady_get|intro e0].
  apply steady_bind; [|intro; apply steady_ret].
  destruct (has_ai_player e0 voter); [apply steady_await|].
  destruct (is_human_turn e0 (id voter)).
  - apply steady_bind; [apply steady_input_until | intro; apply steady_ret].
  - apply steady_bind; [apply steady_random_choice | intro; apply steady_ret].
Qed.

Lemma steady_collect_votes (env : Env) (alive_now voters : list Player) :
  forall votes, steady R (collect_votes env alive_now voters votes).
Proof.
  induction voters as [|v voters IH]; intro votes; simpl; [apply steady_ret|].
  apply steady_bind; [apply steady_cast_vote | intro; apply IH].
Qed.

Lemma steady_vote_phase (env : Env) : steady R (_process_vote_phase env).
Proof.
  unfold _process_vote_phase.
  apply steady_bind; [apply steady_modify_state; intro; apply R_phase|intros _].
  apply steady_bind; [apply steady_get|intro e0].
  apply steady_bind; [apply steady_collect_votes|intro votes].
  destruct (top_voted (count_votes votes)) as [|x [|y l]]; try apply steady_ret.
  apply steady_bind; [apply steady_next_player|intro player].
  apply steady_bind; [apply steady_alive_false|intros _].
  apply steady_bind; [apply steady_alive_players_remove|intros _].
  apply steady_bind; [apply steady_dead_players_append|intros _].
  apply steady_bind; [apply steady_modify_state; intro; apply R_voted|intros _].
  apply steady_bind; [apply steady_role_value|intros _].
  apply steady_bind; [apply steady_history_append|intros _].
  destruct (role_is RoleType.HUNTER player);
    [apply steady_hunter_shoot | apply steady_ret].
Qed.

Lemma steady_check_and_store : steady R check_and_store.
Proof.
  intro e. unfold check_and_store, bind, get.
  destruct (check_winner (game_state e) (players e)) as [w|] eqn:E;
    [|apply R_refl].
  exact (R_store e w E).
Qed.

Lemma steady_game_rounds (env : Env) (fuel : nat) : steady R (game_rounds env fuel).
Proof.
  induction fuel as [|fuel IH]; cbn [game_rounds].
  - apply steady_bind; [apply steady_get | intro; apply steady_ret].
  - apply steady_bind; [apply steady_get|intro e0].
    destruct (game_over (game_state e0)); [apply steady_ret|].
    apply steady_bind; [apply steady_check_and_store|intros [|]]; [apply steady_ret|].
    apply steady_bind; [apply steady_night_phase|intros _].
    apply steady_bind; [apply steady_check_and_store|intros [|]]; [apply steady_ret|].
    apply steady_bind; [apply steady_day_phase|intros _].
    apply steady_bind; [apply steady_vote_phase|intros _].
    apply steady_bind; [apply steady_modify_state; intro; apply R_round|intros _].
    exact IH.
Qed.

Lemma steady_run_game_loop (env : Env) (fuel : nat) :
  steady R (run_game_loop env fuel).
Proof.
  unfold run_game_loop.
  apply steady_bind; [apply steady_game_rounds|intros [|]]; [|apply steady_ret].
  apply steady_bind; [|intros _].
  - unfold _display_game_result. apply steady_bind; [apply steady_get|intro].
    apply steady_for_each. intro. apply steady_role_value.
  - apply steady_bind; [apply steady_get | intro; apply steady_ret].
Qed.

End Steady.

(** ** A game only moves forward *)

Lemma ages_refl (p : Player) : ages p p.
Proof. unfold ages. repeat split; auto. Qed.

Lemma ages_trans (p q r : Player) : ages p q -> ages q r -> ages p r.
Proof.
  unfold ages.
  intros (I1 & R1 & A1 & L1 & H1 & P1 & U1 & V1) (I2 & R2 & A2 & L2 & H2 & P2 & U2 & V2).
  repeat split; try congruence; auto.
  - intro E. destruct (has_antidote r) eqn:Er, (has_antidote q) eqn:Eq,
      (has_antidote p) eqn:Ep; try discriminate;
      try (specialize (H1 eq_refl); discriminate);
      try (specialize (H2 eq_refl); discriminate);
      rewrite U2, U1; reflexivity.
  - intro E. destruct (has_poison r) eqn:Er, (has_poison q) eqn:Eq,
      (has_poison p) eqn:Ep; try discriminate;
      try (specialize (P1 eq_refl); discriminate);
      try (specialize (P2 eq_refl); discriminate);
      rewrite V2, V1; reflexivity.
Qed.

Lemma Forall2_ages_refl (ps : list Player) : Forall2 ages ps ps.
Proof. induction ps; constructor; [apply ages_refl | assumption]. Qed.

Lemma Forall2_ages_trans (ps qs rs : list Player) :
  Forall2 ages ps qs -> Forall2 ages qs rs -> Forall2 ages ps rs.
Proof.
  intro H. revert rs. induction H as [|p q ps qs Hpq _ IH]; intros rs Hr;
    inversion Hr; subst; constructor.
  - eapply ages_trans; eauto.
  - now apply IH.
Qed.

Lemma update_first_ages (sel : Player -> bool) (f : Player -> Player)
  (ps : list Player) :
  (forall p, hd_error (filter sel ps) = Some p -> ages p (f p)) ->
  Forall2 ages ps (update_first sel f ps).
Proof.
  induction ps as [|p ps IH]; intro H; simpl; [constructor|].
  destruct (sel p) eqn:E.
  - constructor; [|apply Forall2_ages_refl]. apply H. simpl. now rewrite E.
  - constructor; [apply ages_refl|]. apply IH. intros q Hq. apply H.
    simpl. now rewrite E.
Qed.

Lemma stamped_nil (lo hi : Z) : stamped lo hi [].
Proof. constructor. Qed.

Lemma stamped_wider (lo lo' hi hi' : Z) (tail : list ActionRecord) :
  lo' <= lo -> hi <= hi' -> stamped lo hi tail -> stamped lo' hi' tail.
Proof.
  intros Hlo Hhi H. unfold stamped in *. eapply Forall_impl; [|exact H].
  cbn. intros r Hr. lia.
Qed.

Lemma evolves_refl (e : GameEngine) : evolves e e.
Proof.
  unfold evolves. repeat split; auto; try lia;
    try (exists []; now rewrite app_nil_r).
  - apply Forall2_ages_refl.
  - exists []. rewrite app_nil_r. split; [reflexivity | apply stamped_nil].
Qed.

Lemma evolves_trans (a b c : GameEngine) : evolves a b -> evolves b c -> evolves a c.
Proof.
  unfold evolves.
  intros (P1 & (h1 & H1 & S1) & (d1 & D1) & A1 & R1 & K1 & (s1 & W1) & (q1 & Q1)
          & C1 & C2 & C3 & C4)
         (P2 & (h2 & H2 & S2) & (d2 & D2) & A2 & R2 & K2 & (s2 & W2) & (q2 & Q2)
          & E1 & E2 & E3 & E4).
  split; [eapply Forall2_ages_trans; eauto|].
  split.
  { exists (h1 ++ h2). rewrite H2, H1, app_assoc. split; [reflexivity|].
    apply Forall_app. split.
    - apply (stamped_wider _ _ _ _ _ (Z.le_refl _) R2 S1).
    - apply (stamped_wider _ _ _ _ _ R1 (Z.le_refl _) S2). }
  split; [exists (d1 ++ d2); now rewrite D2, D1, app_assoc|].
  split; [auto|]. split; [lia|]. split; [auto|].
  split; [exists (s1 ++ s2); now rewrite W2, W1, app_assoc|].
  split; [exists (q1 ++ q2); now rewrite Q2, Q1, app_assoc|].
  repeat split; congruence.
Qed.

(** An assignment that leaves the players alone and does to the game state
    what [evolves] allows. *)
Ltac evolves_fields :=
  unfold evolves; cbn;
  repeat match goal with
         | |- _ /\ _ => split
         end;
  try apply Forall2_ages_refl; auto; try lia;
  try (exists []; rewrite app_nil_r; first [reflexivity | split; [reflexivity | apply stamped_nil]]).

Lemma list_remove_In (z : Z) (l l' : list Z) :
  list_remove z l = Some l' -> forall x, In x l' -> In x l.
Proof.
  revert l'. induction l as [|y l IH]; intros l' H x Hx; simpl in H; [discriminate|].
  destruct (y =? z).
  - injection H as <-. now right.
  - destruct (list_remove z l) as [r|]; [|discriminate]. injection H as <-.
    destruct Hx as [<-|Hx]; [now left | right; eapply IH; eauto].
Qed.

Lemma dict_set_keeps_keys {V : Type} (k k' : Z) (v : V) (m : list (Z * V)) :
  In k (map fst m) -> In k (map fst (dict_set Z.eqb k' v m)).
Proof.
  induction m as [|[k0 v0] m IH]; simpl; [contradiction|].
  destruct (Z.eqb_spec k0 k') as [->|E]; simpl; intros [H|H]; auto.
Qed.

Lemma evolves_game (env : Env) (fuel : nat) :
  steady evolves (_process_night_phase env)
  /\ steady evolves (_process_day_phase env)
  /\ steady evolves (_process_vote_phase env)
  /\ steady evolves (run_game_loop env fuel).
Proof.
  assert (R_clock : forall e n, evolves e (set_clock n e)) by (intros; evolves_fields).
  assert (R_stdin : forall e l, evolves e (set_stdin l e)) by (intros; evolves_fields).
  assert (R_phase : forall e p,
             evolves e (set_game_state (set_phase p (game_state e)) e))
    by (intros; evolves_fields).
  assert (R_seer : forall e k v,
             evolves e (set_game_state
                          (set_seer_results
                             (dict_set Z.eqb k v (seer_results (game_state e)))
                             (game_state e)) e)).
  { intros. evolves_fields. intros k0 Hk. now apply dict_set_keeps_keys. }
  assert (R_witch_saved : forall e x,
             evolves e (set_game_state
                          (set_witch_saved (append_id (witch_saved (game_state e)) x)
                                           (game_state e)) e)).
  { intros e [z|]; evolves_fields. now exists [z]. }
  assert (R_witch_poisoned : forall e x,
             evolves e (set_game_state
                          (set_witch_poisoned
                             (append_id (witch_poisoned (game_state e)) x)
                             (game_state e)) e)).
  { intros e [z|]; evolves_fields. now exists [z]. }
  assert (R_night_actions : forall e n,
             evolves e (set_game_state (set_night_actions (Some n) (game_state e)) e))
    by (intros; evolves_fields).
  assert (R_voted : forall e v,
             evolves e (set_game_state (set_voted_player v (game_state e)) e))
    by (intros; evolves_fields).
  assert (R_history : forall e kind z label,
             evolves e (set_game_state
                          (set_history
                             (history (game_state e)
                              ++ [mkActionRecord kind 0 (Some z) label
                                    (current_round (game_state e))])
                             (game_state e)) e)).
  { intros. evolves_fields. eexists. split; [reflexivity|].
    repeat constructor; cbn; lia. }
  assert (R_round : forall e,
             evolves e (set_game_state
                          (set_current_round (current_round (game_state e) + 1)
                                             (game_state e)) e)).
  { intros. evolves_fields. }
  assert (R_store : forall e w,
             check_winner (game_state e) (players e) = Some w ->
             evolves e (set_game_state
                          (set_game_over true (set_winner (Some w) (game_state e))) e))
    by (intros; evolves_fields).
  assert (R_flag : forall e z, evolves e (set_players (flag_dead z (players e)) e)).
  { intros. evolves_fields. apply update_first_ages. intros p _.
    unfold ages. cbn. repeat split; auto. discriminate. }
  assert (R_remove : forall e z l,
             list_remove z (alive_players (game_state e)) = Some l ->
             evolves e (set_game_state (set_alive_players l (game_state e)) e)).
  { intros e z l H. evolves_fields. intros x Hx. eapply list_remove_In; eauto. }
  assert (R_dead : forall e z,
             evolves e (set_game_state
                          (set_dead_players (dead_players (game_state e) ++ [z])
                                            (game_state e)) e)).
  { intros. evolves_fields. now exists [z]. }
  assert (R_antidote : forall e w ws n,
             filter (is_alive_role RoleType.WITCH) (players e) = w :: ws ->
             has_antidote w = true ->
             evolves e (set_players
                          (update_first (is_alive_role RoleType.WITCH)
                                        (use_antidote n) (players e)) e)).
  { intros e w ws n Hw Ha. evolves_fields. apply update_first_ages.
    rewrite Hw. intros p [= <-]. unfold ages. cbn. rewrite Ha.
    repeat split; auto; discriminate. }
  assert (R_poison : forall e w ws n,
             filter (is_alive_role RoleType.WITCH) (players e) = w :: ws ->
             has_poison w = true ->
             evolves e (set_players
                          (update_first (is_alive_role RoleType.WITCH)
                                        (use_poison n) (players e)) e)).
  { intros e w ws n Hw Ha. evolves_fields. apply update_first_ages.
    rewrite Hw. intros p [= <-]. unfold ages. cbn. rewrite Ha.
    repeat split; auto; discriminate. }
  split; [|split; [|split]].
  - apply (steady_night_phase evolves evolves_refl evolves_trans); assumption.
  - apply (steady_day_phase evolves evolves_refl evolves_trans); assumption.
  - apply (steady_vote_phase evolves evolves_refl evolves_trans); assumption.
  - apply (steady_run_game_loop evolves evolves_refl evolves_trans); assumption.
Qed.

Lemma later_evolves (env : Env) (e e' : GameEngine) : later env e e' -> evolves e e'.
Proof.
  induction 1 as [|e' _ IH|e' _ IH|e' _ IH|fuel e' _ IH].
  - apply evolves_refl.
  - exact (evolves_trans _ _ _ IH (proj1 (evolves_game env 0) e')).
  - exact (evolves_trans _ _ _ IH (proj1 (proj2 (evolves_game env 0)) e')).
  - exact (evolves_trans _ _ _ IH (proj1 (proj2 (proj2 (evolves_game env 0))) e')).
  - exact (evolves_trans _ _ _ IH (proj2 (proj2 (proj2 (evolves_game env fuel))) e')).
Qed.

Lemma ages_ids (ps ps' : list Player) :
  Forall2 ages ps ps' -> map id ps' = map id ps /\ map role ps' = map role ps.
Proof.
  induction 1 as [|p p' ps ps' (Hi & Hr & _) _ [IH1 IH2]]; [now split|].
  simpl. now rewrite Hi, Hr, IH1, IH2.
Qed.

Lemma ages_alive_flag (ps ps' : list Player) (z : Z) :
  Forall2 ages ps ps' ->
  option_map alive (find_player (Some z) ps') = Some true ->
  option_map alive (find_player (Some z) ps) = Some true.
Proof.
  unfold find_player.
  induction 1 as [|p p' ps ps' (Hi & _ & _ & Ha & _) _ IH]; [discriminate|].
  simpl. rewrite Hi. destruct (id p =? z); [|exact IH].
  simpl. intros [= H]. now rewrite (Ha H).
Qed.

(** X8. However a game is played on - night, day and vote phases or whole runs
    of the main loop, finished or stopped by an exception - the players
    keep their ids and roles, nobody who was dead is alive again, nobody
    joins the alive list and nobody leaves the dead list. *)
Theorem nobody_comes_back_to_life (env : Env) (e e' : GameEngine) :
  later env e e' ->
  map id (players e') = map id (players e)
  /\ map role (players e') = map role (players e)
  /\ (forall z, alive_flag e' z = Some true -> alive_flag e z = Some true)
  /\ (forall z, In z (alive_players (game_state e')) ->
                In z (alive_players (game_state e)))
  /\ (forall z, In z (dead_players (game_state e)) ->
                In z (dead_players (game_state e'))).
Proof.
  intro H. apply later_evolves in H.
  destruct H as (Hp & _ & (d & Hd) & Ha & _).
  destruct (ages_ids _ _ Hp) as [Hi Hr].
  repeat split; try assumption.
  - intro z. now apply ages_alive_flag.
  - intros z Hz. rewrite Hd. apply in_or_app. now left.
Qed.

Lemma villager_5_stays_dead :
  alive_flag
    (final (_process_vote_phase villager_script
              (final (_resolve_night_actions (night_of (Some 5) None None) ai_table))))
    5 <> Some true.
Proof.
  intro H.
  destruct (nobody_comes_back_to_life villager_script
              (final (_resolve_night_actions (night_of (Some 5) None None) ai_table))
              (final (_process_vote_phase villager_script
                        (final (_resolve_night_actions
                                  (night_of (Some 5) None None) ai_table)))))
    as (_ & _ & Hflag & _).
  - apply later_vote, later_now.
  - apply Hflag in H. vm_compute in H. discriminate H.
Defined.

(** X9. The history is append-only: playing on leaves every record where it
    was and adds records at the end, each stamped with a round between the
    round the play started in and the round it stopped in; the round counter
    never goes back. *)
Theorem history_is_append_only (env : Env) (e e' : GameEngine) :
  later env e e' ->
  (exists tail,
     history (game_state e') = history (game_state e) ++ tail
     /\ Forall (fun r => current_round (game_state e) <= round r
                         <= current_round (game_state e')) tail)
  /\ current_round (game_state e) <= current_round (game_state e').
Proof.
  intro H. apply later_evolves in H.
  destruct H as (_ & Hh & _ & _ & Hr & _). split; assumption.
Qed.

Lemma history_after_a_night_and_a_vote :
  (exists tail,
     history (game_state
                (final (_process_vote_phase villager_script
                          (final (_process_night_phase villager_script ai_table)))))
     = history (game_state ai_table) ++ tail
     /\ Forall (fun r => current_round (game_state ai_table) <= round r
                         <= current_round
                              (game_state
                                 (final (_process_vote_phase villager_script
                                           (final (_process_night_phase
                                                     villager_script ai_table))))))
               tail)
  /\ current_round (game_state ai_table)
     <= current_round
          (game_state
             (final (_process_vote_phase villager_script
                       (final (_process_night_phase villager_script ai_table))))).
Proof.
  apply (history_is_append_only villager_script ai_table
           (final (_process_vote_phase villager_script
                     (final (_process_night_phase villager_script ai_table))))).
  apply later_vote, later_night, later_now.
Defined.

Lemma ages_find (ps ps' : list Player) (z : Z) :
  Forall2 ages ps ps' ->
  match find_player (Some z) ps, find_player (Some z) ps' with
  | Some p, Some p' => ages p p'
  | None, None => True
  | _, _ => False
  end.
Proof.
  unfold find_player.
  induction 1 as [|p q ps qs Ha _ IH]; [exact I|].
  pose proof Ha as (Hi & _). simpl. rewrite Hi.
  destruct (id p =? z); [exact Ha | exact IH].
Qed.

(** X10. The witch's potions only go: however the game is played on, a
    potion that the player registered under an id no longer had is not
    back, and the round written down for the use of a potion changes only
    when the potion goes. *)
Theorem potions_are_never_restored (env : Env) (e e' : GameEngine) (z : Z) :
  later env e e' ->
  (potion has_antidote e' z = Some true -> potion has_antidote e z = Some true)
  /\ (potion has_poison e' z = Some true -> potion has_poison e z = Some true)
  /\ (potion has_antidote e' z = potion has_antidote e z ->
      potion used_antidote_night e' z = potion used_antidote_night e z)
  /\ (potion has_poison e' z = potion has_poison e z ->
      potion used_poison_night e' z = potion used_poison_night e z).
Proof.
  intros H. apply later_evolves in H. destruct H as [H _].
  pose proof (ages_find _ _ z H) as Hf. unfold potion.
  destruct (find_player (Some z) (players e)) as [p|],
           (find_player (Some z) (players e')) as [q|]; try contradiction.
  - destruct Hf as (_ & _ & _ & _ & H1 & H2 & H3 & H4). cbn [option_map].
    split; [|split; [|split]].
    + intros [= E]. now rewrite (H1 E).
    + intros [= E]. now rewrite (H2 E).
    + intros [= E]. now rewrite (H3 E).
    + intros [= E]. now rewrite (H4 E).
  - cbn [option_map]. repeat split; intro; auto; discriminate.
Qed.

Lemma the_poison_is_gone_after_the_first_night :
  potion has_poison
    (final (_process_night_phase (poison_script 5 2)
              (final (_process_night_phase (poison_script 5 2) ai_table)))) 1
  <> Some true.
Proof.
  intro H.
  destruct (potions_are_never_restored (poison_script 5 2)
              (final (_process_night_phase (poison_script 5 2) ai_table))
              (final (_process_night_phase (poison_script 5 2)
                        (final (_process_night_phase (poison_script 5 2) ai_table))))
              1) as (_ & Hp & _).
  - apply later_night, later_now.
  - apply Hp in H. vm_compute in H. discriminate H.
Defined.

(** ** The list of the living as the game state gives it *)

Lemma mem_false_not_In (x : Z) (l : list Z) : mem x l = false <-> ~ In x l.
Proof.
  rewrite <- mem_In. destruct (mem x l); split; intro H; try reflexivity;
    try discriminate; try (intro; discriminate). now exfalso; apply H.
Qed.

Lemma filter_nonzero_length (l : list Z) :
  NoDup l -> In 0 l ->
  len (filter (fun p => negb (p =? 0)) l) = len l - 1.
Proof.
  unfold len. induction l as [|x l IH]; intros Hn Hin; [contradiction|].
  inversion Hn as [|? ? Hx Hl]; subst.
  cbn [filter]. destruct (Z.eqb_spec x 0) as [->|E]; cbn [negb].
  - assert (Hf : filter (fun p => negb (p =? 0)) l = l).
    { apply forallb_filter_id. apply forallb_forall. intros y Hy.
      destruct (Z.eqb_spec y 0) as [->|]; [contradiction|reflexivity]. }
    rewrite Hf. cbn [List.length]. lia.
  - destruct Hin as [->|Hin]; [contradiction|].
    specialize (IH Hl Hin). cbn [List.length]. lia.
Qed.

(** X11. [GameState.get_alive_players] tests each id of [alive_players] for
    truth, so it lists the living players other than player 0, whom
    [is_player_alive] reports alive: in a well-formed registry where the
    player with id 0 lives, the list is one short of the living players. *)
Theorem get_alive_players_leaves_out_player_0 (e : GameEngine) :
  consistent e ->
  living e 0 ->
  is_player_alive (game_state e) 0 = true
  /\ ~ In 0 (get_alive_players (game_state e))
  /\ (forall z, In z (get_alive_players (game_state e)) <->
                z <> 0 /\ is_player_alive (game_state e) z = true)
  /\ len (get_alive_players (game_state e))
     = len (filter alive (players e)) - 1.
Proof.
  intros Hc Hl.
  pose proof (consistent_partitioned e Hc) as (_ & _ & _ & Hnd & _).
  assert (H0 : In 0 (alive_players (game_state e))).
  { destruct Hc as (_ & Ha & _). rewrite Ha.
    destruct Hl as (p & Hp & Hi & Hal). rewrite <- Hi. apply in_map.
    apply filter_In. now split. }
  unfold is_player_alive, get_alive_players.
  split; [now apply mem_In|]. split; [|split].
  - intro H. apply filter_In in H as [_ H]. discriminate H.
  - intro z. rewrite filter_In, mem_In. split.
    + intros [H1 H2]. split; [|exact H1].
      intros ->. discriminate H2.
    + intros [H1 H2]. split; [exact H2|].
      destruct (Z.eqb_spec z 0); [contradiction|reflexivity].
  - rewrite (filter_nonzero_length _ Hnd H0).
    destruct Hc as (_ & Ha & _). rewrite Ha. unfold len. now rewrite length_map.
Qed.

Lemma nine_live_at_the_table_and_eight_are_listed :
  is_player_alive (game_state ai_table) 0 = true
  /\ ~ In 0 (get_alive_players (game_state ai_table))
  /\ (forall z, In z (get_alive_players (game_state ai_table)) <->
                z <> 0 /\ is_player_alive (game_state ai_table) z = true)
  /\ len (get_alive_players (game_state ai_table))
     = len (filter alive (players ai_table)) - 1.
Proof.
  apply (get_alive_players_leaves_out_player_0 ai_table).
  - exact ai_table_consistent.
  - exists (mkPlayer 0 (Some RoleType.SEER) true true true true None None).
    split; [|split].
    + vm_compute. left. reflexivity.
    + reflexivity.
    + reflexivity.
Defined.

(** ** The day *)

Lemma talked_refl (e : GameEngine) : talked e e.
Proof. unfold talked. repeat split; auto. now exists []. Qed.

Lemma talked_trans (a b c : GameEngine) : talked a b -> talked b c -> talked a c.
Proof.
  intros (P1 & G1 & A1 & M1 & S1 & H1 & C1 & r1 & I1)
         (P2 & G2 & A2 & M2 & S2 & H2 & C2 & r2 & I2).
  unfold talked. repeat split; try congruence; try lia.
  exists (r1 ++ r2). now rewrite I1, I2, app_assoc.
Qed.

Lemma talked_clock (e : GameEngine) : talked e (set_clock (S (clock e)) e).
Proof. unfold talked. cbn. repeat split; auto. now exists []. Qed.

Lemma talked_await {A : Type} (call : nat -> reply A) : steady talked (await call).
Proof.
  intro e. unfold await, bind, tick.
  destruct (call (clock e)); apply talked_clock.
Qed.

Lemma talked_input : steady talked input.
Proof.
  intro e. unfold input. destruct (stdin e) as [|line rest] eqn:E; [apply talked_refl|].
  unfold talked. cbn. repeat split; auto. exists [line]. exact E.
Qed.

(** X12. The day phase only talks: it sets the phase to day and then, for
    each living player, awaits a speech of its AI player or reads one
    console line for the human; the registry, the alive and dead lists,
    the history, the round and the verdict are left as they were, also
    when a speech or the console fails. *)
Theorem day_phase_only_talks (env : Env) (e : GameEngine) :
  talked (set_game_state (set_phase PhaseType.DAY (game_state e)) e)
         (final (_process_day_phase env e)).
Proof.
  unfold _process_day_phase.
  change (final ((modify_state (set_phase PhaseType.DAY) ;;;
                  e0 <- get ;;
                  for_each (filter alive (players e0))
                    (fun player =>
                       if has_ai_player e0 player
                       then await (fun n => generate_speech env n (id player)
                                              (players e0) (game_state e0))
                       else if is_human_turn e0 (id player)
                       then input ;;; ret tt
                       else ret tt)) e))
    with (final ((e0 <- get ;;
                  for_each (filter alive (players e0))
                    (fun player =>
                       if has_ai_player e0 player
                       then await (fun n => generate_speech env n (id player)
                                              (players e0) (game_state e0))
                       else if is_human_turn e0 (id player)
                       then input ;;; ret tt
                       else ret tt))
                   (set_game_state (set_phase PhaseType.DAY (game_state e)) e))).
  generalize (set_game_state (set_phase PhaseType.DAY (game_state e)) e) as e1.
  apply (steady_bind talked talked_trans); [apply (steady_get talked talked_refl)|].
  intro e0. apply (steady_for_each talked talked_refl talked_trans). intro p.
  destruct (has_ai_player e0 p); [apply talked_await|].
  destruct (is_human_turn e0 (id p)); [|apply (steady_ret talked talked_refl)].
  apply (steady_bind talked talked_trans); [apply talked_input|].
  intro. apply (steady_ret talked talked_refl).
Qed.

(** ** The status report *)

Lemma filter_and_le {A : Type} (f g : A -> bool) (l : list A) :
  len (filter (fun x => f x && g x) l) <= len (filter f l).
Proof.
  rewrite <- filter_filter.
  pose proof (filter_split_len g (filter f l)) as H.
  pose proof (len_nonneg (filter (fun x => negb (g x)) (filter f l))). lia.
Qed.

(** X13. In a well-formed registry the counts of [get_game_status] agree
    with the game state: the number of living players is the length of
    [alive_players], with the dead list it makes up the registry, the
    living werewolves are among them, and as long as no winner is stored
    [check_winner] decides by these two numbers alone. *)
Theorem game_status_agrees_with_the_state (e : GameEngine) :
  consistent e ->
  status_alive_players (get_game_status e) = len (alive_players (game_state e))
  /\ status_alive_players (get_game_status e) + len (dead_players (game_state e))
     = len (players e)
  /\ 0 <= status_werewolves_alive (get_game_status e)
       <= status_alive_players (get_game_status e)
  /\ (status_winner (get_game_status e) = None ->
      check_winner (game_state e) (players e) =
        if status_werewolves_alive (get_game_status e) =? 0
        then Some CampType.VILLAGER
        else if status_alive_players (get_game_status e)
                - status_werewolves_alive (get_game_status e)
                <=? status_werewolves_alive (get_game_status e)
             then Some CampType.WEREWOLF
             else None).
Proof.
  intro Hc.
  pose proof (consistent_partitioned e Hc) as (_ & _ & Hsum & _).
  pose proof Hc as (_ & Ha & _).
  assert (Hl : len (filter alive (players e)) = len (alive_players (game_state e))).
  { rewrite Ha. unfold len. now rewrite length_map. }
  unfold get_game_status. cbn [status_alive_players status_werewolves_alive status_winner].
  split; [exact Hl|]. split; [rewrite Hl; exact Hsum|]. split.
  - split; [apply len_nonneg | apply filter_and_le].
  - intro Hw.
    assert (Hn : winner (game_state e) = None)
      by (destruct (winner (game_state e)); [discriminate Hw | reflexivity]).
    rewrite (check_winner_by_counts _ _ Hn), alive_split.
    fold (alive_werewolves (players e)).
    destruct (alive_werewolves (players e) =? 0); [reflexivity|].
    now replace (alive_werewolves (players e) + alive_good (players e)
                 - alive_werewolves (players e))
      with (alive_good (players e)) by lia.
Qed.

Lemma status_at_the_table :
  status_alive_players (get_game_status ai_table) = len (alive_players (game_state ai_table))
  /\ status_alive_players (get_game_status ai_table)
     + len (dead_players (game_state ai_table))
     = len (players ai_table)
  /\ 0 <= status_werewolves_alive (get_game_status ai_table)
       <= status_alive_players (get_game_status ai_table)
  /\ (status_winner (get_game_status ai_table) = None ->
      check_winner (game_state ai_table) (players ai_table) =
        if status_werewolves_alive (get_game_status ai_table) =? 0
        then Some CampType.VILLAGER
        else if status_alive_players (get_game_status ai_table)
                - status_werewolves_alive (get_game_status ai_table)
                <=? status_werewolves_alive (get_game_status ai_table)
             then Some CampType.WEREWOLF
             else None).
Proof.
  apply (game_status_agrees_with_the_state ai_table).
  exact ai_table_consistent.
Defined.

(** ** The verdict *)

Lemma same_verdict_refl (e : GameEngine) : same_verdict e e.
Proof. now split. Qed.

Lemma same_verdict_trans (a b c : GameEngine) :
  same_verdict a b -> same_verdict b c -> same_verdict a c.
Proof. intros [H1 H2] [H3 H4]. split; congruence. Qed.

(** Across a night, a day or a vote phase,
    finished or stopped by an exception, [game_over] and [winner] are what
    they were, whoever died. Only the check of the main loop writes them. *)
Lemma phases_same_verdict (env : Env) (e : GameEngine) :
  same_verdict e (final (_process_night_phase env e))
  /\ same_verdict e (final (_process_day_phase env e))
  /\ same_verdict e (final (_process_vote_phase env e)).
Proof.
  split; [|split].
  - apply (steady_night_phase same_verdict same_verdict_refl same_verdict_trans);
      intros; now split.
  - apply (steady_day_phase same_verdict same_verdict_refl same_verdict_trans);
      intros; now split.
  - apply (steady_vote_phase same_verdict same_verdict_refl same_verdict_trans);
      intros; now split.
Qed.

Lemma same_verdict_decided (e e' : GameEngine) :
  same_verdict e e' -> decided e -> decided e'.
Proof. unfold decided. intros [-> ->] H. exact H. Qed.

Lemma check_and_store_Done (e e' : GameEngine) (b : bool) :
  check_and_store e = Done b e' ->
  (b = true /\ game_over (game_state e') = true
   /\ exists c, winner (game_state e') = Some c)
  \/ (b = false /\ e' = e).
Proof.
  unfold check_and_store, bind, get, modify_state, modify, ret.
  destruct (check_winner (game_state e) (players e)) as [w|].
  - intros [= <- <-]. left. cbn. eauto.
  - intros [= <- <-]. now right.
Qed.

Lemma game_rounds_Done (env : Env) (fuel : nat) (e e' : GameEngine) (b : bool) :
  decided e ->
  game_rounds env fuel e = Done b e' ->
  b = game_over (game_state e') /\ decided e'.
Proof.
  revert e. induction fuel as [|fuel IH]; intros e Hd; cbn [game_rounds].
  - unfold bind, get, ret. intros [= <- <-]. now split.
  - unfold bind at 1. unfold get at 1.
    destruct (game_over (game_state e)) eqn:Hover.
    + unfold ret. intros [= <- <-]. now split.
    + intro H. apply bind_Done in H as (stop & e1 & Hs & H).
      apply check_and_store_Done in Hs as [(-> & Ho & c & Hw)|(-> & ->)].
      { injection H as <- <-. split; [now rewrite Ho|]. intros _. eauto. }
      apply bind_Done in H as ([] & e2 & Hn & H).
      assert (Hd2 : decided e2).
      { apply (same_verdict_decided e); [|exact Hd].
        pose proof (proj1 (phases_same_verdict env e)) as Hv.
        now rewrite Hn in Hv. }
      apply bind_Done in H as (stop & e3 & Hs & H).
      apply check_and_store_Done in Hs as [(-> & Ho & c & Hw)|(-> & ->)].
      { injection H as <- <-. split; [now rewrite Ho|]. intros _. eauto. }
      apply bind_Done in H as ([] & e4 & Hday & H).
      apply bind_Done in H as ([] & e5 & Hvote & H).
      apply bind_Done in H as ([] & e6 & Hround & H).
      injection Hround as <-.
      assert (Hd4 : decided e4).
      { apply (same_verdict_decided e2); [|exact Hd2].
        pose proof (proj1 (proj2 (phases_same_verdict env e2))) as Hv.
        now rewrite Hday in Hv. }
      assert (Hd5 : decided e5).
      { apply (same_verdict_decided e4); [|exact Hd4].
        pose proof (proj2 (proj2 (phases_same_verdict env e4))) as Hv.
        now rewrite Hvote in Hv. }
      apply IH in H; [exact H|]. exact Hd5.
Qed.

(** X14. No phase ends the game: across a night, a day or a vote phase,
    finished or stopped by an exception, [game_over] and [winner] are what
    they were, whoever died. Only the check of the main loop writes them. *)
Theorem phases_never_end_the_game (env : Env) (e : GameEngine) :
  (game_over (game_state (final (_process_night_phase env e)))
   = game_over (game_state e)
   /\ winner (game_state (final (_process_night_phase env e)))
      = winner (game_state e))
  /\ (game_over (game_state (final (_process_day_phase env e)))
      = game_over (game_state e)
      /\ winner (game_state (final (_process_day_phase env e)))
         = winner (game_state e))
  /\ (game_over (game_state (final (_process_vote_phase env e)))
      = game_over (game_state e)
      /\ winner (game_state (final (_process_vote_phase env e)))
         = winner (game_state e)).
Proof. exact (phases_same_verdict env e). Qed.

Lemma display_Done (l : list Player) (e e' : GameEngine) :
  for_each l role_value e = Done tt e' -> e' = e.
Proof.
  induction l as [|p l IH]; cbn [for_each].
  - now intros [= <-].
  - intro H. apply bind_Done in H as ([] & e1 & Hp & H).
    unfold role_value in Hp. destruct (role p); [|discriminate Hp].
    injection Hp as <-. exact (IH H).
Qed.

Lemma run_game_loop_Done (env : Env) (fuel : nat)
  (e e' : GameEngine) (r : option (option CampType.t)) :
  decided e ->
  run_game_loop env fuel e = Done r e' ->
  match r with
  | Some w =>
      exists c, w = Some c
                /\ winner (game_state e') = Some c
                /\ game_over (game_state e') = true
                /\ check_winner (game_state e') (players e') = Some c
  | None => game_over (game_state e') = false
  end.
Proof.
  intros Hd H. unfold run_game_loop in H.
  apply bind_Done in H as (ended & e1 & Hr & H).
  apply (game_rounds_Done env fuel e e1 ended Hd) in Hr as [-> Hd1].
  destruct (game_over (game_state e1)) eqn:Hover.
  - apply bind_Done in H as ([] & e2 & Hdis & H).
    unfold _display_game_result in Hdis.
    apply bind_Done in Hdis as (e0 & e1' & Hg & Hdis). injection Hg as <- <-.
    apply display_Done in Hdis. subst e2.
    unfold bind, get, ret in H. injection H as <- <-.
    destruct (Hd1 Hover) as [c Hc]. exists c.
    split; [exact Hc|]. split; [exact Hc|]. split; [exact Hover|].
    unfold check_winner. now rewrite Hc.
  - injection H as <- <-. exact Hover.
Qed.

(** X15. The main loop returns a camp, never a draw: started in a state
    where a finished game has its winner stored (as in every state after
    setup, where the game is not over), a run that returns hands back the
    winner stored in the state it leaves, [game_over] is set there, and
    [check_winner] names that same camp; a run whose rounds ran out leaves
    the game unfinished. *)
Theorem the_loop_returns_the_stored_winner (env : Env) (fuel : nat)
  (e e' : GameEngine) (r : option (option CampType.t)) :
  (game_over (game_state e) = true -> exists c, winner (game_state e) = Some c) ->
  run_game_loop env fuel e = Done r e' ->
  match r with
  | Some w =>
      exists c, w = Some c
                /\ winner (game_state e') = Some c
                /\ game_over (game_state e') = true
                /\ check_winner (game_state e') (players e') = Some c
  | None => game_over (game_state e') = false
  end.
Proof. exact (run_game_loop_Done env fuel e e' r). Qed.

Lemma the_simple_game_returns_the_werewolves :
  exists c, Some CampType.WEREWOLF = Some c
            /\ winner (game_state (final (run_game_loop silent 20 simple_table)))
               = Some c
            /\ game_over (game_state (final (run_game_loop silent 20 simple_table)))
               = true
            /\ check_winner
                 (game_state (final (run_game_loop silent 20 simple_table)))
                 (players (final (run_game_loop silent 20 simple_table)))
               = Some c.
Proof.
  apply (the_loop_returns_the_stored_winner silent 20 simple_table
           (final (run_game_loop silent 20 simple_table))
           (Some (Some CampType.WEREWOLF))).
  - intro H. vm_compute in H. discriminate H.
  - vm_compute. reflexivity.
Defined.

(** ** Which exceptions leave which phase *)

Section Throws.

Variable S : Exn -> Prop.

Lemma throws_ret {A : Type} (a : A) : throws S (ret a).
Proof. intros e x e' H. discriminate H. Qed.

Lemma throws_raise {A : Type} (x : Exn) : S x -> throws S (@raise A x).
Proof. intros Hx e y e' [= <- _]. exact Hx. Qed.

Lemma throws_get : throws S get.
Proof. intros e x e' H. discriminate H. Qed.

Lemma throws_modify (f : GameEngine -> GameEngine) : throws S (modify f).
Proof. intros e x e' H. discriminate H. Qed.

Lemma throws_modify_state (f : GameState -> GameState) : throws S (modify_state f).
Proof. intros e x e' H. discriminate H. Qed.

Lemma throws_tick : throws S tick.
Proof. intros e x e' H. discriminate H. Qed.

Lemma throws_bind {A B : Type} (c : M A) (k : A -> M B) :
  throws S c -> (forall a, throws S (k a)) -> throws S (bind c k).
Proof.
  intros Hc Hk e x e'. unfold bind. destruct (c e) as [a e1|y e1] eqn:E.
  - apply Hk.
  - intros [= <- _]. exact (Hc _ _ _ E).
Qed.

Lemma throws_for_each {A : Type} (l : list A) (body : A -> M unit) :
  (forall a, throws S (body a)) -> throws S (for_each l body).
Proof.
  intro Hb. induction l as [|a l IH]; cbn [for_each]; [apply throws_ret|].
  apply throws_bind; [apply Hb | intros _; exact IH].
Qed.

Lemma throws_total {A : Type} (c : M A) :
  (forall e, exists a e', c e = Done a e') -> throws S c.
Proof. intros Ht e x e' H. destruct (Ht e) as (a & e1 & E). congruence. Qed.

Lemma throws_await {A : Type} (call : nat -> reply A) :
  S ActorError -> throws S (await call).
Proof.
  intro Hs. unfold await. apply throws_bind; [apply throws_tick|]. intro n.
  destruct (call n); [apply throws_ret | now apply throws_raise].
Qed.

Lemma throws_input : S EOFError -> throws S input.
Proof.
  intros Hs e x e'. unfold input. destruct (stdin e); [|discriminate].
  intros [= <- _]. exact Hs.
Qed.

Lemma throws_input_until (valid : Z -> bool) : S EOFError -> throws S (input_until valid).
Proof.
  intros Hs e x e'. unfold input_until.
  destruct (first_valid valid (stdin e)) as [[z|] rest]; [discriminate|].
  intros [= <- _]. exact Hs.
Qed.

Lemma throws_random_choice {A : Type} (env : Env) (l : list A) :
  (l = [] -> S IndexError) -> throws S (random_choice env l).
Proof.
  intro Hs. unfold random_choice. destruct l as [|d l].
  - apply throws_raise. now apply Hs.
  - apply throws_bind; [apply throws_tick | intro; apply throws_ret].
Qed.

Lemma throws_random_target (env : Env) (l : list Player) :
  (l = [] -> S IndexError) -> throws S (random_target env l).
Proof.
  intro Hs. unfold random_target.
  apply throws_bind; [now apply throws_random_choice | intro; apply throws_ret].
Qed.

Lemma throws_next_player (t : option Z) : S StopIteration -> throws S (next_player t).
Proof.
  intro Hs. unfold next_player. apply throws_bind; [apply throws_get|]. intro e.
  destruct (find_player t (players e)); [apply throws_ret | now apply throws_raise].
Qed.

Lemma throws_alive_players_remove (z : Z) :
  S ValueError -> throws S (alive_players_remove z).
Proof.
  intro Hs. unfold alive_players_remove. apply throws_bind; [apply throws_get|].
  intro e. destruct (list_remove z (alive_players (game_state e)));
    [apply throws_modify_state | now apply throws_raise].
Qed.

Lemma throws_role_value (p : Player) : S AttributeError -> throws S (role_value p).
Proof.
  intro Hs. unfold role_value.
  destruct (role p); [apply throws_ret | now apply throws_raise].
Qed.

Lemma throws_resolve (night : NightActions) :
  S StopIteration -> S ValueError -> throws S (_resolve_night_actions night).
Proof.
  intros H1 H2. unfold _resolve_night_actions. apply throws_for_each. intro z.
  apply throws_bind; [now apply throws_next_player|intro p].
  apply throws_bind; [apply throws_modify|intros _].
  apply throws_bind; [now apply throws_alive_players_remove|intros _].
  apply throws_bind; [apply throws_modify_state|intros _].
  apply throws_modify_state.
Qed.

Lemma throws_werewolf_action (env : Env) (night : NightActions) :
  throws S (_process_werewolf_action env night).
Proof.
  apply throws_total. intro e.
  destruct (werewolf_action_total env night e) as (n & e' & H & _). eauto.
Qed.

Lemma throws_seer_action (env : Env) (night : NightActions) :
  throws S (_process_seer_action env night).
Proof.
  apply throws_total. intro e.
  destruct (seer_action_total env night e) as (n & e' & H & _). eauto.
Qed.

Lemma throws_witch_uses_antidote (n : Z) (night : NightActions) :
  throws S (witch_uses_antidote n night).
Proof.
  unfold witch_uses_antidote.
  apply throws_bind; [apply throws_modify_state|intros _].
  apply throws_bind; [apply throws_modify|intros _]. apply throws_ret.
Qed.

Lemma throws_witch_action (env : Env) (night : NightActions) :
  S ActorError -> throws S (_process_witch_action env night).
Proof.
  intro Hs. unfold _process_witch_action.
  apply throws_bind; [apply throws_get|intro e].
  destruct (filter (is_alive_role RoleType.WITCH) (players e)) as [|w ws];
    [apply throws_ret|].
  destruct (enable_ai_mode e && mem (id w) (ai_players e)).
  - apply throws_bind; [now apply throws_await|intro wa].
    destruct (wa_save wa && _); [apply throws_witch_uses_antidote|].
    destruct (truthy (wa_poison wa) && _); [|apply throws_ret].
    apply throws_bind; [apply throws_modify_state|intros _].
    apply throws_bind; [apply throws_modify|intros _]. apply throws_ret.
  - destruct (_ && _); [apply throws_witch_uses_antidote | apply throws_ret].
Qed.

Lemma throws_night_phase (env : Env) :
  S ActorError -> S StopIteration -> S ValueError ->
  throws S (_process_night_phase env).
Proof.
  intros H1 H2 H3. unfold _process_night_phase.
  apply throws_bind; [apply throws_modify_state|intros _].
  apply throws_bind; [apply throws_werewolf_action|intro n1].
  apply throws_bind; [apply throws_seer_action|intro n2].
  apply throws_bind; [now apply throws_witch_action|intro n3].
  apply throws_bind; [apply throws_modify_state|intros _].
  now apply throws_resolve.
Qed.

Lemma throws_day_phase (env : Env) :
  S ActorError -> S EOFError -> throws S (_process_day_phase env).
Proof.
  intros H1 H2. unfold _process_day_phase.
  apply throws_bind; [apply throws_modify_state|intros _].
  apply throws_bind; [apply throws_get|intro e].
  apply throws_for_each. intro p.
  destruct (has_ai_player e p); [now apply throws_await|].
  destruct (is_human_turn e (id p)); [|apply throws_ret].
  apply throws_bind; [now apply throws_input | intro; apply throws_ret].
Qed.

Lemma throws_hunter_reads (shootable : list Z) (lines : list (option Z)) :
  S EOFError -> S StopIteration -> throws S (hunter_reads shootable lines).
Proof.
  intros H1 H2. induction lines as [|[z|] rest IH]; cbn [hunter_reads].
  - apply throws_bind; [apply throws_modify | intro; now apply throws_raise].
  - destruct (mem z shootable); [|exact IH].
    apply throws_bind; [apply throws_modify|intros _].
    apply throws_bind; [now apply throws_next_player|intro p].
    apply throws_bind; [apply throws_modify|intros _].
    apply throws_bind; [apply throws_get|intro e].
    destruct (list_remove z (alive_players (game_state e))); [|exact IH].
    apply throws_bind; [apply throws_modify_state|intros _].
    apply throws_modify_state.
  - exact IH.
Qed.

Lemma throws_hunter_shoot (env : Env) (hunter : Player) :
  S EOFError -> S StopIteration -> S ActorError -> S IndexError -> S ValueError ->
  throws S (_process_hunter_shoot env hunter).
Proof.
  intros H1 H2 H3 H4 H5. unfold _process_hunter_shoot.
  apply throws_bind; [apply throws_get|intro e].
  destruct (is_human_turn e (id hunter)); [now apply throws_hunter_reads|].
  apply throws_bind.
  - destruct (enable_ai_mode e && mem (id hunter) (ai_players e));
      [now apply throws_await | now apply throws_random_target].
  - intro t. apply throws_bind; [now apply throws_next_player|intro p].
    apply throws_bind; [apply throws_modify|intros _].
    apply throws_bind; [now apply throws_alive_players_remove|intros _].
    apply throws_modify_state.
Qed.

Lemma throws_cast_vote (env : Env) (alive_now : list Player)
  (votes : list (Z * option Z)) (voter : Player) :
  S EOFError -> S ActorError -> S IndexError ->
  throws S (cast_vote env alive_now votes voter).
Proof.
  intros H1 H2 H3. unfold cast_vote.
  apply throws_bind; [apply throws_get|intro e].
  apply throws_bind; [|intro; apply throws_ret].
  destruct (has_ai_player e voter); [now apply throws_await|].
  destruct (is_human_turn e (id voter)).
  - apply throws_bind; [now apply throws_input_until | intro; apply throws_ret].
  - apply throws_bind; [now apply throws_random_choice | intro; apply throws_ret].
Qed.

Lemma throws_collect_votes (env : Env) (alive_now voters : list Player)
  (votes : list (Z * option Z)) :
  S EOFError -> S ActorError -> S IndexError ->
  throws S (collect_votes env alive_now voters votes).
Proof.
  intros H1 H2 H3. revert votes.
  induction voters as [|v voters IH]; intro votes; cbn [collect_votes];
    [apply throws_ret|].
  apply throws_bind; [now apply throws_cast_vote | intro; apply IH].
Qed.

Lemma throws_vote_phase (env : Env) :
  (forall x, x <> SystemExit -> S x) -> throws S (_process_vote_phase env).
Proof.
  intro H. unfold _process_vote_phase.
  apply throws_bind; [apply throws_modify_state|intros _].
  apply throws_bind; [apply throws_get|intro e].
  apply throws_bind; [apply throws_collect_votes; apply H; discriminate|intro votes].
  destruct (top_voted (count_votes votes)) as [|x [|y l]]; try apply throws_ret.
  apply throws_bind; [apply throws_next_player; apply H; discriminate|intro p].
  apply throws_bind; [apply throws_modify|intros _].
  apply throws_bind; [apply throws_alive_players_remove; apply H; discriminate|intros _].
  apply throws_bind; [apply throws_modify_state|intros _].
  apply throws_bind; [apply throws_modify_state|intros _].
  apply throws_bind; [apply throws_role_value; apply H; discriminate|intros _].
  apply throws_bind; [apply throws_modify_state|intros _].
  destruct (role_is RoleType.HUNTER p); [|apply throws_ret].
  apply throws_hunter_shoot; apply H; discriminate.
Qed.

Lemma throws_check_and_store : throws S check_and_store.
Proof.
  unfold check_and_store. apply throws_bind; [apply throws_get|intro e].
  destruct (check_winner (game_state e) (players e)); [|apply throws_ret].
  apply throws_bind; [apply throws_modify_state | intro; apply throws_ret].
Qed.

Lemma throws_game_rounds (env : Env) (fuel : nat) :
  (forall x, x <> SystemExit -> S x) -> throws S (game_rounds env fuel).
Proof.
  intro H. induction fuel as [|fuel IH]; cbn [game_rounds].
  - apply throws_bind; [apply throws_get | intro; apply throws_ret].
  - apply throws_bind; [apply throws_get|intro e].
    destruct (game_over (game_state e)); [apply throws_ret|].
    apply throws_bind; [apply throws_check_and_store|intros [|]]; [apply throws_ret|].
    apply throws_bind; [apply throws_night_phase; apply H; discriminate|intros _].
    apply throws_bind; [apply throws_check_and_store|intros [|]]; [apply throws_ret|].
    apply throws_bind; [apply throws_day_phase; apply H; discriminate|intros _].
    apply throws_bind; [now apply throws_vote_phase|intros _].
    apply throws_bind; [apply throws_modify_state|intros _].
    exact IH.
Qed.

Lemma throws_run_game_loop (env : Env) (fuel : nat) :
  (forall x, x <> SystemExit -> S x) -> throws S (run_game_loop env fuel).
Proof.
  intro H. unfold run_game_loop.
  apply throws_bind; [now apply throws_game_rounds|intros [|]]; [|apply throws_ret].
  apply throws_bind; [|intros _].
  - unfold _display_game_result. apply throws_bind; [apply throws_get|intro e].
    apply throws_for_each. intro p. apply throws_role_value. apply H. discriminate.
  - apply throws_bind; [apply throws_get | intro; apply throws_ret].
Qed.

End Throws.

(** ** Setup *)

Lemma ai_keys_fresh (ps : list Player) (keys : list Z) :
  NoDup (map id ps) -> (forall z, In z keys -> ~ In z (map id ps)) ->
  ai_keys ps keys = keys ++ map id (filter is_ai ps).
Proof.
  unfold ai_keys. revert keys.
  induction ps as [|p ps IH]; intros keys Hn Hd; cbn [fold_left filter map].
  - now rewrite app_nil_r.
  - inversion Hn as [|? ? Hp Hps]; subst.
    destruct (is_ai p).
    + unfold keys_add.
      assert (Hm : mem (id p) keys = false).
      { apply mem_false_not_In. intro H. apply (Hd _ H). now left. }
      rewrite Hm, IH; [cbn [map]; now rewrite <- app_assoc | exact Hps |].
      intros z Hz Hin. apply in_app_or in Hz as [Hz|[<-|[]]].
      * apply (Hd z Hz). now right.
      * contradiction.
    + apply IH; [exact Hps|]. intros z Hz Hin. apply (Hd z Hz). now right.
Qed.

Lemma set_ai_players_same (e : GameEngine) : set_ai_players (ai_players e) e = e.
Proof. now destruct e. Qed.

Lemma initialize_ai_players_eval (e : GameEngine) :
  _initialize_ai_players e
  = Done tt (set_ai_players (ai_keys (players e) (ai_players e)) e).
Proof.
  unfold _initialize_ai_players, bind at 1, get at 1, ai_keys.
  generalize (players e) as l. intro l. revert e.
  induction l as [|p l IH]; intro e; cbn [for_each fold_left].
  - unfold ret. now rewrite set_ai_players_same.
  - unfold bind. destruct (is_ai p).
    + unfold modify. rewrite IH. reflexivity.
    + unfold ret. apply IH.
Qed.

Lemma create_players_frame (env : Env) (n : Z) (spectator : bool)
  (e e' : GameEngine) (r : list Player * option Z) :
  create_players env n spectator e = Done r e' ->
  ai_players e' = ai_players e /\ enable_ai_mode e' = enable_ai_mode e
  /\ spectator_mode e' = spectator_mode e
  /\ Forall (fun p => alive p = true /\ role p = None
                      /\ has_antidote p = true /\ has_poison p = true
                      /\ used_antidote_night p = None /\ used_poison_night p = None)
            (fst r).
Proof.
  unfold create_players. intro H. apply bind_Done in H as (h & e1 & Hh & H).
  injection H as <- <-. cbn [fst]. split; [|split; [|split]].
  - destruct (negb spectator); [|now injection Hh as _ <-].
    apply bind_Done in Hh as (z & e2 & Hr & Hh). injection Hh as _ <-.
    unfold randint in Hr. destruct (n - 1 <? 0); [discriminate|].
    unfold bind, tick, ret in Hr. now injection Hr as _ <-.
  - destruct (negb spectator); [|now injection Hh as _ <-].
    apply bind_Done in Hh as (z & e2 & Hr & Hh). injection Hh as _ <-.
    unfold randint in Hr. destruct (n - 1 <? 0); [discriminate|].
    unfold bind, tick, ret in Hr. now injection Hr as _ <-.
  - destruct (negb spectator); [|now injection Hh as _ <-].
    apply bind_Done in Hh as (z & e2 & Hr & Hh). injection Hh as _ <-.
    unfold randint in Hr. destruct (n - 1 <? 0); [discriminate|].
    unfold bind, tick, ret in Hr. now injection Hr as _ <-.
  - apply Forall_map. apply Forall_forall. intros i _. cbn. repeat split.
Qed.

Lemma assign_from_ready (rl : list RoleType.t) (ps : list Player) :
  forall i,
    snd (assign_from rl i ps) = None ->
    Forall (fun p => alive p = true /\ role p = None
                     /\ has_antidote p = true /\ has_poison p = true
                     /\ used_antidote_night p = None /\ used_poison_night p = None) ps ->
    Forall ready (fst (assign_from rl i ps)).
Proof.
  induction ps as [|p ps IH]; intros i Hs Hf; cbn [assign_from] in *; [constructor|].
  inversion Hf as [|? ? (H1 & _ & H3 & H4 & H5 & H6) Hps]; subst.
  destruct (nth_error rl i) as [r|]; [|discriminate Hs].
  specialize (IH (S i)). destruct (assign_from rl (S i) ps) as [rest x].
  cbn [fst snd] in *. constructor; [|now apply IH].
  unfold ready. cbn. repeat split; auto. discriminate.
Qed.

Lemma setup_Done (env : Env) (e0 e : GameEngine) :
  initialize_game env e0 = Done true e ->
  game_state e = set_alive_players (map id (players e)) new_game_state
  /\ map id (players e) = map Z.of_nat (seq 0 (Z.to_nat (num_players e0)))
  /\ Forall ready (players e)
  /\ ai_players e = (if enable_ai_mode e0
                     then ai_keys (players e) (ai_players e0)
                     else ai_players e0)
  /\ enable_ai_mode e = enable_ai_mode e0
  /\ spectator_mode e = spectator_mode e0.
Proof.
  unfold initialize_game, try_except.
  match goal with |- context [match ?c e0 with _ => _ end] =>
    destruct (c e0) as [b e1|x e1] eqn:E end.
  2: { destruct x; discriminate. }
  intros [= -> ->].
  apply bind_Done in E as (e0' & s1 & Hget & E). injection Hget as <- <-.
  apply bind_Done in E as ([ps h] & s2 & Hcreate & E).
  apply bind_Done in E as ([] & s3 & Hmod & E). injection Hmod as <-.
  apply bind_Done in E as (assigned & s4 & Hassign & E).
  apply bind_Done in E as ([] & s5 & Hmod & E). injection Hmod as <-.
  apply bind_Done in E as ([] & s6 & Hmod & E). injection Hmod as <-.
  destruct (create_players_Done _ _ _ _ _ _ _ Hcreate) as [Hids _].
  destruct (create_players_frame _ _ _ _ _ _ Hcreate) as (Hai & Hmode & Hspec & Hfresh).
  cbn [fst snd] in *.
  rewrite assign_roles_eval in Hassign. cbv zeta in Hassign.
  pose proof (assign_from_ids (shuffle env (clock (set_human_player_id h (set_players ps s2)))
                                 (build_role_list role_distribution)) ps 0%nat)
    as [Hi _].
  pose proof (assign_from_ready (shuffle env (clock (set_human_player_id h (set_players ps s2)))
                                   (build_role_list role_distribution)) ps 0%nat)
    as Hready.
  destruct (assign_from (shuffle env (clock (set_human_player_id h (set_players ps s2)))
                           (build_role_list role_distribution)) 0 ps)
    as [upd [x|]]; [discriminate|].
  cbn [fst snd] in *. injection Hassign as <- <-.
  specialize (Hready eq_refl Hfresh).
  apply bind_Done in E as ([] & s7 & Hinit & E).
  apply bind_Done in E as ([] & s8 & Hopen & E).
  injection E as <-.
  destruct (enable_ai_mode e0) eqn:Hm.
  - rewrite initialize_ai_players_eval in Hinit. injection Hinit as <-.
    unfold try_except, await, bind, tick, ret, raise in Hopen.
    cbn [clock set_ai_players set_game_state set_players set_clock
         set_human_player_id] in Hopen.
    match type of Hopen with
    | context [openai_initialize env ?n] => destruct (openai_initialize env n) as [[]|]
    end; [|discriminate Hopen].
    injection Hopen as <-. cbn. rewrite Hi, Hids, Hai, Hmode, Hspec.
    repeat split; auto.
  - injection Hinit as <-. injection Hopen as <-. cbn.
    rewrite Hi, Hids, Hai, Hmode, Hspec. repeat split; auto.
Qed.

(** X16. [initialize_game] starts a fresh game: when it returns True the
    game state is a new [GameState] whose alive list holds every player's
    id - round 1, night, nobody dead, no history, no winner - the players
    are numbered from 0, each alive, with a role and with both potions
    unused; in AI mode on a new engine the AI players registered are
    exactly the players flagged [is_ai], and without AI mode none is
    registered. *)
Theorem setup_starts_a_fresh_game (env : Env) (e0 e : GameEngine) :
  initialize_game env e0 = Done true e ->
  game_state e = set_alive_players (map id (players e)) new_game_state
  /\ map id (players e) = map Z.of_nat (seq 0 (Z.to_nat (num_players e0)))
  /\ Forall ready (players e)
  /\ (enable_ai_mode e0 = true -> ai_players e0 = [] ->
      ai_players e = map id (filter is_ai (players e)))
  /\ (enable_ai_mode e0 = false -> ai_players e = ai_players e0).
Proof.
  intro H. destruct (setup_Done env e0 e H) as (Hg & Hi & Hr & Ha & _).
  split; [exact Hg|]. split; [exact Hi|]. split; [exact Hr|]. split.
  - intros Hm He. rewrite Ha, Hm, He. rewrite ai_keys_fresh; [reflexivity| |].
    + rewrite Hi. apply sequential_ids_NoDup.
    + intros z [].
  - intro Hm. now rewrite Ha, Hm.
Qed.

Lemma the_table_is_fresh :
  game_state ai_table = set_alive_players (map id (players ai_table)) new_game_state
  /\ map id (players ai_table)
     = map Z.of_nat (seq 0 (Z.to_nat (num_players (new_engine true true []))))
  /\ Forall ready (players ai_table)
  /\ (enable_ai_mode (new_engine true true []) = true ->
      ai_players (new_engine true true []) = [] ->
      ai_players ai_table = map id (filter is_ai (players ai_table)))
  /\ (enable_ai_mode (new_engine true true []) = false ->
      ai_players ai_table = ai_players (new_engine true true [])).
Proof.
  apply (setup_starts_a_fresh_game silent (new_engine true true []) ai_table).
  vm_compute. reflexivity.
Defined.

(** ** Exceptions of the phases *)



(** X18. A day phase that does not finish was stopped by a speech of an AI
    player that failed (ActorError) or by the end of the console input
    when the human was to speak (EOFError), and by nothing else. *)
Theorem day_phase_exceptions (env : Env) (e e' : GameEngine) (x : Exn) :
  _process_day_phase env e = Raised x e' ->
  x = ActorError \/ x = EOFError.
Proof.
  apply (throws_day_phase day_errors env); unfold day_errors; auto.
Qed.

Lemma a_silent_console_stops_the_day :
  EOFError = ActorError \/ EOFError = EOFError.
Proof.
  apply (day_phase_exceptions silent
           (final (initialize_game silent (new_engine false false [])))
           (final (_process_day_phase silent
                     (final (initialize_game silent (new_engine false false [])))))
           EOFError).
  vm_compute. reflexivity.
Defined.

(** ** main.py: a whole sitting *)

Lemma bind_Raised_inv {A B : Type} (c : M A) (k : A -> M B)
  (e e' : GameEngine) (x : Exn) :
  bind c k e = Raised x e' ->
  c e = Raised x e' \/ exists a e1, c e = Done a e1 /\ k a e1 = Raised x e'.
Proof.
  unfold bind. destruct (c e) as [a e1|y e1]; intro H;
    [right; eauto | left; injection H as -> ->; reflexivity].
Qed.

Lemma throws_create_players (S : Exn -> Prop) (env : Env) (n : Z) (spectator : bool) :
  S ValueError -> throws S (create_players env n spectator).
Proof.
  intro Hs. unfold create_players. apply throws_bind; [|intro; apply throws_ret].
  destruct (negb spectator); [|apply throws_ret].
  apply throws_bind; [|intro; apply throws_ret].
  unfold randint. destruct (n - 1 <? 0); [now apply throws_raise|].
  apply throws_bind; [apply throws_tick | intro; apply throws_ret].
Qed.

Lemma assign_from_exn (rl : list RoleType.t) (ps : list Player) :
  forall i x, snd (assign_from rl i ps) = Some x -> x = IndexError.
Proof.
  induction ps as [|p ps IH]; intros i x; cbn [assign_from]; [discriminate|].
  destruct (nth_error rl i); [|now intros [= <-]].
  specialize (IH (S i) x). destruct (assign_from rl (S i) ps). exact IH.
Qed.

Lemma throws_assign_roles (S : Exn -> Prop) (env : Env) (ps : list Player) :
  S IndexError -> throws S (assign_roles env ps).
Proof.
  intros Hs e x e'. rewrite assign_roles_eval. cbv zeta.
  destruct (snd (assign_from _ 0 ps)) as [y|] eqn:E; [|discriminate].
  intros [= <- _]. apply assign_from_exn in E. now subst.
Qed.

(** Setup lets nothing out but SystemExit, and that only in AI mode. *)
Lemma initialize_game_Raised (env : Env) (e0 e : GameEngine) (x : Exn) :
  initialize_game env e0 = Raised x e ->
  x = SystemExit /\ enable_ai_mode e0 = true.
Proof.
  unfold initialize_game, try_except.
  match goal with |- context [match ?c e0 with _ => _ end] =>
    destruct (c e0) as [b e1|y e1] eqn:E end; [discriminate|].
  destruct y; try discriminate. intros [= <- <-]. split; [reflexivity|].
  destruct (enable_ai_mode e0) eqn:Hm; [reflexivity|]. exfalso.
  unfold bind at 1 in E. unfold get at 1 in E. cbv beta iota in E.
  rewrite Hm in E.
  apply bind_Raised_inv in E as [E|([ps h] & s1 & _ & E)].
  { now apply (throws_create_players (fun x => x <> SystemExit)) in E. }
  apply bind_Raised_inv in E as [E|([] & s2 & _ & E)]; [discriminate E|].
  apply bind_Raised_inv in E as [E|(assigned & s3 & _ & E)].
  { now apply (throws_assign_roles (fun x => x <> SystemExit)) in E. }
  apply bind_Raised_inv in E as [E|([] & s4 & _ & E)]; [discriminate E|].
  apply bind_Raised_inv in E as [E|([] & s5 & _ & E)]; [discriminate E|].
  apply bind_Raised_inv in E as [E|([] & s6 & _ & E)]; [discriminate E|].
  apply bind_Raised_inv in E as [E|([] & s7 & _ & E)]; discriminate E.
Qed.

(** X19. What a sitting of [WerewolfGame.start] can end in. It lets no
    exception out but the SystemExit of a failed AI setup; when the loop
    returns, the closing message names the camp stored as the winner, which
    is the camp [check_winner] names in the final state - the message for
    a draw is never printed; every other failure ends in the error
    message, and a failed setup in the message for it. *)
Theorem start_never_shows_a_draw (env : Env) (fuel : nat) (e0 : GameEngine) :
  match start env fuel e0 with
  | Raised x _ => x = SystemExit /\ enable_ai_mode e0 = true
  | Done (Some (WinnerShown c)) e =>
      winner (game_state e) = Some c
      /\ game_over (game_state e) = true
      /\ check_winner (game_state e) (players e) = Some c
  | Done (Some DrawShown) _ => False
  | Done (Some InitFailed) _ => True
  | Done (Some ErrorShown) _ => True
  | Done None e => game_over (game_state e) = false
  end.
Proof.
  unfold start, try_except.
  match goal with |- context [match ?c e0 with _ => _ end] =>
    destruct (c e0) as [a e|x e] eqn:E end.
  - apply bind_Done in E as (ok & e1 & Hinit & E).
    destruct ok; cbn [negb] in E.
    + apply bind_Done in E as (r & e2 & Hloop & E).
      assert (Hd : decided e1).
      { destruct (setup_Done env e0 e1 Hinit) as (Hg & _).
        intro Hover. rewrite Hg in Hover. discriminate Hover. }
      pose proof (run_game_loop_Done env fuel e1 e2 r Hd Hloop) as Hr.
      destruct r as [w|]; injection E as <- <-.
      * destruct Hr as (c & -> & Hw & Ho & Hc). cbn [_show_game_end_message].
        now repeat split.
      * exact Hr.
    + injection E as <- <-. exact I.
  - assert (Hx : x = SystemExit -> enable_ai_mode e0 = true).
    { intros ->. apply bind_Raised_inv in E as [E|(ok & e1 & _ & E)].
      { now apply initialize_game_Raised in E. }
      destruct ok; cbn [negb] in E; [|discriminate E].
      apply bind_Raised_inv in E as [E|(r & e2 & _ & E)].
      - exfalso.
        apply (throws_run_game_loop (fun x => x <> SystemExit) env fuel) in E;
          [now apply E | auto].
      - destruct r; discriminate E. }
    destruct x; try exact I. split; [reflexivity | now apply Hx].
Qed.

(** ** The ballots *)

Lemma tally_sum (l : list (option Z)) :
  forall acc,
    fold_right Z.add 0 (map snd (fold_left tally_step l acc))
    = fold_right Z.add 0 (map snd acc) + len l.
Proof.
  induction l as [|x l IH]; intro acc; cbn [fold_left].
  - unfold len. simpl. lia.
  - rewrite IH. unfold tally_step at 1. rewrite dict_set_sum.
    unfold len. cbn [List.length]. rewrite Nat2Z.inj_succ. lia.
Qed.

(** X20. The tally counts every ballot once: the counts of [vote_counts]
    add up to the number of ballots, every target listed was named by at
    least one ballot and is listed once with the number of ballots naming
    it, and the list of top-voted targets is empty only when no ballot was
    cast. *)
Theorem the_tally_counts_every_ballot (votes : list (Z * option Z)) :
  fold_right Z.add 0 (map snd (count_votes votes)) = len votes
  /\ NoDup (map fst (count_votes votes))
  /\ (forall t c, In (t, c) (count_votes votes) ->
        1 <= c /\ c = votes_for votes t /\ In t (map snd votes))
  /\ (top_voted (count_votes votes) = [] <-> votes = []).
Proof.
  split; [|split; [|split]].
  - rewrite count_votes_fold, tally_sum. unfold len. rewrite length_map. simpl. lia.
  - apply count_votes_NoDup.
  - intros t c Hin. destruct (count_votes_entry _ _ _ Hin) as [Hc Hpos].
    split; [lia|]. split; [exact Hc|].
    apply count_votes_keys. change t with (fst (t, c)). now apply in_map.
  - split.
    + intro Htop. destruct votes as [|[v t] votes]; [reflexivity|]. exfalso.
      assert (Hk : In t (map snd ((v, t) :: votes))) by now left.
      destruct (count_votes ((v, t) :: votes)) as [|[t0 c0] rest] eqn:Ecv.
      * apply count_votes_keys in Hk. rewrite Ecv in Hk. contradiction.
      * unfold top_voted in Htop.
        pose proof (list_max_in (map snd rest) c0) as Hin.
        change (c0 :: map snd rest) with (map snd ((t0, c0) :: rest)) in Hin.
        apply in_map_iff in Hin as ([t1 c1] & Hc1 & Hin1). cbn [snd] in Hc1.
        assert (Hf : In (t1, c1)
                       (filter (fun pc => snd pc =? list_max c0 (map snd rest))
                               ((t0, c0) :: rest))).
        { apply filter_In. split; [exact Hin1|]. cbn [snd]. now apply Z.eqb_eq. }
        apply (in_map fst) in Hf. rewrite Htop in Hf. contradiction.
    + intros ->. reflexivity.
Qed.

Lemma dict_set_In_inv {V : Type} (k : Z) (v : V) (m : list (Z * V)) (kv : Z * V) :
  In kv (dict_set Z.eqb k v m) -> kv = (k, v) \/ In kv m.
Proof.
  induction m as [|[k0 v0] m IH]; simpl.
  - intros [<-|[]]. now left.
  - destruct (k0 =? k); simpl.
    + intros [<-|H]; auto.
    + intros [<-|H]; auto. destruct (IH H); auto.
Qed.

Lemma dict_set_key_in {V : Type} (k : Z) (v : V) (m : list (Z * V)) :
  In k (map fst (dict_set Z.eqb k v m)).
Proof.
  induction m as [|[k0 v0] m IH]; simpl; [now left|].
  destruct (k0 =? k); simpl; auto.
Qed.

Lemma dict_set_keys_inv {V : Type} (k k' : Z) (v : V) (m : list (Z * V)) :
  In k (map fst (dict_set Z.eqb k' v m)) -> k = k' \/ In k (map fst m).
Proof.
  induction m as [|[k0 v0] m IH]; simpl.
  - intros [<-|[]]. now left.
  - destruct (Z.eqb_spec k0 k'); simpl.
    + intros [<-|H]; auto.
    + intros [<-|H]; auto. destruct (IH H); auto.
Qed.

Lemma dict_set_NoDup_Z {V : Type} (k : Z) (v : V) (m : list (Z * V)) :
  NoDup (map fst m) -> NoDup (map fst (dict_set Z.eqb k v m)).
Proof.
  induction m as [|[k0 v0] m IH]; simpl; intro H.
  - repeat constructor. intros [].
  - inversion H as [|? ? Hn Hm]; subst.
    destruct (Z.eqb_spec k0 k) as [->|E]; simpl.
    + now constructor.
    + constructor; [|now apply IH].
      intro Hin. apply dict_set_keys_inv in Hin as [->|Hin]; [now apply E | now apply Hn].
Qed.

Lemma first_valid_Some (valid : Z -> bool) (lines rest : list (option Z)) (z : Z) :
  first_valid valid lines = (Some z, rest) -> valid z = true.
Proof.
  induction lines as [|[y|] lines IH]; cbn [first_valid]; [discriminate| |exact IH].
  destruct (valid y) eqn:E; [|exact IH]. now intros [= <- _].
Qed.

Lemma same_table_refl (e : GameEngine) : same_table e e.
Proof. unfold same_table. auto. Qed.

Lemma same_table_trans (a b c : GameEngine) :
  same_table a b -> same_table b c -> same_table a c.
Proof.
  intros (A1 & A2 & A3 & A4 & A5) (B1 & B2 & B3 & B4 & B5).
  unfold same_table. repeat split; congruence.
Qed.

Lemma same_table_clock (e : GameEngine) (n : nat) : same_table e (set_clock n e).
Proof. unfold same_table. cbn. auto. Qed.

Lemma same_table_stdin (e : GameEngine) (l : list (option Z)) :
  same_table e (set_stdin l e).
Proof. unfold same_table. cbn. auto. Qed.

Lemma cast_vote_legal (env : Env) (alive_now : list Player)
  (votes votes' : list (Z * option Z)) (voter : Player) (e e' : GameEngine) :
  enable_ai_mode e = false ->
  cast_vote env alive_now votes voter e = Done votes' e' ->
  enable_ai_mode e' = false
  /\ exists z, votes' = dict_set Z.eqb (id voter) (Some z) votes
               /\ In z (map id alive_now) /\ z <> id voter.
Proof.
  intros Hm H.
  assert (He : enable_ai_mode e' = false).
  { pose proof (steady_cast_vote same_table same_table_refl same_table_trans
                  same_table_clock same_table_stdin
                  env alive_now votes voter e) as (_ & Hmode & _).
    rewrite H in Hmode. cbn [final] in Hmode. congruence. }
  split; [exact He|].
  unfold cast_vote in H. unfold bind at 1 in H. unfold get at 1 in H.
  cbv beta iota in H.
  assert (Hai : has_ai_player e voter = false).
  { unfold has_ai_player. rewrite Hm. now destruct (is_ai voter). }
  rewrite Hai in H.
  apply bind_Done in H as (t & e1 & Ht & H). injection H as <- _.
  assert (Hz : exists z, t = Some z
                         /\ In z (filter (fun z => negb (z =? id voter)) (map id alive_now))).
  { destruct (is_human_turn e (id voter)).
    - apply bind_Done in Ht as (z & e2 & Hz & Ht). injection Ht as <- _.
      exists z. split; [reflexivity|]. apply mem_In.
      unfold input_until in Hz.
      destruct (first_valid _ (stdin e)) as [[y|] rest] eqn:Ef; [|discriminate].
      injection Hz as <- _. exact (first_valid_Some _ _ _ _ Ef).
    - apply bind_Done in Ht as (z & e2 & Hz & Ht). injection Ht as <- _.
      exists z. split; [reflexivity|]. unfold random_choice in Hz.
      destruct (filter _ (map id alive_now)) as [|d l] eqn:El; [discriminate|].
      assert (Hzz : z = nth (Nat.modulo (rand env (clock e)) (List.length (d :: l)))
                            (d :: l) d)
        by (unfold bind, tick, ret in Hz; congruence).
      rewrite Hzz. apply nth_In. apply Nat.mod_upper_bound. discriminate. }
  destruct Hz as (z & -> & Hin). apply filter_In in Hin as [Hin Hne].
  exists z. split; [reflexivity|]. split; [exact Hin|].
  intros ->. rewrite Z.eqb_refl in Hne. discriminate.
Qed.

Lemma collect_votes_legal (env : Env) (alive_now voters : list Player) :
  forall (votes votes' : list (Z * option Z)) (seen : list Z) (e e' : GameEngine),
    enable_ai_mode e = false ->
    collect_votes env alive_now voters votes e = Done votes' e' ->
    legal_ballots (map id alive_now) seen votes ->
    NoDup (map fst votes) ->
    legal_ballots (map id alive_now) (seen ++ map id voters) votes'
    /\ NoDup (map fst votes')
    /\ (forall v, In v (map fst votes) \/ In v (map id voters) ->
                  In v (map fst votes')).
Proof.
  induction voters as [|voter voters IH];
    intros votes votes' seen e e' Hm H Hl Hn; cbn [collect_votes] in H.
  - injection H as <- _. cbn [map]. rewrite app_nil_r.
    split; [exact Hl|]. split; [exact Hn|]. intros v [Hv|[]]. exact Hv.
  - apply bind_Done in H as (votes1 & e1 & Hc & H).
    destruct (cast_vote_legal env alive_now votes votes1 voter e e1 Hm Hc)
      as (Hm1 & z & -> & Hz & Hne).
    destruct (IH _ votes' (seen ++ [id voter]) e1 e' Hm1 H) as (Hl' & Hn' & Hk').
    + intros v t Hin. apply dict_set_In_inv in Hin as [[= -> ->]|Hin].
      * split; [apply in_or_app; right; now left|]. exists z. auto.
      * destruct (Hl v t Hin) as [Hs Ht]. split; [apply in_or_app; now left | exact Ht].
    + now apply dict_set_NoDup_Z.
    + cbn [map]. rewrite <- app_assoc in Hl'. cbn [app] in Hl'.
      split; [exact Hl'|]. split; [exact Hn'|].
      intros v [Hv|[<-|Hv]]; apply Hk'.
      * left. now apply dict_set_keeps_keys.
      * left. apply dict_set_key_in.
      * right. exact Hv.
Qed.

(** X21. In a game without AI mode the ballots are always legal: when the
    votes of a vote phase have been cast, every living player holds
    exactly one ballot, nobody else holds one, and every ballot names a
    living player other than the voter - drawn at random, or read from
    the console until the human names such a player. *)
Theorem ballots_without_ai_are_legal (env : Env) (e e' : GameEngine)
  (votes : list (Z * option Z)) :
  enable_ai_mode e = false ->
  votes_cast env e votes e' ->
  NoDup (map fst votes)
  /\ (forall v, In v (map fst votes) <-> living e v)
  /\ (forall v t, In (v, t) votes ->
        exists z, t = Some z /\ living e z /\ z <> v).
Proof.
  intros Hm H. unfold votes_cast, cast_at in H.
  destruct (collect_votes_legal env _ _ [] votes [] _ e' (Hm : enable_ai_mode
              (set_game_state (set_phase PhaseType.VOTE (game_state e)) e) = false) H)
    as (Hl & Hn & Hk).
  { intros v t []. }
  { constructor. }
  cbn [app] in Hl. split; [exact Hn|]. split.
  - intro v. rewrite <- (in_ids_filter alive (players e) v). split.
    + intro Hv. apply in_map_iff in Hv as ([v' t] & <- & Hin).
      exact (proj1 (Hl _ _ Hin)).
    + intro Hv. apply Hk. now right.
  - intros v t Hin. destruct (Hl v t Hin) as (_ & z & -> & Hz & Hne).
    exists z. split; [reflexivity|]. split; [|exact Hne].
    now apply (in_ids_filter alive (players e) z).
Qed.

Lemma ballots_at_the_simple_table :
  NoDup (map fst (ballots (cast_at silent simple_table)))
  /\ (forall v, In v (map fst (ballots (cast_at silent simple_table)))
                <-> living simple_table v)
  /\ (forall v t, In (v, t) (ballots (cast_at silent simple_table)) ->
        exists z, t = Some z /\ living simple_table z /\ z <> v).
Proof.
  apply (ballots_without_ai_are_legal silent simple_table
           (final (cast_at silent simple_table))).
  - reflexivity.
  - vm_compute. reflexivity.
Defined.

(** ** A night without AI players *)

Lemma living_same_flags (e e' : GameEngine) (z : Z) :
  NoDup (map id (players e)) ->
  map id (players e') = map id (players e) ->
  map alive (players e') = map alive (players e) ->
  living e z -> living e' z.
Proof.
  intros Hn Hi Ha Hl.
  apply (living_flag e' z); [now rewrite Hi|].
  unfold alive_flag. rewrite (alive_flag_same_flags _ _ z Hi Ha).
  now apply (living_flag e z Hn).
Qed.

Lemma random_target_simple (env : Env) (asker : Z)
  (ask : nat -> Z -> list Player -> GameState -> reply (option Z))
  (p0 : Player) (l : list Player) (e : GameEngine) :
  enable_ai_mode e = false ->
  exists t, decide_or_random env asker ask (p0 :: l) e
            = Done (Some t) (set_clock (S (clock e)) e)
            /\ In t (map id (p0 :: l)).
Proof.
  intro Hm. unfold decide_or_random. unfold bind at 1. unfold get at 1.
  cbv beta iota. rewrite Hm. cbn [andb].
  apply random_target_total.
Qed.

Lemma werewolf_action_simple (env : Env) (night : NightActions) (e : GameEngine) :
  enable_ai_mode e = false ->
  exists night' e',
    _process_werewolf_action env night e = Done night' e'
    /\ enable_ai_mode e' = false
    /\ players e' = players e /\ game_state e' = game_state e
    /\ witch_save night' = witch_save night
    /\ witch_poison night' = witch_poison night
    /\ (werewolf_kill night' = werewolf_kill night
        \/ exists t, werewolf_kill night' = Some t
                     /\ In t (map id (kill_candidates e))).
Proof.
  intro Hm. unfold _process_werewolf_action. unfold bind at 1. unfold get at 1.
  cbv beta iota.
  destruct (filter (is_alive_role RoleType.WEREWOLF) (players e)) as [|w ws].
  { exists night, e. repeat split; auto. }
  fold (kill_candidates e). destruct (kill_candidates e) as [|c cs] eqn:Hk.
  { exists night, e. repeat split; auto. }
  destruct (random_target_simple env (id w) (choose_werewolf_target env) c cs e Hm)
    as (t & Hrun & Hin).
  rewrite (bind_eq _ _ _ _ _ Hrun).
  exists (set_werewolf_kill (Some t) night), (set_clock (S (clock e)) e).
  repeat split; auto. right. exists t. split; [reflexivity | exact Hin].
Qed.

Lemma seer_action_simple (env : Env) (night : NightActions) (e : GameEngine) :
  enable_ai_mode e = false ->
  exists night' e',
    _process_seer_action env night e = Done night' e'
    /\ enable_ai_mode e' = false
    /\ players e' = players e
    /\ alive_players (game_state e') = alive_players (game_state e)
    /\ dead_players (game_state e') = dead_players (game_state e)
    /\ current_round (game_state e') = current_round (game_state e)
    /\ werewolf_kill night' = werewolf_kill night
    /\ witch_save night' = witch_save night
    /\ witch_poison night' = witch_poison night.
Proof.
  intro Hm. unfold _process_seer_action. unfold bind at 1. unfold get at 1.
  cbv beta iota.
  destruct (filter (is_alive_role RoleType.SEER) (players e)) as [|s ss].
  { exists night, e. repeat split; auto. }
  destruct (filter (fun p => alive p && negb (id p =? id s)) (players e))
    as [|c cs] eqn:Hk.
  { exists night, e. repeat split; auto. }
  destruct (random_target_simple env (id s) (choose_seer_target env) c cs e Hm)
    as (t & Hrun & Hin).
  rewrite (bind_eq _ _ _ _ _ Hrun).
  destruct (find_player (Some t) (players e)) as [target|];
    eexists _, _; (split; [reflexivity|]); cbn; repeat split; auto.
Qed.

Lemma witch_action_simple (env : Env) (night : NightActions) (e : GameEngine) :
  enable_ai_mode e = false ->
  exists night' e',
    _process_witch_action env night e = Done night' e'
    /\ map id (players e') = map id (players e)
    /\ map alive (players e') = map alive (players e)
    /\ alive_players (game_state e') = alive_players (game_state e)
    /\ dead_players (game_state e') = dead_players (game_state e)
    /\ werewolf_kill night' = werewolf_kill night
    /\ witch_poison night' = witch_poison night.
Proof.
  intro Hm.
  assert (Hrun : exists night' e',
             _process_witch_action env night e = Done night' e'
             /\ werewolf_kill night' = werewolf_kill night
             /\ witch_poison night' = witch_poison night).
  { unfold _process_witch_action. unfold bind at 1. unfold get at 1.
    cbv beta iota.
    destruct (filter (is_alive_role RoleType.WITCH) (players e)) as [|w ws].
    { exists night, e. repeat split; auto. }
    rewrite Hm. cbn [andb].
    destruct ((current_round (game_state e) =? 1)
              && (has_antidote w && is_not_None (werewolf_kill night))
              && truthy (werewolf_kill night)).
    - eexists _, _. split; [reflexivity|]. split; reflexivity.
    - exists night, e. repeat split; auto. }
  destruct Hrun as (night' & e' & Hrun & Hk & Hp).
  exists night', e'. split; [exact Hrun|].
  pose proof (gentle_witch_action env night e) as (H1 & H2 & H3 & H4).
  rewrite Hrun in H1, H2, H3, H4. cbn [final] in *.
  repeat split; assumption.
Qed.

(** X22. A night without AI mode never fails: from a well-formed registry
    the night phase of the simple mode always finishes, leaves the registry
    well formed and kills at most one player - a living player who is not
    a werewolf and not player 0, appended to the dead list with one kill
    record - since the target is drawn among the living non-werewolves and
    no poison is ever used. *)
Theorem a_night_without_ai_finishes (env : Env) (e : GameEngine) :
  enable_ai_mode e = false ->
  consistent e ->
  exists e',
    _process_night_phase env e = Done tt e'
    /\ consistent e'
    /\ (dead_players (game_state e') = dead_players (game_state e)
        \/ exists t,
             dead_players (game_state e') = dead_players (game_state e) ++ [t]
             /\ t <> 0
             /\ In t (map id (kill_candidates e))
             /\ alive_flag e' t = Some false
             /\ forall z, z <> t -> alive_flag e' z = alive_flag e z).
Proof.
  intros Hm Hc. unfold _process_night_phase.
  unfold bind at 1. unfold modify_state at 1, modify at 1. cbv beta iota.
  set (e1 := set_game_state (set_phase PhaseType.NIGHT (game_state e)) e).
  assert (Hc1 : consistent e1).
  { apply (consistent_same_flags e e1); auto. }
  destruct (werewolf_action_simple env new_night_actions e1 Hm)
    as (n1 & e2 & Hrun1 & Hm2 & Hp2 & Hg2 & Hs1 & Hq1 & Hk1).
  rewrite (bind_eq _ _ _ _ _ Hrun1).
  destruct (seer_action_simple env n1 e2 Hm2)
    as (n2 & e3 & Hrun2 & Hm3 & Hp3 & Ha3 & Hd3 & _ & Hk2 & Hs2 & Hq2).
  rewrite (bind_eq _ _ _ _ _ Hrun2).
  destruct (witch_action_simple env n2 e3 Hm3)
    as (n3 & e4 & Hrun3 & Hi4 & Hf4 & Ha4 & Hd4 & Hk3 & Hq3).
  rewrite (bind_eq _ _ _ _ _ Hrun3).
  unfold bind at 1. unfold modify_state at 1, modify at 1. cbv beta iota.
  set (e5 := set_game_state (set_night_actions (Some n3) (game_state e4)) e4).
  assert (Hids : map id (players e5) = map id (players e)).
  { cbn. now rewrite Hi4, Hp3, Hp2. }
  assert (Hflags : map alive (players e5) = map alive (players e)).
  { cbn. now rewrite Hf4, Hp3, Hp2. }
  assert (Hal : alive_players (game_state e5) = alive_players (game_state e)).
  { cbn. now rewrite Ha4, Ha3, Hg2. }
  assert (Hdl : dead_players (game_state e5) = dead_players (game_state e)).
  { cbn. now rewrite Hd4, Hd3, Hg2. }
  assert (Hc5 : consistent e5) by now apply (consistent_same_flags e e5).
  assert (Hpoison : witch_poison n3 = None).
  { now rewrite Hq3, Hq2, Hq1. }
  assert (Hkill : werewolf_kill n3 = None
                  \/ exists t, werewolf_kill n3 = Some t
                               /\ In t (map id (kill_candidates e))).
  { rewrite Hk3, Hk2. destruct Hk1 as [->|(t & Ht & Hin)]; [now left|].
    right. exists t. split; [exact Ht|].
    exact Hin. }
  assert (Hdeaths : night_deaths n3 = []
                    \/ exists t, night_deaths n3 = [t] /\ t <> 0
                                 /\ In t (map id (kill_candidates e))).
  { unfold night_deaths. rewrite Hpoison. cbn [truthy app]. rewrite app_nil_r.
    destruct Hkill as [->|(t & -> & Hin)]; [now left|].
    destruct (truthy (Some t) && negb (opt_eqb (Some t) (witch_save n3))) eqn:E;
      [|now left].
    right. exists t. split; [reflexivity|]. split; [|exact Hin].
    apply andb_true_iff in E as [E _]. cbn in E.
    intros ->. discriminate E. }
  destruct (resolve_living n3 e5 Hc5) as (e6 & Hrun & Hc6 & Hin6 & Hout6 & Hd6 & _).
  { destruct Hdeaths as [->|(t & -> & _)]; repeat constructor. intros []. }
  { intros z Hz. destruct Hdeaths as [Hd|(t & Hd & _ & Hin)]; rewrite Hd in Hz;
      [contradiction|]. destruct Hz as [<-|[]].
    apply (living_same_flags e e5); [apply Hc | exact Hids | exact Hflags |].
    apply in_ids_filter in Hin as (p & Hp & Hi & Hf).
    apply andb_true_iff in Hf as [Hf _]. exists p. auto. }
  exists e6. split; [exact Hrun|]. split; [exact Hc6|].
  rewrite Hd6, Hdl.
  destruct Hdeaths as [->|(t & Ht & Hne & Hin)]; [left; apply app_nil_r|].
  right. exists t. rewrite Ht in *. split; [reflexivity|]. split; [exact Hne|].
  split; [exact Hin|]. split; [apply Hin6; now left|].
  intros z Hz. rewrite Hout6 by (intros [->|[]]; now apply Hz).
  unfold alive_flag. now apply alive_flag_same_flags.
Qed.

Lemma the_first_night_at_the_simple_table :
  exists e',
    _process_night_phase silent simple_table = Done tt e'
    /\ consistent e'
    /\ (dead_players (game_state e') = dead_players (game_state simple_table)
        \/ exists t,
             dead_players (game_state e')
             = dead_players (game_state simple_table) ++ [t]
             /\ t <> 0
             /\ In t (map id (kill_candidates simple_table))
             /\ alive_flag e' t = Some false
             /\ forall z, z <> t -> alive_flag e' z = alive_flag simple_table z).
Proof.
  apply (a_night_without_ai_finishes silent simple_table).
  - reflexivity.
  - apply (setup_consistent silent (new_engine false true [])).
    vm_compute. reflexivity.
Defined.

(** ** The seer's check *)


